(** * JT808 message codec: frame codec, header parser, field codec, validator

    A shallow embedding of the codec of the JT808 dashcam server
    (src/utils/buffer-parser.js, src/utils/checksum.js,
    src/utils/message-parser.js, src/utils/message-validator.js and
    src/models/jt808-messages.js) and the proofs of its properties.

    Conventions of the embedding:
    - a Node [Buffer] is a [list byte]; a byte read as a JavaScript number
      is [byteval b : Z], a number stored into a buffer is [mkbyte z]
      (the store keeps the low eight bits);
    - a JavaScript exception is the [Throw] case of [Result];
    - the cursor of a [BufferParser] is threaded explicitly: a parser
      method is a function from the offset to a result and a new offset;
    - a JavaScript object used as a record of decoded fields is a
      [gmap string Value]. *)

From Stdlib Require Import ZArith Lia Strings.Ascii Strings.String Strings.Byte.
From Stdlib Require Import DecimalString HexadecimalString.
From stdpp Require Import base option list gmap strings fin_maps.

Local Open Scope string_scope.
Local Open Scope list_scope.

(** ** JavaScript runtime: exceptions *)

Module Js.

Inductive JsError : Type :=
| Error (message : string)        (* [new Error(message)], thrown by the codec *)
| RangeError (message : string)   (* thrown by Node on an out-of-range access *)
| TypeError (message : string).

Definition message (e : JsError) : string :=
  match e with
  | Error m | RangeError m | TypeError m => m
  end.

Inductive Result (A : Type) : Type :=
| Ok (a : A)
| Throw (e : JsError).
Arguments Ok {A} a.
Arguments Throw {A} e.

Definition bind {A B} (r : Result A) (k : A -> Result B) : Result B :=
  match r with
  | Ok a => k a
  | Throw e => Throw e
  end.

(** [try { r } catch (error) { handler error }] *)
Definition try_catch {A} (r : Result A) (handler : JsError -> Result A) : Result A :=
  match r with
  | Ok a => Ok a
  | Throw e => handler e
  end.

(** ** Bytes and numbers *)

Abbreviation byte := Byte.byte.
Abbreviation Buffer := (list byte).

Definition byteval (b : byte) : Z := Z.of_N (Byte.to_N b).

(** Storing a number into a [Uint8Array] slot keeps its low eight bits. *)
Definition mkbyte (z : Z) : byte :=
  match Byte.of_N (Z.to_N (z mod 256)) with
  | Some b => b
  | None => "000"%byte
  end.

Definition flag : byte := mkbyte 0x7E.

(** Decimal and hexadecimal rendering, [n.toString()] and [n.toString(16)]. *)
Definition toString (z : Z) : string :=
  DecimalString.NilZero.string_of_int (Z.to_int z).
Definition toString16 (z : Z) : string :=
  HexadecimalString.NilZero.string_of_int (Z.to_hex_int z).

Fixpoint repeat_string (s : string) (n : nat) : string :=
  match n with
  | O => ""
  | S n' => s +:+ repeat_string s n'
  end.

(** [str.padStart(targetLength, padString)] for a one-character pad string. *)
Definition padStart (str : string) (targetLength : nat) (pad : string) : string :=
  repeat_string pad (targetLength - String.length str) +:+ str.

(** [str[i]]: [None] stands for [undefined]. *)
Definition charAt (str : string) (i : nat) : option ascii := String.get i str.

(** [parseInt(c, 10)] on the result of [str[i]]: [None] stands for [NaN]. *)
Definition parseInt (c : option ascii) : option Z :=
  match c with
  | Some a =>
      let n := N_of_ascii a in
      if ((48 <=? n) && (n <=? 57))%N then Some (Z.of_N (n - 48)) else None
  | None => None
  end.

(** [ToInt32] of a number that may be [NaN], as the bit operators apply it. *)
Definition toInt32 (x : option Z) : Z := default 0%Z x.

(** ** Node [Buffer] primitives *)

Definition alloc (size : nat) : Buffer := replicate size (mkbyte 0).

(** [buf[i] = v]: a store outside the buffer is ignored. *)
Definition bufset (buf : Buffer) (i : Z) (v : Z) : Buffer :=
  if (i <? 0)%Z then buf else <[Z.to_nat i := mkbyte v]> buf.

(** [buf[i]]: [None] stands for [undefined]. *)
Definition bufget (buf : Buffer) (i : Z) : option Z :=
  if (i <? 0)%Z then None else byteval <$> buf !! Z.to_nat i.

(** [source.copy(target, targetStart)] *)
Definition copy (source target : Buffer) (targetStart : nat) : Buffer :=
  let n := Nat.min (length source) (length target - targetStart) in
  take targetStart target ++ take n source ++ drop (targetStart + n) target.

(** [source.copy(target, targetStart, sourceStart, sourceEnd)] *)
Definition copy_range (source target : Buffer)
    (targetStart sourceStart sourceEnd : nat) : Buffer :=
  copy (take (sourceEnd - sourceStart) (drop sourceStart source)) target targetStart.

(** [buf.writeUInt8(value, offset)] and its wider siblings: Node throws a
    [RangeError] for a value outside the type's range and for an offset
    outside the buffer. *)
Definition out_of_range : JsError :=
  RangeError "The value is out of range".

Definition writeUIntBE (width : nat) (buf : Buffer) (value : Z) (offset : nat)
  : Result Buffer :=
  if ((0 <=? value) && (value <? 2 ^ (8 * Z.of_nat width)))%Z
     && (offset + width <=? length buf)%nat
  then
    Ok (fold_left
          (fun b i =>
             bufset b (Z.of_nat (offset + i))
                    (Z.shiftr value (8 * Z.of_nat (width - 1 - i))))
          (seq 0 width) buf)
  else Throw out_of_range.

Definition writeUInt8 := writeUIntBE 1.
Definition writeUInt16BE := writeUIntBE 2.
Definition writeUInt32BE := writeUIntBE 4.

Definition clampIndex (i len : Z) : Z :=
  if (i <? 0)%Z then Z.max (len + i) 0 else Z.min i len.

(** [buf.slice(start, end)] *)
Definition slice (buf : Buffer) (start end_ : Z) : Buffer :=
  let len := Z.of_nat (length buf) in
  let s := clampIndex start len in
  let e := clampIndex end_ len in
  take (Z.to_nat (e - s)) (drop (Z.to_nat s) buf).

Fixpoint indexOf_from (buf : Buffer) (v : byte) (i : Z) : Z :=
  match buf with
  | [] => (-1)%Z
  | b :: rest => if Byte.eqb b v then i else indexOf_from rest v (i + 1)%Z
  end.

(** [buf.indexOf(v)] *)
Definition indexOf (buf : Buffer) (v : byte) : Z := indexOf_from buf v 0.

(** [buf.lastIndexOf(v)]: the search runs from the end of the buffer. *)
Definition lastIndexOf (buf : Buffer) (v : byte) : Z :=
  let i := indexOf (rev buf) v in
  if (i <? 0)%Z then (-1)%Z else (Z.of_nat (length buf) - 1 - i)%Z.

(** [buf.toString('ascii', start, end)]: every byte loses its top bit. *)
Definition ascii_decode (bytes : Buffer) : string :=
  string_of_list_ascii
    (map (fun b => ascii_of_N (Z.to_N (Z.land (byteval b) 0x7F))) bytes).

(** [Buffer.from(str, 'ascii')] *)
Definition ascii_encode (s : string) : Buffer :=
  map (fun a => mkbyte (Z.of_N (N_of_ascii a))) (list_ascii_of_string s).

(** [str.replace(/\0/g, '')] *)
Fixpoint strip_nul (s : string) : string :=
  match s with
  | EmptyString => EmptyString
  | String a rest =>
      if Ascii.eqb a zero then strip_nul rest else String a (strip_nul rest)
  end.

End Js.
Import Js.

Declare Scope js_scope.
Notation "x <- c1 ;; c2" := (bind c1 (fun x => c2))
  (at level 100, c1 at next level, right associativity) : js_scope.
Local Open Scope js_scope.

(** ** checksum.js *)

Module Checksum.

(** [calculateChecksum(buffer, start, end)] for integers [start] and [end]:
    the loop visits [start], [start + 1], ... as long as the index is below
    [end]; [buffer[i]] is [undefined] before and after the buffer, which
    the exclusive or takes for 0. *)
Definition calculateChecksum_range (buffer : Buffer) (start end_ : Z) : Z :=
  fold_left
    (fun checksum k =>
       Z.lxor checksum (toInt32 (bufget buffer (start + Z.of_nat k))))
    (seq 0 (Z.to_nat (end_ - start))) 0%Z.

(** [calculateChecksum(buffer)] with the default arguments. *)
Definition calculateChecksum (buffer : Buffer) : Z :=
  calculateChecksum_range buffer 0 (Z.of_nat (length buffer)).

Definition validateMessageChecksum (messageBuffer : Buffer) : bool :=
  if (length messageBuffer <? 3)%nat then false
  else
    let startFlag := indexOf messageBuffer flag in
    let endFlag := lastIndexOf messageBuffer flag in
    if ((startFlag =? -1) || (endFlag =? -1) || (startFlag =? endFlag))%Z then false
    else
      let messageData := slice messageBuffer (startFlag + 1) (endFlag - 1) in
      let receivedChecksum := bufget messageBuffer (endFlag - 1) in
      let calculatedChecksum := calculateChecksum messageData in
      match receivedChecksum with
      | Some r => (calculatedChecksum =? r)%Z
      | None => false
      end.

Definition wrapMessage (messageData : Buffer) : Buffer :=
  let checksum := calculateChecksum messageData in
  let wrappedMessage := alloc (length messageData + 3) in
  let wrappedMessage := bufset wrappedMessage 0 0x7E in
  let wrappedMessage := copy messageData wrappedMessage 1 in
  let wrappedMessage :=
    bufset wrappedMessage (Z.of_nat (length wrappedMessage) - 2) checksum in
  let wrappedMessage :=
    bufset wrappedMessage (Z.of_nat (length wrappedMessage) - 1) 0x7E in
  wrappedMessage.

Record Unwrapped : Type := mkUnwrapped {
  messageData : option Buffer;     (* [None] is JavaScript's [null] *)
  isValid : bool;
  error : option string            (* [None] is an absent property *)
}.

Definition unwrapMessage (wrappedMessage : Buffer) : Unwrapped :=
  let startFlag := indexOf wrappedMessage flag in
  let endFlag := lastIndexOf wrappedMessage flag in
  if ((startFlag =? -1) || (endFlag =? -1) || (startFlag =? endFlag))%Z then
    mkUnwrapped None false (Some "Invalid message format")
  else
    let messageData := slice wrappedMessage (startFlag + 1) (endFlag - 1) in
    let isValid := validateMessageChecksum wrappedMessage in
    mkUnwrapped (Some messageData) isValid None.

End Checksum.

(** ** buffer-parser.js *)

Module BufferParser.

(** The parser object: the buffer it reads and its cursor. *)
Record t : Type := mk { buffer : Buffer; offset : nat }.

Definition new (buffer : Buffer) : t := mk buffer 0.

(** A method of the parser: it returns a value and the updated parser, or throws. *)
Definition M (A : Type) : Type := t -> Result (A * t).

Definition ret {A} (a : A) : M A := fun p => Ok (a, p).

Definition mbind {A B} (m : M A) (k : A -> M B) : M B :=
  fun p => match m p with
           | Ok (a, p') => k a p'
           | Throw e => Throw e
           end.

Definition throw {A} (e : JsError) : M A := fun _ => Throw e.

(** Node's own accessors: they throw a [RangeError] outside the buffer. *)
Definition node_readUInt8 (buf : Buffer) (off : nat) : Result Z :=
  match buf !! off with
  | Some b => Ok (byteval b)
  | None => Throw out_of_range
  end.

Definition node_readUInt16BE (buf : Buffer) (off : nat) : Result Z :=
  match buf !! off, buf !! (off + 1) with
  | Some first, Some last => Ok (byteval first * 2 ^ 8 + byteval last)%Z
  | _, _ => Throw out_of_range
  end.

Definition node_readUInt32BE (buf : Buffer) (off : nat) : Result Z :=
  match buf !! off, buf !! (off + 1), buf !! (off + 2), buf !! (off + 3) with
  | Some first, Some b1, Some b2, Some last =>
      Ok (byteval first * 2 ^ 24 + byteval b1 * 2 ^ 16 + byteval b2 * 2 ^ 8
          + byteval last)%Z
  | _, _, _, _ => Throw out_of_range
  end.

Definition overflow (what : string) (p : t) : JsError :=
  Error ("Buffer overflow: trying to read " +:+ what +:+ "at offset "
         +:+ toString (Z.of_nat (offset p)) +:+ ", buffer length "
         +:+ toString (Z.of_nat (length (buffer p)))).

Definition readUInt8 : M Z := fun p =>
  if (length (buffer p) <=? offset p)%nat then Throw (overflow "" p)
  else
    match node_readUInt8 (buffer p) (offset p) with
    | Ok value => Ok (value, mk (buffer p) (offset p + 1))
    | Throw e => Throw e
    end.

Definition readUInt16BE : M Z := fun p =>
  if (length (buffer p) <=? offset p + 1)%nat then Throw (overflow "" p)
  else
    match node_readUInt16BE (buffer p) (offset p) with
    | Ok value => Ok (value, mk (buffer p) (offset p + 2))
    | Throw e => Throw e
    end.

Definition readUInt32BE : M Z := fun p =>
  if (length (buffer p) <=? offset p + 3)%nat then Throw (overflow "" p)
  else
    match node_readUInt32BE (buffer p) (offset p) with
    | Ok value => Ok (value, mk (buffer p) (offset p + 4))
    | Throw e => Throw e
    end.

(** The guard of [readBCD], [readASCII] and [readBytes]:
    [this.offset + length - 1 >= this.buffer.length]. *)
Definition overflows (p : t) (len : nat) : bool :=
  (Z.of_nat (length (buffer p)) <=? Z.of_nat (offset p) + Z.of_nat len - 1)%Z.

(** One turn of the loop of [readBCD]: both nibbles are printed in decimal. *)
Definition bcd_step (p : t) (result : string) (i : nat) : Result string :=
  match node_readUInt8 (buffer p) (offset p + i) with
  | Ok byte =>
      let high := Z.land (Z.shiftr byte 4) 0x0F in
      let low := Z.land byte 0x0F in
      Ok (result +:+ (toString high +:+ toString low))
  | Throw e => Throw e
  end.

Fixpoint bcd_loop (p : t) (i count : nat) (result : string) : Result string :=
  match count with
  | O => Ok result
  | S count' =>
      match bcd_step p result i with
      | Ok result' => bcd_loop p (S i) count' result'
      | Throw e => Throw e
      end
  end.

Definition readBCD (len : nat) : M string := fun p =>
  if overflows p len then Throw (overflow "BCD " p)
  else
    match bcd_loop p 0 len "" with
    | Ok result => Ok (result, mk (buffer p) (offset p + len))
    | Throw e => Throw e
    end.

Definition readASCII (len : nat) : M string := fun p =>
  if overflows p len then Throw (overflow "ASCII " p)
  else
    let value :=
      ascii_decode (slice (buffer p) (Z.of_nat (offset p))
                          (Z.of_nat (offset p) + Z.of_nat len)) in
    Ok (strip_nul value, mk (buffer p) (offset p + len)).

Definition readBytes (len : nat) : M Buffer := fun p =>
  if overflows p len then Throw (overflow "bytes " p)
  else
    let value :=
      slice (buffer p) (Z.of_nat (offset p)) (Z.of_nat (offset p) + Z.of_nat len) in
    Ok (value, mk (buffer p) (offset p + len)).

Definition remaining (p : t) : Z :=
  (Z.of_nat (length (buffer p)) - Z.of_nat (offset p))%Z.

(** [skip(length)], for a count that is not negative. *)
Definition skip (len : nat) : M unit := fun p =>
  Ok (tt, mk (buffer p) (offset p + len)).

Definition reset : M unit := fun p => Ok (tt, mk (buffer p) 0).

Definition seek (position : Z) : M unit := fun p =>
  if ((position <? 0) || (Z.of_nat (length (buffer p)) <=? position))%Z then
    Throw (Error ("Invalid seek position: " +:+ toString position
                  +:+ ", buffer length " +:+ toString (Z.of_nat (length (buffer p)))))
  else Ok (tt, mk (buffer p) (Z.to_nat position)).

Definition tell : M nat := fun p => Ok (offset p, p).

End BufferParser.

Notation "x <~ c1 ;; c2" := (BufferParser.mbind c1 (fun x => c2))
  (at level 100, c1 at next level, right associativity) : js_scope.

(** ** message-parser.js *)

Module MessageParser.

Inductive ProtocolVersion : Type := JT808_2011 | JT808_2013 | JT808_2019.

(** The values of [PROTOCOL_VERSIONS]. *)
Definition version_string (v : ProtocolVersion) : string :=
  match v with
  | JT808_2011 => "2011"
  | JT808_2013 => "2013"
  | JT808_2019 => "2019"
  end.

Record PackageInfo : Type := mkPackage { total : Z; current : Z }.

Record MessageHeader : Type := mkHeader {
  messageId : Z;
  messageProperties : Z;
  protocolVersion : option ProtocolVersion;   (* [None] is [null] *)
  deviceId : string;
  messageSequence : Z;
  messagePackage : option PackageInfo;        (* [None] is [null] *)
  encryptionType : Z;
  messageLength : Z
}.

(** [new MessageHeader()] *)
Definition emptyHeader : MessageHeader :=
  mkHeader 0 0 None "" 0 None 0 0.

Definition jt808_2019_messages : list Z :=
  [0x0001; 0x8001; 0x0102; 0x8103; 0x8104; 0x8106; 0x8107]%Z.

(** [array.includes(x)] on numbers *)
Definition includes (l : list Z) (x : Z) : bool := existsb (Z.eqb x) l.

Definition detectProtocolVersion (messageId reserved : Z) (messageLength : nat)
  : ProtocolVersion :=
  if negb (reserved =? 0)%Z then JT808_2019
  else if includes jt808_2019_messages messageId then JT808_2019
  else JT808_2013.

Definition parseHeader (messageData : Buffer) : Result MessageHeader :=
  let parser := BufferParser.new messageData in
  let run : BufferParser.M MessageHeader :=
    (messageId <~ BufferParser.readUInt16BE ;;
     messageProperties <~ BufferParser.readUInt16BE ;;
     let messageLength := Z.land messageProperties 0x03FF in
     let encryptionType := Z.land (Z.shiftr messageProperties 10) 0x07 in
     let isFragmented := Z.land (Z.shiftr messageProperties 13) 0x01 in
     let reserved := Z.land (Z.shiftr messageProperties 14) 0x03 in
     let protocolVersion :=
       detectProtocolVersion messageId reserved (length messageData) in
     deviceId <~ (match protocolVersion with
                  | JT808_2019 => BufferParser.readBCD 6
                  | _ => BufferParser.readBCD 6
                  end) ;;
     messageSequence <~ BufferParser.readUInt16BE ;;
     messagePackage <~ (if negb (isFragmented =? 0)%Z then
                          total <~ BufferParser.readUInt16BE ;;
                          current <~ BufferParser.readUInt16BE ;;
                          BufferParser.ret (Some (mkPackage total current))
                        else BufferParser.ret None) ;;
     BufferParser.ret
       (mkHeader messageId messageProperties (Some protocolVersion) deviceId
                 messageSequence messagePackage encryptionType messageLength)) in
  match run parser with
  | Ok (header, _) => Ok header
  | Throw e => Throw e
  end.

Definition getHeaderLength (header : MessageHeader) : nat :=
  let len := 12 in
  match messagePackage header with
  | Some _ => len + 4
  | None => len
  end.

Definition stringToBCD (str : string) (len : nat) : Buffer :=
  let buffer := alloc len in
  let paddedStr := padStart str (len * 2) "0" in
  fold_left
    (fun buffer i =>
       let high := parseInt (charAt paddedStr (i * 2)) in
       let low := parseInt (charAt paddedStr (i * 2 + 1)) in
       bufset buffer (Z.of_nat i)
              (Z.lor (Z.shiftl (toInt32 high) 4) (toInt32 low)))
    (seq 0 len) buffer.

(** [createResponseMessage(messageId, deviceId, bodyData, sequenceNumber)];
    a caller that leaves the last two arguments out passes an empty buffer
    and 1. *)
Definition createResponseMessage (messageId : Z) (deviceId : string)
    (bodyData : Buffer) (sequenceNumber : Z) : Result Buffer :=
  let bodyLength := Z.of_nat (length bodyData) in
  let headerLength := 12 in
  let header := alloc headerLength in
  let offset := 0 in
  header <- writeUInt16BE header messageId offset ;;
  let offset := offset + 2 in
  header <- writeUInt16BE header bodyLength offset ;;
  let offset := offset + 2 in
  let deviceIdBuffer := stringToBCD deviceId 6 in
  let header := copy deviceIdBuffer header offset in
  let offset := offset + 6 in
  header <- writeUInt16BE header sequenceNumber offset ;;
  let messageData := header ++ bodyData in
  Ok messageData.

(** [RawMessageLogger.logRawMessage]: the console output is not modelled;
    [hexData.match(/.{1,2}/g)] is [null] for an empty buffer, on which
    [.join] throws. *)
Definition logRawMessage (buffer : Buffer) : Result unit :=
  match buffer with
  | [] => Throw (TypeError "Cannot read properties of null (reading 'join')")
  | _ => Ok tt
  end.

Record ParsedMessage : Type := mkParsed {
  success : bool;
  header : option MessageHeader;
  body : option Buffer;
  rawData : Buffer;
  parsedVersion : option ProtocolVersion;
  error : option string
}.

Definition failure (rawBuffer : Buffer) (msg : string) : ParsedMessage :=
  mkParsed false None None rawBuffer None (Some msg).

Definition parseMessage (rawBuffer : Buffer) : Result ParsedMessage :=
  _ <- logRawMessage rawBuffer ;;
  try_catch
    (let u := Checksum.unwrapMessage rawBuffer in
     if negb (Checksum.isValid u) then
       Ok (failure rawBuffer (default "Invalid checksum" (Checksum.error u)))
     else
       match Checksum.messageData u with
       | None => Throw (TypeError "Cannot read properties of null (reading 'length')")
       | Some messageData =>
           header <- parseHeader messageData ;;
           let bodyLength :=
             (Z.of_nat (length messageData) - Z.of_nat (getHeaderLength header))%Z in
           let messageBody :=
             slice messageData (Z.of_nat (getHeaderLength header))
                   (Z.of_nat (getHeaderLength header) + bodyLength) in
           Ok (mkParsed true (Some header) (Some messageBody) rawBuffer
                        (protocolVersion header) None)
       end)
    (fun error => Ok (failure rawBuffer (message error))).

End MessageParser.

(** ** models/jt808-messages.js *)

Module Schema.

Inductive FieldType : Type :=
| uint8 | uint16 | uint32 | string_ | bcd | bytes | location | array
| other_type (name : string).     (* any other [type] string *)

Inductive ItemType : Type :=
| item_location | item_parameter
| item_other.                     (* an absent or other [itemType] *)

(** A field of a message structure.  [length = 0] stands for an absent
    [length] (both are falsy); the registry declares a length on every
    field whose length the codec reads. *)
Record FieldSchema : Type := mkField {
  name : string;
  type : FieldType;
  length : nat;
  variable : bool;
  optional : bool;
  itemType : ItemType;
  countField : bool;              (* the truthiness of [field.countField] *)
  min : option Z;
  max : option Z;
  enum : option (list Z);
  pattern : option (string -> bool)   (* [pattern.test] *)
}.

Inductive Direction : Type := up | down.

Record MessageStructure : Type := mkStructure {
  title : string;                 (* the [name] of the structure *)
  direction : Direction;
  fields : list FieldSchema
}.

Definition scalar (name : string) (type : FieldType) : FieldSchema :=
  mkField name type 0 false false item_other false None None None None.

Definition fixed (name : string) (type : FieldType) (len : nat) : FieldSchema :=
  mkField name type len false false item_other false None None None None.

Definition var (name : string) (type : FieldType) : FieldSchema :=
  mkField name type 0 true false item_other false None None None None.

Definition array_of (name : string) (itemType : ItemType) : FieldSchema :=
  mkField name array 0 false false itemType false None None None None.

Module MESSAGE_IDS.
Definition TERMINAL_REGISTRATION : Z := 0x0100.
Definition TERMINAL_AUTH : Z := 0x0102.
Definition TERMINAL_HEARTBEAT : Z := 0x0002.
Definition LOCATION_REPORT : Z := 0x0200.
Definition LOCATION_BATCH_REPORT : Z := 0x0704.
Definition MULTIMEDIA_EVENT_UPLOAD : Z := 0x0800.
Definition PLATFORM_GENERAL_RESPONSE : Z := 0x8001.
Definition TERMINAL_REGISTRATION_RESPONSE : Z := 0x8100.
Definition SET_TERMINAL_PARAMETERS : Z := 0x8103.
Definition TERMINAL_CONTROL : Z := 0x8105.
Definition CAMERA_SHOT_COMMAND : Z := 0x8801.
End MESSAGE_IDS.

(** The entries of [MESSAGE_STRUCTURES], in the order of the source. *)
Definition structure_table : list (Z * MessageStructure) :=
  [ (MESSAGE_IDS.TERMINAL_REGISTRATION,
     mkStructure "Terminal Registration" up
       [ scalar "provinceId" uint16;
         scalar "cityId" uint16;
         fixed "manufacturerId" string_ 5;
         fixed "deviceModel" string_ 8;
         fixed "deviceId" string_ 7;
         scalar "plateColor" uint8;
         var "plateNumber" string_ ]);
    (MESSAGE_IDS.TERMINAL_REGISTRATION_RESPONSE,
     mkStructure "Terminal Registration Response" down
       [ scalar "sequenceNumber" uint16;
         scalar "result" uint8;
         var "authCode" string_ ]);
    (MESSAGE_IDS.TERMINAL_AUTH,
     mkStructure "Terminal Authentication" up
       [ var "authCode" string_ ]);
    (MESSAGE_IDS.TERMINAL_HEARTBEAT,
     mkStructure "Terminal Heartbeat" up []);
    (MESSAGE_IDS.PLATFORM_GENERAL_RESPONSE,
     mkStructure "Platform General Response" down
       [ scalar "sequenceNumber" uint16;
         scalar "messageId" uint16;
         scalar "result" uint8 ]);
    (MESSAGE_IDS.LOCATION_REPORT,
     mkStructure "Location Information Report" up
       [ scalar "alarmFlag" uint32;
         scalar "statusFlag" uint32;
         scalar "latitude" uint32;
         scalar "longitude" uint32;
         scalar "altitude" uint16;
         scalar "speed" uint16;
         scalar "direction" uint16;
         fixed "timestamp" bcd 6;
         var "additionalInfo" bytes ]);
    (MESSAGE_IDS.LOCATION_BATCH_REPORT,
     mkStructure "Location Batch Report" up
       [ scalar "dataType" uint8;
         scalar "itemCount" uint16;
         array_of "locationItems" item_location ]);
    (MESSAGE_IDS.MULTIMEDIA_EVENT_UPLOAD,
     mkStructure "Multimedia Event Upload" up
       [ scalar "multimediaId" uint32;
         scalar "multimediaType" uint8;
         scalar "multimediaFormat" uint8;
         scalar "eventCode" uint8;
         scalar "channelId" uint8;
         scalar "locationInfo" location;
         var "multimediaData" bytes ]);
    (MESSAGE_IDS.SET_TERMINAL_PARAMETERS,
     mkStructure "Set Terminal Parameters" down
       [ scalar "parameterCount" uint8;
         array_of "parameters" item_parameter ]);
    (MESSAGE_IDS.TERMINAL_CONTROL,
     mkStructure "Terminal Control" down
       [ scalar "commandFlag" uint8;
         var "commandParameter" string_ ]);
    (MESSAGE_IDS.CAMERA_SHOT_COMMAND,
     mkStructure "Camera Shot Command" down
       [ scalar "channelId" uint8;
         scalar "shotCommand" uint16;
         scalar "shotInterval" uint16;
         scalar "shotCount" uint16;
         scalar "saveFlag" uint8;
         scalar "resolution" uint8;
         scalar "quality" uint8;
         scalar "brightness" uint8;
         scalar "contrast" uint8;
         scalar "saturation" uint8;
         scalar "chroma" uint8 ]) ].

(** [MESSAGE_STRUCTURES], an object keyed by the message identifier. *)
Definition MESSAGE_STRUCTURES : gmap Z MessageStructure :=
  list_to_map structure_table.

End Schema.

(** ** message-validator.js *)

(** The values of decoded fields. *)
Module Location.
Record t : Type := mk {
  alarmFlag : Z;
  statusFlag : Z;
  latitude : Z;
  longitude : Z;
  altitude : Z;
  speed : Z;
  direction : Z;
  timestamp : string
}.
End Location.

Module Param.
Record t : Type := mk { id : Z; length : Z; value : Buffer }.
End Param.

Inductive Item : Type :=
| ItemLocation (l : Location.t)
| ItemParameter (p : Param.t).

Inductive Value : Type :=
| VNumber (z : Z)
| VString (s : string)
| VBuffer (b : Buffer)
| VLocation (l : Location.t)
| VArray (items : list Item).

(** A decoded message body: the object [data], keyed by field name.  An
    absent key is [undefined]. *)
Abbreviation FieldMap := (gmap string Value).

Module MessageSerializer.
Import Schema.

Definition unknown_message_id (messageId : Z) : string :=
  "Unknown message ID: 0x" +:+ padStart (toString16 messageId) 4 "0".

Definition unknown_field_type (type : FieldType) : JsError :=
  Error ("Unknown field type: " +:+
         match type with other_type name => name | _ => "" end).

(** A value of another shape than the field type expects is outside the
    embedding: the serializer is modelled on well-shaped values.  The code
    coerces some such values instead of throwing (a string given to a bytes
    field goes through [Buffer.from], a string given to a number field
    through unary plus); [ill_shaped] stands for all of these cases, and
    the properties below state the shape of the values they speak of. *)
Definition ill_shaped {A} : Result A :=
  Throw (TypeError "value does not have the shape of its field type").

Definition deserializeLocation : BufferParser.M Location.t :=
  alarmFlag <~ BufferParser.readUInt32BE ;;
  statusFlag <~ BufferParser.readUInt32BE ;;
  latitude <~ BufferParser.readUInt32BE ;;
  longitude <~ BufferParser.readUInt32BE ;;
  altitude <~ BufferParser.readUInt16BE ;;
  speed <~ BufferParser.readUInt16BE ;;
  direction <~ BufferParser.readUInt16BE ;;
  timestamp <~ BufferParser.readBCD 6 ;;
  BufferParser.ret
    (Location.mk alarmFlag statusFlag latitude longitude altitude speed
                 direction timestamp).

(** [for (let i = 0; i < itemCount; i++) items.push(deserializeLocation(parser))] *)
Fixpoint location_loop (count : nat) (items : list Item)
  : BufferParser.M (list Item) :=
  match count with
  | O => BufferParser.ret items
  | S count' =>
      l <~ deserializeLocation ;;
      location_loop count' (items ++ [ItemLocation l])
  end.

(** [while (parser.remaining() >= 5) { ... }]: every turn consumes at least
    five bytes, so [fuel] turns suffice when [fuel] is the buffer length. *)
Fixpoint parameter_loop (fuel : nat) (items : list Item)
  : BufferParser.M (list Item) :=
  fun parser =>
    if (5 <=? BufferParser.remaining parser)%Z then
      match fuel with
      | O => Ok (items, parser)
      | S fuel' =>
          (parameterId <~ BufferParser.readUInt32BE ;;
           parameterLength <~ BufferParser.readUInt8 ;;
           parameterValue <~ BufferParser.readBytes (Z.to_nat parameterLength) ;;
           parameter_loop fuel'
             (items ++ [ItemParameter
                          (Param.mk parameterId parameterLength parameterValue)]))
            parser
      end
    else Ok (items, parser).

Definition deserializeArray (field : FieldSchema) : BufferParser.M (list Item) :=
  let items := [] in
  match itemType field with
  | item_location =>
      itemCount <~ (if countField field then BufferParser.readUInt16BE
                    else BufferParser.ret 1%Z) ;;
      location_loop (Z.to_nat itemCount) items
  | item_parameter =>
      fun parser =>
        parameter_loop (List.length (BufferParser.buffer parser)) items parser
  | item_other => BufferParser.ret items
  end.

Definition deserializeField (field : FieldSchema) : BufferParser.M Value :=
  match type field with
  | uint8 => v <~ BufferParser.readUInt8 ;; BufferParser.ret (VNumber v)
  | uint16 => v <~ BufferParser.readUInt16BE ;; BufferParser.ret (VNumber v)
  | uint32 => v <~ BufferParser.readUInt32BE ;; BufferParser.ret (VNumber v)
  | string_ =>
      if variable field then
        fun parser =>
          (v <~ BufferParser.readASCII (Z.to_nat (BufferParser.remaining parser)) ;;
           BufferParser.ret (VString v)) parser
      else
        v <~ BufferParser.readASCII (length field) ;; BufferParser.ret (VString v)
  | bcd => v <~ BufferParser.readBCD (length field) ;; BufferParser.ret (VString v)
  | bytes =>
      if variable field then
        fun parser =>
          (v <~ BufferParser.readBytes (Z.to_nat (BufferParser.remaining parser)) ;;
           BufferParser.ret (VBuffer v)) parser
      else
        v <~ BufferParser.readBytes (length field) ;; BufferParser.ret (VBuffer v)
  | location => l <~ deserializeLocation ;; BufferParser.ret (VLocation l)
  | array => items <~ deserializeArray field ;; BufferParser.ret (VArray items)
  | other_type _ => BufferParser.throw (unknown_field_type (type field))
  end.

(** The loop of [deserialize] over [structure.fields]. *)
Fixpoint deserializeFields (fields : list FieldSchema) (parser : BufferParser.t)
    (data : FieldMap) : Result FieldMap :=
  match fields with
  | [] => Ok data
  | field :: rest =>
      match deserializeField field parser with
      | Ok (v, parser') => deserializeFields rest parser' (<[name field := v]> data)
      | Throw error =>
          Throw (Error ("Error deserializing field " +:+ name field +:+ ": "
                        +:+ message error))
      end
  end.

Definition deserialize (messageId : Z) (messageBody : Buffer) : Result FieldMap :=
  match MESSAGE_STRUCTURES !! messageId with
  | None => Throw (Error (unknown_message_id messageId))
  | Some structure =>
      deserializeFields (fields structure) (BufferParser.new messageBody) ∅
  end.

Definition stringToBCD (str : string) (len : nat) : Buffer :=
  let buffer := alloc len in
  let paddedStr := padStart str (len * 2) "0" in
  fold_left
    (fun buffer i =>
       let high := parseInt (charAt paddedStr (i * 2)) in
       let low := parseInt (charAt paddedStr (i * 2 + 1)) in
       bufset buffer (Z.of_nat i)
              (Z.lor (Z.shiftl (toInt32 high) 4) (toInt32 low)))
    (seq 0 len) buffer.

(** [location.timestamp || '000000000000']: the empty string is falsy.  The
    numeric fields go through [x || 0], the identity on numbers. *)
Definition timestamp_or_default (ts : string) : string :=
  if String.eqb ts "" then "000000000000" else ts.

Definition serializeLocation (location : Location.t) : Result Buffer :=
  let buffer := alloc 28 in
  let offset := 0 in
  buffer <- writeUInt32BE buffer (Location.alarmFlag location) offset ;;
  let offset := offset + 4 in
  buffer <- writeUInt32BE buffer (Location.statusFlag location) offset ;;
  let offset := offset + 4 in
  buffer <- writeUInt32BE buffer (Location.latitude location) offset ;;
  let offset := offset + 4 in
  buffer <- writeUInt32BE buffer (Location.longitude location) offset ;;
  let offset := offset + 4 in
  buffer <- writeUInt16BE buffer (Location.altitude location) offset ;;
  let offset := offset + 2 in
  buffer <- writeUInt16BE buffer (Location.speed location) offset ;;
  let offset := offset + 2 in
  buffer <- writeUInt16BE buffer (Location.direction location) offset ;;
  let offset := offset + 2 in
  let timestampBCD := stringToBCD (timestamp_or_default (Location.timestamp location)) 6 in
  Ok (copy timestampBCD buffer offset).

Definition serializeParameter (param : Param.t) : Result Buffer :=
  let paramBuffer := alloc (5 + List.length (Param.value param)) in
  let offset := 0 in
  paramBuffer <- writeUInt32BE paramBuffer (Param.id param) offset ;;
  let offset := offset + 4 in
  paramBuffer <- writeUInt8 paramBuffer (Param.length param) offset ;;
  let offset := offset + 1 in
  Ok (copy (Param.value param) paramBuffer offset).

(** The loops of [serializeArray]; [buffers] is kept concatenated. *)
Fixpoint serializeItems (itemType : ItemType) (items : list Item) : Result Buffer :=
  match items with
  | [] => Ok []
  | item :: rest =>
      b <- match itemType, item with
           | item_location, ItemLocation l => serializeLocation l
           | item_parameter, ItemParameter p => serializeParameter p
           | _, _ => ill_shaped
           end ;;
      bs <- serializeItems itemType rest ;;
      Ok (b ++ bs)
  end.

Definition serializeArray (field : FieldSchema) (items : list Item) : Result Buffer :=
  match itemType field with
  | item_other => Ok []
  | it => serializeItems it items
  end.

Definition serializeField (field : FieldSchema) (value : Value) : Result Buffer :=
  match type field, value with
  | uint8, VNumber v => writeUInt8 (alloc 1) v 0
  | uint16, VNumber v => writeUInt16BE (alloc 2) v 0
  | uint32, VNumber v => writeUInt32BE (alloc 4) v 0
  | string_, VString v =>
      if variable field then Ok (ascii_encode v)
      else
        let stringBuffer := alloc (length field) in
        Ok (copy_range (ascii_encode v) stringBuffer 0 0
                       (Nat.min (String.length v) (length field)))
  | bcd, VString v => Ok (stringToBCD v (length field))
  | bytes, VBuffer v => Ok v
  | location, VLocation v => serializeLocation v
  | array, VArray v => serializeArray field v
  | other_type _, _ => Throw (unknown_field_type (type field))
  | _, _ => ill_shaped
  end.

(** The loop of [serialize] over [structure.fields]; [buffers] is kept
    concatenated. *)
Fixpoint serializeFields (fields : list FieldSchema) (data : FieldMap)
  : Result Buffer :=
  match fields with
  | [] => Ok []
  | field :: rest =>
      b <- match data !! name field with
           | Some value => serializeField field value
           | None =>
               if negb (optional field)
               then Throw (Error ("Missing required field: " +:+ name field))
               else Ok []
           end ;;
      bs <- serializeFields rest data ;;
      Ok (b ++ bs)
  end.

Definition serialize (messageId : Z) (data : FieldMap) : Result Buffer :=
  match MESSAGE_STRUCTURES !! messageId with
  | None => Throw (Error (unknown_message_id messageId))
  | Some structure => serializeFields (fields structure) data
  end.

End MessageSerializer.

Module MessageFactory.
Import Schema.

(** [createRegistrationResponse(sequenceNumber, result, authCode)]; a caller
    that leaves [authCode] out passes the empty string. *)
Definition createRegistrationResponse (sequenceNumber result : Z) (authCode : string)
  : Result Buffer :=
  let data : FieldMap :=
    <["sequenceNumber" := VNumber sequenceNumber]>
      (<["result" := VNumber result]>
         (<["authCode" := VString (if (result =? 0)%Z then authCode else "")]> ∅)) in
  MessageSerializer.serialize MESSAGE_IDS.TERMINAL_REGISTRATION_RESPONSE data.

Definition createGeneralResponse (sequenceNumber messageId result : Z) : Result Buffer :=
  let data : FieldMap :=
    <["sequenceNumber" := VNumber sequenceNumber]>
      (<["messageId" := VNumber messageId]>
         (<["result" := VNumber result]> ∅)) in
  MessageSerializer.serialize MESSAGE_IDS.PLATFORM_GENERAL_RESPONSE data.

Definition createParameterSetting (parameters : list Param.t) : Result Buffer :=
  let data : FieldMap :=
    <["parameterCount" := VNumber (Z.of_nat (List.length parameters))]>
      (<["parameters" := VArray (map ItemParameter parameters)]> ∅) in
  MessageSerializer.serialize MESSAGE_IDS.SET_TERMINAL_PARAMETERS data.

Definition createCameraShotCommand (shotParams : FieldMap) : Result Buffer :=
  MessageSerializer.serialize MESSAGE_IDS.CAMERA_SHOT_COMMAND shotParams.

End MessageFactory.

Module MessageValidator.
Import Schema.

(** The result of [validateFields], [validateFieldType] and
    [validateFieldConstraints]. *)
Record Check : Type := mkCheck { ok : bool; why : option string }.

Definition pass : Check := mkCheck true None.
Definition fail (msg : string) : Check := mkCheck false (Some msg).

(** [/^\d+$/.test(value)] *)
Definition is_digit (a : ascii) : bool :=
  let n := N_of_ascii a in ((48 <=? n) && (n <=? 57))%N.

Definition all_digits (s : string) : bool :=
  negb (String.eqb s "") && forallb is_digit (list_ascii_of_string s).

Definition between (lo hi : Z) (value : Value) : bool :=
  match value with
  | VNumber v => ((lo <=? v) && (v <=? hi))%Z
  | _ => false
  end.

Definition validateFieldType (field : FieldSchema) (value : Value) : Check :=
  match type field with
  | uint8 =>
      if negb (between 0 255 value) then fail "Must be integer between 0-255"
      else pass
  | uint16 =>
      if negb (between 0 65535 value) then fail "Must be integer between 0-65535"
      else pass
  | uint32 =>
      if negb (between 0 4294967295 value)
      then fail "Must be integer between 0-4294967295"
      else pass
  | string_ =>
      match value with
      | VString v =>
          if negb (length field =? 0)%nat && (length field <? String.length v)%nat
          then fail ("String too long, max length: "
                     +:+ toString (Z.of_nat (length field)))
          else pass
      | _ => fail "Must be string"
      end
  | bcd =>
      match value with
      | VString v =>
          if negb (all_digits v) then fail "Must be numeric string for BCD"
          else if negb (length field =? 0)%nat
                  && negb (String.length v =? length field * 2)%nat
          then fail ("BCD string length must be "
                     +:+ toString (Z.of_nat (length field * 2)) +:+ " digits")
          else pass
      | _ => fail "Must be numeric string for BCD"
      end
  | bytes =>
      match value with
      | VBuffer _ => pass
      | _ => fail "Must be Buffer"
      end
  | array =>
      match value with
      | VArray _ => pass
      | _ => fail "Must be array"
      end
  | location =>
      match value with
      | VLocation _ | VBuffer _ | VArray _ => pass     (* [typeof value === 'object'] *)
      | _ => fail "Must be location object"
      end
  | other_type name => fail ("Unknown field type: " +:+ name)
  end.

Fixpoint join (l : list Z) : string :=
  match l with
  | [] => ""
  | [x] => toString x
  | x :: rest => toString x +:+ ", " +:+ join rest
  end.

(** The bounds and the enumeration are compared on numbers; the registry
    declares none of them.  The coercion that [<] and [>] apply to a value
    that is not a number (a string such as '3' is compared as 3) is not
    modelled: a bound says nothing about such a value here. *)
Definition below (bound : option Z) (value : Value) : bool :=
  match bound, value with
  | Some lo, VNumber v => (v <? lo)%Z
  | _, _ => false
  end.

Definition above (bound : option Z) (value : Value) : bool :=
  match bound, value with
  | Some hi, VNumber v => (hi <? v)%Z
  | _, _ => false
  end.

Definition outside (allowed : option (list Z)) (value : Value) : bool :=
  match allowed, value with
  | Some l, VNumber v => negb (MessageParser.includes l v)
  | Some _, _ => true
  | None, _ => false
  end.

Definition mismatch (test : option (string -> bool)) (value : Value) : bool :=
  match test, value with
  | Some t, VString v => negb (t v)
  | _, _ => false
  end.

Definition validateFieldConstraints (field : FieldSchema) (value : Value) : Check :=
  if below (min field) value then
    fail ("Value must be >= " +:+ toString (default 0%Z (min field)))
  else if above (max field) value then
    fail ("Value must be <= " +:+ toString (default 0%Z (max field)))
  else if outside (enum field) value then
    fail ("Value must be one of: " +:+ join (default [] (enum field)))
  else if mismatch (pattern field) value then
    fail "Value does not match required pattern"
  else pass.

Fixpoint validateFields (fieldSchema : list FieldSchema) (data : FieldMap) : Check :=
  match fieldSchema with
  | [] => pass
  | field :: rest =>
      match data !! name field with
      | None =>
          if negb (optional field)
          then fail ("Missing required field: " +:+ name field)
          else validateFields rest data
      | Some value =>
          let typeValidation := validateFieldType field value in
          if negb (ok typeValidation) then
            fail ("Field " +:+ name field +:+ ": " +:+ default "" (why typeValidation))
          else
            let constraintValidation := validateFieldConstraints field value in
            if negb (ok constraintValidation) then
              fail ("Field " +:+ name field +:+ ": "
                    +:+ default "" (why constraintValidation))
            else validateFields rest data
      end
  end.

Record ValidationResult : Type := mkResult {
  valid : bool;
  error : option string;
  data : option FieldMap;
  structure : option MessageStructure
}.

Definition validateMessage (messageId : Z) (messageBody : Buffer)
  : Result ValidationResult :=
  match MESSAGE_STRUCTURES !! messageId with
  | None =>
      Ok (mkResult false (Some (MessageSerializer.unknown_message_id messageId))
                   None None)
  | Some structure =>
      try_catch
        (parsedData <- MessageSerializer.deserialize messageId messageBody ;;
         let validationResult := validateFields (fields structure) parsedData in
         Ok (mkResult (ok validationResult) (why validationResult)
                      (Some parsedData) (Some structure)))
        (fun error =>
           Ok (mkResult false (Some ("Validation error: " +:+ message error))
                        None None))
  end.

End MessageValidator.

(** ** Notions used to state the properties *)

Module FrameSpec.

(** The number of delimiter bytes in a frame. *)
Definition delimiters (frame : Buffer) : nat :=
  count_occ Byte.byte_eq_dec frame flag.

(** The result of [unwrapMessage] on a frame it rejects as malformed. *)
Definition malformed : Checksum.Unwrapped :=
  Checksum.mkUnwrapped None false (Some "Invalid message format").

(** The frame with bit [k] of the byte at [pos] inverted. *)
Definition flip_bit (frame : Buffer) (pos : Z) (k : nat) : Buffer :=
  bufset frame pos (Z.lxor (toInt32 (bufget frame pos)) (2 ^ Z.of_nat k)).

End FrameSpec.

Module ParserSpec.

(** The [n] bytes under the cursor of a parser. *)
Definition window (p : BufferParser.t) (n : nat) : Buffer :=
  take n (drop (BufferParser.offset p) (BufferParser.buffer p)).

(** The parser with its cursor moved [n] bytes on. *)
Definition advance (p : BufferParser.t) (n : nat) : BufferParser.t :=
  BufferParser.mk (BufferParser.buffer p) (BufferParser.offset p + n).

(** The big-endian unsigned number that a byte sequence denotes. *)
Definition be_value (bytes : Buffer) : Z :=
  fold_left (fun acc b => (acc * 256 + byteval b)%Z) bytes 0%Z.

Definition high_nibble (b : byte) : Z := (byteval b / 16)%Z.
Definition low_nibble (b : byte) : Z := (byteval b mod 16)%Z.

(** What one byte contributes to the text that [readBCD] returns. *)
Definition bcd_pair (b : byte) : string :=
  toString (high_nibble b) +:+ toString (low_nibble b).

Fixpoint bcd_text (bytes : Buffer) : string :=
  match bytes with
  | [] => ""
  | b :: rest => bcd_pair b +:+ bcd_text rest
  end.

(** Both nibbles of every byte are decimal digits. *)
Definition decimal_nibbles (bytes : Buffer) : Prop :=
  Forall (fun b => (high_nibble b <= 9)%Z /\ (low_nibble b <= 9)%Z) bytes.

(** The value of a character as [parseInt] and the bit operators see it. *)
Definition digit_value (a : ascii) : Z := toInt32 (parseInt (Some a)).

(** The number that [stringToBCD] stores for a pair of characters. *)
Definition packed (high low : option ascii) : Z :=
  Z.lor (Z.shiftl (toInt32 (parseInt high)) 4) (toInt32 (parseInt low)).

(** The bytes that pairs of characters pack into, high nibble first. *)
Fixpoint pack_digits (chars : list ascii) : Buffer :=
  match chars with
  | high :: low :: rest =>
      mkbyte (16 * digit_value high + digit_value low) :: pack_digits rest
  | _ => []
  end.

End ParserSpec.

Module CodecSpec.
Import Schema.

(** The error of a read past the end of the buffer. *)
Definition truncation (e : JsError) : Prop :=
  exists what p, e = BufferParser.overflow what p.

(** The error that [deserialize] throws when reading field [f] ran past the
    end of the buffer. *)
Definition truncated_at (f : FieldSchema) (e : JsError) : Prop :=
  exists inner,
    truncation inner
    /\ e = Error ("Error deserializing field " +:+ name f +:+ ": " +:+ message inner).

(** The least number of bytes that decoding a field consumes. *)
Definition minWidth (f : FieldSchema) : nat :=
  match type f with
  | uint8 => 1
  | uint16 => 2
  | uint32 => 4
  | string_ | bytes => if variable f then 0 else length f
  | bcd => length f
  | location => 28
  | array =>
      match itemType f with
      | item_location => if countField f then 2 else 28
      | _ => 0
      end
  | other_type _ => 0
  end.

(** The minimum fixed width of a message structure. *)
Definition minFixedWidth (st : MessageStructure) : nat :=
  foldr (fun f acc => minWidth f + acc) 0 (fields st).

Definition known_type (f : FieldSchema) : Prop :=
  match type f with
  | other_type _ => False
  | _ => True
  end.

(** A parser method that reads exactly [n] bytes: it succeeds and moves the
    cursor [n] bytes on when [n] bytes are left, and throws the overflow
    error of the parser otherwise. *)
Definition reads_exactly {A} (n : nat) (m : BufferParser.M A) : Prop :=
  forall p,
    BufferParser.offset p <= List.length (BufferParser.buffer p) ->
    (BufferParser.offset p + n <= List.length (BufferParser.buffer p) ->
     exists v, m p = Ok (v, ParserSpec.advance p n))
    /\ (List.length (BufferParser.buffer p) < BufferParser.offset p + n ->
        exists e, truncation e /\ m p = Throw e).

(** A parser method that reads at least [n] bytes inside the buffer, or
    throws the overflow error of the parser. *)
Definition reads_within {A} (n : nat) (m : BufferParser.M A) : Prop :=
  forall p,
    BufferParser.offset p <= List.length (BufferParser.buffer p) ->
    match m p with
    | Ok (_, p') =>
        BufferParser.buffer p' = BufferParser.buffer p
        /\ BufferParser.offset p + n <= BufferParser.offset p'
        /\ BufferParser.offset p' <= List.length (BufferParser.buffer p)
    | Throw e => truncation e
    end.

(** The error of a read past the end of [body], by a read that started at
    position [start] or later. *)
Definition overflow_in (body : Buffer) (start : nat) (e : JsError) : Prop :=
  exists what q,
    e = BufferParser.overflow what q
    /\ BufferParser.buffer q = body
    /\ start <= BufferParser.offset q.

(** A parser method that stays inside the buffer: it leaves the buffer
    alone and the cursor inside it, or throws the overflow error of a read
    of that buffer at or after the cursor. *)
Definition guarded {A} (m : BufferParser.M A) : Prop :=
  forall p,
    BufferParser.offset p <= List.length (BufferParser.buffer p) ->
    match m p with
    | Ok (_, p') =>
        BufferParser.buffer p' = BufferParser.buffer p
        /\ BufferParser.offset p <= BufferParser.offset p'
        /\ BufferParser.offset p' <= List.length (BufferParser.buffer p)
    | Throw e => overflow_in (BufferParser.buffer p) (BufferParser.offset p) e
    end.

(** The parser after the fields [fs] have been decoded one after the other,
    when none of them throws. *)
Fixpoint decode_prefix (fs : list FieldSchema) (p : BufferParser.t)
  : option BufferParser.t :=
  match fs with
  | [] => Some p
  | f :: rest =>
      match MessageSerializer.deserializeField f p with
      | Ok (_, p') => decode_prefix rest p'
      | Throw _ => None
      end
  end.

(** [deserialize] of [body] fails at field [f] with error [e]: the fields
    before [f] are decoded, decoding [f] throws at a read past the end of
    [body], and [e] is that error under the name of [f]. *)
Definition fails_at (fs : list FieldSchema) (body : Buffer) (f : FieldSchema)
    (e : JsError) : Prop :=
  exists pre post p inner,
    fs = pre ++ f :: post
    /\ decode_prefix pre (BufferParser.new body) = Some p
    /\ BufferParser.buffer p = body
    /\ MessageSerializer.deserializeField f p = Throw inner
    /\ overflow_in body (BufferParser.offset p) inner
    /\ e = Error ("Error deserializing field " +:+ name f +:+ ": "
                  +:+ message inner).

End CodecSpec.

Module EncodeSpec.
Import Schema.

(** The big-endian bytes of a number, [width] of them. *)
Definition be_bytes (width : nat) (v : Z) : Buffer :=
  map (fun i => mkbyte (Z.shiftr v (8 * Z.of_nat (width - 1 - i)))) (seq 0 width).

(** An unsigned number of [width] bytes. *)
Definition is_uint (width : nat) (v : Z) : Prop :=
  (0 <= v < 2 ^ (8 * Z.of_nat width))%Z.

(** A character that the ASCII encoding and the removal of NUL characters
    leave alone: its code is from 1 to 127. *)
Definition plain_char (a : ascii) : Prop := (1 <= N_of_ascii a <= 127)%N.

Definition plain (s : string) : Prop := Forall plain_char (list_ascii_of_string s).

Definition decimal_char (a : ascii) : Prop := (48 <= N_of_ascii a <= 57)%N.

Definition decimal (s : string) : Prop := Forall decimal_char (list_ascii_of_string s).

Definition valid_location (l : Location.t) : Prop :=
  is_uint 4 (Location.alarmFlag l) /\ is_uint 4 (Location.statusFlag l)
  /\ is_uint 4 (Location.latitude l) /\ is_uint 4 (Location.longitude l)
  /\ is_uint 2 (Location.altitude l) /\ is_uint 2 (Location.speed l)
  /\ is_uint 2 (Location.direction l)
  /\ decimal (Location.timestamp l) /\ String.length (Location.timestamp l) = 12.

Definition valid_parameter (p : Param.t) : Prop :=
  is_uint 4 (Param.id p)
  /\ Param.length p = Z.of_nat (List.length (Param.value p))
  /\ List.length (Param.value p) <= 255.

(** The values that a field carries through [serializeField] and
    [deserializeField] unchanged. *)
Definition encodable (f : FieldSchema) (v : Value) : Prop :=
  match type f, v with
  | uint8, VNumber z => is_uint 1 z
  | uint16, VNumber z => is_uint 2 z
  | uint32, VNumber z => is_uint 4 z
  | string_, VString s =>
      plain s /\ (variable f = false -> String.length s <= length f)
  | bcd, VString s => decimal s /\ String.length s = 2 * length f
  | bytes, VBuffer b => variable f = false -> List.length b = length f
  | location, VLocation l => valid_location l
  | array, VArray items =>
      match itemType f with
      | item_location =>
          countField f = false
          /\ exists l, items = [ItemLocation l] /\ valid_location l
      | item_parameter =>
          Forall (fun item => exists p, item = ItemParameter p /\ valid_parameter p) items
      | item_other => items = []
      end
  | _, _ => False
  end.

(** The 28 bytes of a location record. *)
Definition location_bytes (l : Location.t) : Buffer :=
  be_bytes 4 (Location.alarmFlag l) ++ be_bytes 4 (Location.statusFlag l)
  ++ be_bytes 4 (Location.latitude l) ++ be_bytes 4 (Location.longitude l)
  ++ be_bytes 2 (Location.altitude l) ++ be_bytes 2 (Location.speed l)
  ++ be_bytes 2 (Location.direction l)
  ++ MessageSerializer.stringToBCD (Location.timestamp l) 6.

(** The bytes of a parameter record. *)
Definition parameter_bytes (p : Param.t) : Buffer :=
  be_bytes 4 (Param.id p) ++ be_bytes 1 (Param.length p) ++ Param.value p.

(** The map that decoding fills, field after field, from the values of [data]. *)
Definition decoded (fs : list FieldSchema) (data acc : gmap string Value)
  : gmap string Value :=
  fold_left (fun m f => match data !! name f with
                        | Some v => <[name f := v]> m
                        | None => m
                        end) fs acc.

(** The fields whose decoding takes every byte that is left. *)
Definition takes_rest (f : FieldSchema) : bool :=
  match type f with
  | string_ | bytes => variable f
  | array =>
      match itemType f with
      | item_parameter => true
      | _ => false
      end
  | _ => false
  end.

(** Only the last field of a structure may take the rest of the buffer. *)
Fixpoint layout_ok (fs : list FieldSchema) : bool :=
  match fs with
  | [] => true
  | f :: rest =>
      match rest with
      | [] => true
      | _ => negb (takes_rest f) && layout_ok rest
      end
  end.

(** The data hold an encodable value for every field, and no other key. *)
Definition encodable_data (fs : list FieldSchema) (data : gmap string Value) : Prop :=
  Forall (fun f => exists v, data !! name f = Some v /\ encodable f v) fs
  /\ (forall k, is_Some (data !! k) -> k ∈ map name fs).

End EncodeSpec.

Module HeaderSpec.
Import MessageParser.

(** The properties word of a header: its third and fourth bytes. *)
Definition properties (messageData : Buffer) : Z :=
  ParserSpec.be_value (take 2 (drop 2 messageData)).

(** Bit 13 of the properties word: the message carries package information. *)
Definition fragmented (messageData : Buffer) : bool :=
  negb (Z.land (Z.shiftr (properties messageData) 13) 0x01 =? 0)%Z.

(** The number of bytes that the header takes. *)
Definition header_width (messageData : Buffer) : nat :=
  12 + (if fragmented messageData then 4 else 0).

(** The header that the first bytes of the message data denote. *)
Definition header_of (messageData : Buffer) : MessageHeader :=
  let messageId := ParserSpec.be_value (take 2 messageData) in
  mkHeader messageId (properties messageData)
    (Some (detectProtocolVersion messageId
             (Z.land (Z.shiftr (properties messageData) 14) 0x03)
             (length messageData)))
    (ParserSpec.bcd_text (take 6 (drop 4 messageData)))
    (ParserSpec.be_value (take 2 (drop 10 messageData)))
    (if fragmented messageData
     then Some (mkPackage (ParserSpec.be_value (take 2 (drop 12 messageData)))
                          (ParserSpec.be_value (take 2 (drop 14 messageData))))
     else None)
    (Z.land (Z.shiftr (properties messageData) 10) 0x07)
    (Z.land (properties messageData) 0x03FF).

End HeaderSpec.

Module ValidationSpec.
Import Schema.

(** [distinct l]: no string occurs twice in [l]. *)
Fixpoint distinct (l : list string) : bool :=
  match l with
  | [] => true
  | x :: rest => negb (existsb (String.eqb x) rest) && distinct rest
  end.

(** A field as the registry declares them: one of the eight types, no
    bound, enumeration or pattern, no length on a variable field and a
    length on a BCD field. *)
Definition regular (f : FieldSchema) : bool :=
  match type f with other_type _ => false | _ => true end
  && match min f, max f, enum f, pattern f with
     | None, None, None, None => true
     | _, _, _, _ => false
     end
  && (if variable f then (length f =? 0)%nat else true)
  && match type f with bcd => (0 <? length f)%nat | _ => true end.

Definition regular_structure (fs : list FieldSchema) : bool :=
  forallb regular fs && distinct (map name fs).

(** The text of every BCD field of the data has two characters a byte. *)
Definition bcd_complete (fs : list FieldSchema) (data : gmap string Value) : Prop :=
  forall f, f ∈ fs -> type f = bcd ->
    exists s, data !! name f = Some (VString s) /\ String.length s = 2 * length f.

(** What [deserializeField] returns for a field, by the type of the field. *)
Definition decoded_shape (f : FieldSchema) (v : Value) : Prop :=
  match type f with
  | uint8 => exists z, v = VNumber z /\ (0 <= z <= 255)%Z
  | uint16 => exists z, v = VNumber z /\ (0 <= z <= 65535)%Z
  | uint32 => exists z, v = VNumber z /\ (0 <= z <= 4294967295)%Z
  | string_ =>
      exists s, v = VString s /\ (variable f = false -> String.length s <= length f)
  | bcd =>
      exists s, v = VString s
                /\ (0 < length f -> MessageValidator.all_digits s = true)
  | bytes => exists b, v = VBuffer b
  | location => exists l, v = VLocation l
  | array => exists items, v = VArray items
  | other_type _ => False
  end.

End ValidationSpec.

Module ExtensionSpec.

(** A parser method that does not look past the bytes it consumes: where it
    succeeds, it succeeds with the same value and the same cursor on every
    buffer that continues the first one. *)
Definition ignores_rest {A} (m : BufferParser.M A) : Prop :=
  forall b o v p' extra,
    m (BufferParser.mk b o) = Ok (v, p') ->
    BufferParser.buffer p' = b
    /\ m (BufferParser.mk (b ++ extra) o)
       = Ok (v, BufferParser.mk (b ++ extra) (BufferParser.offset p')).

End ExtensionSpec.

(** ** Sample inputs *)

Module Samples.





(** Two location records and a batch report that carries both. *)
Definition location_a : Location.t :=
  Location.mk 1 3 39904200 116407400 100 605 90 "231222143000".

Definition location_b : Location.t :=
  Location.mk 0 3 39904300 116407500 101 610 91 "231222143010".

Definition batch_of_two : gmap string Value :=
  <["dataType" := VNumber 0]>
    (<["itemCount" := VNumber 2]>
       (<["locationItems" := VArray [ItemLocation location_a; ItemLocation location_b]]> ∅)).

(** A batch report that carries no record. *)
Definition batch_of_none : gmap string Value :=
  <["dataType" := VNumber 0]>
    (<["itemCount" := VNumber 0]> (<["locationItems" := VArray []]> ∅)).

Definition general_response : Schema.MessageStructure :=
  Schema.mkStructure "Platform General Response" Schema.down
    [ Schema.scalar "sequenceNumber" Schema.uint16;
      Schema.scalar "messageId" Schema.uint16;
      Schema.scalar "result" Schema.uint8 ].

(** The data of a general response that acknowledges message 0x0100 with
    sequence number 7. *)
Definition acknowledgement : gmap string Value :=
  <["sequenceNumber" := VNumber 7]>
    (<["messageId" := VNumber 0x0100]>
       (<["result" := VNumber 0]> ∅)).

(** 8188 zero bytes: with four more bytes in front, a body of 8192 bytes. *)
Definition long_tail : Buffer := replicate (Z.to_nat 8188) (mkbyte 0).

(** The structure of the location report, and a report of [location_a]
    without additional information. *)
Definition location_report : Schema.MessageStructure :=
  Schema.mkStructure "Location Information Report" Schema.up
    [ Schema.scalar "alarmFlag" Schema.uint32;
      Schema.scalar "statusFlag" Schema.uint32;
      Schema.scalar "latitude" Schema.uint32;
      Schema.scalar "longitude" Schema.uint32;
      Schema.scalar "altitude" Schema.uint16;
      Schema.scalar "speed" Schema.uint16;
      Schema.scalar "direction" Schema.uint16;
      Schema.fixed "timestamp" Schema.bcd 6;
      Schema.var "additionalInfo" Schema.bytes ].

Definition location_report_data : gmap string Value :=
  <["alarmFlag" := VNumber 1]>
    (<["statusFlag" := VNumber 3]>
       (<["latitude" := VNumber 39904200]>
          (<["longitude" := VNumber 116407400]>
             (<["altitude" := VNumber 100]>
                (<["speed" := VNumber 605]>
                   (<["direction" := VNumber 90]>
                      (<["timestamp" := VString "231222143000"]>
                         (<["additionalInfo" := VBuffer []]> ∅)))))))).

End Samples.

(** * Properties *)

(** ** Bytes *)

Section Bytes.

Lemma byteval_range (b : byte) : (0 <= byteval b < 256)%Z.
Proof.
  unfold byteval. pose proof (Byte.to_N_bounded b). lia.
Qed.

Lemma mkbyte_byteval (b : byte) : mkbyte (byteval b) = b.
Proof.
  unfold mkbyte. pose proof (byteval_range b) as Hr.
  rewrite Z.mod_small by lia. unfold byteval.
  rewrite N2Z.id, Byte.of_to_N. reflexivity.
Qed.

Lemma byteval_mkbyte (z : Z) : byteval (mkbyte z) = (z mod 256)%Z.
Proof.
  unfold mkbyte, byteval.
  pose proof (Z.mod_pos_bound z 256 ltac:(lia)) as Hr.
  destruct (Byte.of_N (Z.to_N (z mod 256))) as [b|] eqn:E.
  - apply Byte.to_of_N in E. rewrite E. lia.
  - apply Byte.of_N_None_iff in E. lia.
Qed.

Lemma byteval_mkbyte_small (z : Z) : (0 <= z < 256)%Z -> byteval (mkbyte z) = z.
Proof. intros H. rewrite byteval_mkbyte. apply Z.mod_small; lia. Qed.

Lemma byteval_inj (a b : byte) : byteval a = byteval b -> a = b.
Proof.
  intros H. rewrite <- (mkbyte_byteval a), <- (mkbyte_byteval b). now rewrite H.
Qed.

Lemma byte_eqb_eq (a b : byte) : Byte.eqb a b = true <-> a = b.
Proof.
  split; [apply Byte.byte_dec_bl | apply Byte.byte_dec_lb].
Qed.

Lemma byte_eqb_neq (a b : byte) : Byte.eqb a b = false <-> a <> b.
Proof.
  split.
  - apply Byte.eqb_false.
  - intros H. destruct (Byte.eqb a b) eqn:E; [|reflexivity].
    apply byte_eqb_eq in E. contradiction.
Qed.

Lemma byteval_flag : byteval flag = 0x7E%Z.
Proof. reflexivity. Qed.

(** Numbers below [2 ^ n] are closed under exclusive or. *)
Lemma lxor_below (n a b : Z) :
  (0 <= n)%Z -> (0 <= a < 2 ^ n)%Z -> (0 <= b < 2 ^ n)%Z ->
  (0 <= Z.lxor a b < 2 ^ n)%Z.
Proof.
  intros Hn Ha Hb. split.
  - apply Z.lxor_nonneg. lia.
  - destruct (Z.eq_dec (Z.lxor a b) 0%Z) as [->|Hne]; [lia|].
    assert (0 < Z.lxor a b)%Z as Hpos
      by (pose proof (proj2 (Z.lxor_nonneg a b)); lia).
    apply Z.log2_lt_pow2; [exact Hpos|].
    pose proof (Z.log2_lxor a b ltac:(lia) ltac:(lia)) as Hl.
    assert (0 < n)%Z as Hn'.
    { destruct (Z.eq_dec n 0%Z) as [->|]; [|lia].
      change (2 ^ 0)%Z with 1%Z in *.
      exfalso. apply Hne.
      replace a with 0%Z by lia. replace b with 0%Z by lia. reflexivity. }
    assert (Z.log2 a < n)%Z.
    { destruct (Z.eq_dec a 0%Z) as [->|]; [simpl; lia|].
      apply Z.log2_lt_pow2; lia. }
    assert (Z.log2 b < n)%Z.
    { destruct (Z.eq_dec b 0%Z) as [->|]; [simpl; lia|].
      apply Z.log2_lt_pow2; lia. }
    lia.
Qed.

End Bytes.

(** ** Frame codec *)

Section Frames.
Import Checksum.

Lemma bufget_middle (pre post : Buffer) (x : byte) :
  bufget (pre ++ x :: post) (Z.of_nat (length pre)) = Some (byteval x).
Proof.
  unfold bufget.
  destruct (Z.ltb_spec (Z.of_nat (length pre)) 0) as [H|_]; [lia|].
  rewrite Nat2Z.id, list_lookup_middle by reflexivity. reflexivity.
Qed.

Lemma checksum_range_fold (pre l : Buffer) (acc : Z) :
  fold_left
    (fun checksum i => Z.lxor checksum (toInt32 (bufget (pre ++ l) (Z.of_nat i))))
    (seq (length pre) (length l)) acc
  = fold_left (fun checksum b => Z.lxor checksum (byteval b)) l acc.
Proof.
  revert pre acc. induction l as [|x l IH]; intros pre acc; [reflexivity|].
  cbn [length seq fold_left]. rewrite bufget_middle. cbn [toInt32 default].
  specialize (IH (pre ++ [x]) (Z.lxor acc (byteval x))).
  rewrite <- app_assoc, length_app in IH. cbn [length app] in IH.
  rewrite Nat.add_1_r in IH. exact IH.
Qed.

(** The loop of [calculateChecksum] is the exclusive or of all the bytes. *)
Lemma calculateChecksum_xor (b : Buffer) :
  calculateChecksum b = fold_left (fun checksum x => Z.lxor checksum (byteval x)) b 0%Z.
Proof.
  unfold calculateChecksum, calculateChecksum_range.
  rewrite Z.sub_0_r, Nat2Z.id. exact (checksum_range_fold [] b 0%Z).
Qed.

Lemma xor_fold_range (b : Buffer) (acc : Z) :
  (0 <= acc < 256)%Z ->
  (0 <= fold_left (fun checksum x => Z.lxor checksum (byteval x)) b acc < 256)%Z.
Proof.
  revert acc. induction b as [|x b IH]; intros acc Hacc; [exact Hacc|].
  cbn [fold_left]. apply IH.
  apply (lxor_below 8); [lia|exact Hacc|apply byteval_range].
Qed.

Lemma calculateChecksum_byte (b : Buffer) : (0 <= calculateChecksum b < 256)%Z.
Proof. rewrite calculateChecksum_xor. apply xor_fold_range. lia. Qed.

Lemma indexOf_from_notin (l : Buffer) (v : byte) (i : Z) :
  v ∉ l -> indexOf_from l v i = (-1)%Z.
Proof.
  revert i. induction l as [|b l IH]; intros i Hn; [reflexivity|].
  apply not_elem_of_cons in Hn as [Hne Hn]. cbn [indexOf_from].
  rewrite (proj2 (byte_eqb_neq b v)) by congruence. apply IH, Hn.
Qed.

Lemma indexOf_from_first (pre rest : Buffer) (v : byte) (i : Z) :
  v ∉ pre -> indexOf_from (pre ++ v :: rest) v i = (i + Z.of_nat (length pre))%Z.
Proof.
  revert i. induction pre as [|b pre IH]; intros i Hn; cbn [app indexOf_from length].
  - rewrite (proj2 (byte_eqb_eq v v)) by reflexivity. lia.
  - apply not_elem_of_cons in Hn as [Hne Hn].
    rewrite (proj2 (byte_eqb_neq b v)) by congruence. rewrite IH by exact Hn. lia.
Qed.

Lemma indexOf_first (pre rest : Buffer) (v : byte) :
  v ∉ pre -> indexOf (pre ++ v :: rest) v = Z.of_nat (length pre).
Proof. intros H. unfold indexOf. rewrite indexOf_from_first by exact H. lia. Qed.

Lemma indexOf_notin (l : Buffer) (v : byte) : v ∉ l -> indexOf l v = (-1)%Z.
Proof. apply indexOf_from_notin. Qed.

Lemma not_elem_of_rev (l : Buffer) (v : byte) : v ∉ l -> v ∉ rev l.
Proof.
  intros H Hin. apply H. apply list_elem_of_In. apply in_rev.
  apply list_elem_of_In. exact Hin.
Qed.

Lemma lastIndexOf_last (l post : Buffer) (v : byte) :
  v ∉ post -> lastIndexOf (l ++ v :: post) v = Z.of_nat (length l).
Proof.
  intros H. unfold lastIndexOf.
  rewrite rev_app_distr. cbn [rev]. rewrite <- app_assoc. cbn [app].
  rewrite indexOf_first by (apply not_elem_of_rev, H).
  rewrite length_rev, length_app. cbn [length].
  destruct (Z.ltb_spec (Z.of_nat (length post)) 0); lia.
Qed.

Lemma lastIndexOf_notin (l : Buffer) (v : byte) : v ∉ l -> lastIndexOf l v = (-1)%Z.
Proof.
  intros H. unfold lastIndexOf.
  rewrite indexOf_notin by (apply not_elem_of_rev, H). reflexivity.
Qed.

Lemma slice_middle (a b c : Buffer) :
  slice (a ++ b ++ c) (Z.of_nat (length a)) (Z.of_nat (length a + length b)) = b.
Proof.
  unfold slice, clampIndex. rewrite !length_app.
  destruct (Z.ltb_spec (Z.of_nat (length a)) 0) as [?|_]; [lia|].
  destruct (Z.ltb_spec (Z.of_nat (length a + length b)) 0) as [?|_]; [lia|].
  rewrite !Z.min_l by lia.
  replace (Z.to_nat (Z.of_nat (length a + length b) - Z.of_nat (length a)))
    with (length b) by lia.
  rewrite Nat2Z.id, drop_app_length, take_app_length. reflexivity.
Qed.

Lemma slice_empty (buf : Buffer) (s e : Z) :
  (0 <= e <= s)%Z -> slice buf s e = [].
Proof.
  intros H. unfold slice, clampIndex.
  destruct (Z.ltb_spec s 0) as [?|_]; [lia|].
  destruct (Z.ltb_spec e 0) as [?|_]; [lia|].
  replace (Z.to_nat _) with 0 by lia. reflexivity.
Qed.

(** A frame whose first and last delimiters enclose [body ++ [cs]]. *)
Lemma unwrap_framed (pre body post : Buffer) (cs : byte) :
  flag ∉ pre -> flag ∉ post ->
  unwrapMessage (pre ++ flag :: body ++ cs :: flag :: post)
  = mkUnwrapped (Some body) (calculateChecksum body =? byteval cs)%Z None.
Proof.
  intros Hpre Hpost.
  set (f := pre ++ flag :: body ++ cs :: flag :: post).
  assert (indexOf f flag = Z.of_nat (length pre)) as Hs
    by (apply indexOf_first, Hpre).
  assert (lastIndexOf f flag = Z.of_nat (length pre + 1 + length body + 1)) as He.
  { subst f.
    replace (pre ++ flag :: body ++ cs :: flag :: post)
      with ((pre ++ flag :: body ++ [cs]) ++ flag :: post)
      by (rewrite <- !app_assoc; cbn [app]; rewrite <- app_assoc; reflexivity).
    rewrite lastIndexOf_last by exact Hpost.
    rewrite length_app. cbn [length]. rewrite length_app. cbn [length].
    f_equal. lia. }
  assert (slice f (Z.of_nat (length pre) + 1) (Z.of_nat (length pre + 1 + length body + 1) - 1)
          = body) as Hslice.
  { subst f.
    replace (pre ++ flag :: body ++ cs :: flag :: post)
      with ((pre ++ [flag]) ++ body ++ cs :: flag :: post)
      by (rewrite <- app_assoc; reflexivity).
    replace (Z.of_nat (length pre) + 1)%Z with (Z.of_nat (length (pre ++ [flag])))
      by (rewrite length_app; cbn [length]; lia).
    replace (Z.of_nat (length pre + 1 + length body + 1) - 1)%Z
      with (Z.of_nat (length (pre ++ [flag]) + length body))
      by (rewrite length_app; cbn [length]; lia).
    apply slice_middle. }
  assert (bufget f (Z.of_nat (length pre + 1 + length body + 1) - 1) = Some (byteval cs))
    as Hget.
  { subst f.
    replace (pre ++ flag :: body ++ cs :: flag :: post)
      with ((pre ++ flag :: body) ++ cs :: flag :: post)
      by (rewrite <- app_assoc; reflexivity).
    replace (Z.of_nat (length pre + 1 + length body + 1) - 1)%Z
      with (Z.of_nat (length (pre ++ flag :: body)))
      by (rewrite length_app; cbn [length]; lia).
    apply bufget_middle. }
  assert ((length f <? 3)%nat = false) as Hlen.
  { apply Nat.ltb_ge. subst f. rewrite length_app. cbn [length].
    rewrite length_app. cbn [length]. lia. }
  unfold unwrapMessage, validateMessageChecksum.
  rewrite Hs, He, Hlen.
  assert ((Z.of_nat (length pre) =? -1)%Z = false) as -> by (apply Z.eqb_neq; lia).
  assert ((Z.of_nat (length pre + 1 + length body + 1) =? -1)%Z = false) as ->
    by (apply Z.eqb_neq; lia).
  assert ((Z.of_nat (length pre) =? Z.of_nat (length pre + 1 + length body + 1))%Z = false)
    as -> by (apply Z.eqb_neq; lia).
  cbn [orb]. rewrite Hslice, Hget. reflexivity.
Qed.

(** A frame whose first and last delimiters are adjacent. *)
Lemma unwrap_adjacent (pre post : Buffer) :
  flag ∉ pre -> flag ∉ post ->
  unwrapMessage (pre ++ flag :: flag :: post) = mkUnwrapped (Some []) false None.
Proof.
  intros Hpre Hpost.
  set (f := pre ++ flag :: flag :: post).
  assert (indexOf f flag = Z.of_nat (length pre)) as Hs
    by (apply indexOf_first, Hpre).
  assert (lastIndexOf f flag = Z.of_nat (length pre + 1)) as He.
  { subst f.
    replace (pre ++ flag :: flag :: post) with ((pre ++ [flag]) ++ flag :: post)
      by (rewrite <- app_assoc; reflexivity).
    rewrite lastIndexOf_last by exact Hpost.
    rewrite length_app. reflexivity. }
  assert (bufget f (Z.of_nat (length pre + 1) - 1) = Some (byteval flag)) as Hget.
  { subst f. replace (Z.of_nat (length pre + 1) - 1)%Z with (Z.of_nat (length pre)) by lia.
    apply bufget_middle. }
  unfold unwrapMessage, validateMessageChecksum.
  rewrite Hs, He.
  assert ((Z.of_nat (length pre) =? -1)%Z = false) as -> by (apply Z.eqb_neq; lia).
  assert ((Z.of_nat (length pre + 1) =? -1)%Z = false) as -> by (apply Z.eqb_neq; lia).
  assert ((Z.of_nat (length pre) =? Z.of_nat (length pre + 1))%Z = false) as ->
    by (apply Z.eqb_neq; lia).
  cbn [orb]. rewrite Hget.
  rewrite slice_empty by lia.
  destruct (length f <? 3)%nat; reflexivity.
Qed.

Lemma unwrap_no_delimiter (f : Buffer) :
  flag ∉ f -> unwrapMessage f = mkUnwrapped None false (Some "Invalid message format").
Proof.
  intros H. unfold unwrapMessage. rewrite indexOf_notin by exact H. reflexivity.
Qed.

Lemma unwrap_one_delimiter (pre post : Buffer) :
  flag ∉ pre -> flag ∉ post ->
  unwrapMessage (pre ++ flag :: post)
  = mkUnwrapped None false (Some "Invalid message format").
Proof.
  intros Hpre Hpost. unfold unwrapMessage.
  rewrite indexOf_first by exact Hpre. rewrite lastIndexOf_last by exact Hpost.
  rewrite Z.eqb_refl, !orb_true_r. reflexivity.
Qed.

End Frames.

Section FrameClaims.
Import Checksum FrameSpec.

#[local] Instance byte_eq_decision : EqDecision byte := Byte.byte_eq_dec.

Lemma set_trailer_slot (b : Buffer) (x y : byte) (k : nat) (v : Z) :
  k < 2 ->
  bufset (flag :: b ++ [x; y]) (Z.of_nat (length (flag :: b ++ [x; y])) - 2 + Z.of_nat k) v
  = flag :: b ++ (if (k =? 0)%nat then [mkbyte v; y] else [x; mkbyte v]).
Proof.
  intros Hk. unfold bufset. cbn [length]. rewrite length_app. cbn [length].
  destruct (Z.ltb_spec (Z.of_nat (S (length b + 2)) - 2 + Z.of_nat k) 0) as [?|_]; [lia|].
  replace (Z.to_nat (Z.of_nat (S (length b + 2)) - 2 + Z.of_nat k))
    with (S (length b + k)) by lia.
  change (flag :: b ++ [x; y]) with ((flag :: b) ++ [x; y]).
  rewrite insert_app_r_alt by (cbn [length]; lia).
  replace (S (length b + k) - length (flag :: b)) with k by (cbn [length]; lia).
  destruct k as [|[|k]]; [reflexivity|reflexivity|lia].
Qed.

(** The buffer that [wrapMessage] builds by allocation and stores. *)
Lemma wrapMessage_eq (b : Buffer) :
  wrapMessage b = flag :: b ++ [mkbyte (calculateChecksum b); flag].
Proof.
  unfold wrapMessage.
  assert (copy b (bufset (alloc (length b + 3)) 0 126) 1
          = flag :: b ++ [mkbyte 0; mkbyte 0]) as ->.
  { unfold alloc, bufset, copy.
    replace (length b + 3) with (S (length b + 2)) by lia.
    rewrite replicate_S.
    change (if (0 <? 0)%Z then _ else _)
      with (flag :: replicate (length b + 2) (mkbyte 0)).
    cbn [length]. rewrite length_replicate.
    replace (S (length b + 2) - 1) with (length b + 2) by lia.
    rewrite Nat.min_l by lia. rewrite firstn_all.
    change (take 1 (flag :: replicate (length b + 2) (mkbyte 0))) with [flag].
    change (drop (1 + length b) (flag :: replicate (length b + 2) (mkbyte 0)))
      with (drop (length b) (replicate (length b + 2) (mkbyte 0))).
    rewrite drop_replicate.
    replace (length b + 2 - length b) with 2 by lia. reflexivity. }
  pose proof (set_trailer_slot b (mkbyte 0) (mkbyte 0) 0 (calculateChecksum b)) as H0.
  rewrite Z.add_0_r in H0. rewrite H0 by lia. cbn [Nat.eqb].
  pose proof (set_trailer_slot b (mkbyte (calculateChecksum b)) (mkbyte 0) 1 126) as H1.
  replace (Z.of_nat (length (flag :: b ++ [mkbyte (calculateChecksum b); mkbyte 0])) - 1)%Z
    with (Z.of_nat (length (flag :: b ++ [mkbyte (calculateChecksum b); mkbyte 0])) - 2
          + Z.of_nat 1)%Z by lia.
  rewrite H1 by lia. reflexivity.
Qed.

(** Wrapping then unwrapping returns the body, whatever bytes it holds: the
    delimiters of the frame are always its first and last byte. *)
Lemma unwrap_wrap (b : Buffer) :
  unwrapMessage (wrapMessage b) = mkUnwrapped (Some b) true None.
Proof.
  rewrite wrapMessage_eq.
  pose proof (unwrap_framed [] b [] (mkbyte (calculateChecksum b))
                (not_elem_of_nil flag) (not_elem_of_nil flag)) as H.
  cbn [app] in H. rewrite H.
  rewrite byteval_mkbyte_small by apply calculateChecksum_byte.
  rewrite Z.eqb_refl. reflexivity.
Qed.

(** Every frame has no delimiter, one delimiter, or a first and a last one. *)
Lemma frame_cases (f : Buffer) :
  flag ∉ f
  \/ (exists pre post, f = pre ++ flag :: post /\ (flag ∉ pre) /\ (flag ∉ post))
  \/ (exists pre mid post,
        f = pre ++ flag :: mid ++ flag :: post /\ (flag ∉ pre) /\ (flag ∉ post)).
Proof.
  destruct (decide (flag ∈ f)) as [Hin|Hn]; [|left; exact Hn].
  right. apply list_elem_of_split_l in Hin as (pre & rest & -> & Hpre).
  destruct (decide (flag ∈ rest)) as [Hin|Hn].
  - right. apply list_elem_of_split_r in Hin as (mid & post & -> & Hpost).
    exists pre, mid, post. auto.
  - left. exists pre, rest. auto.
Qed.

Lemma delimiters_notin (f : Buffer) : flag ∉ f -> delimiters f = 0.
Proof.
  intros H. apply count_occ_not_In. intros Hin. apply H, list_elem_of_In, Hin.
Qed.

Lemma delimiters_app (f g : Buffer) : delimiters (f ++ g) = delimiters f + delimiters g.
Proof. apply count_occ_app. Qed.

Lemma delimiters_flag (f : Buffer) : delimiters (flag :: f) = S (delimiters f).
Proof. apply count_occ_cons_eq. reflexivity. Qed.

Lemma lxor_flip_neq (c : Z) (k : nat) : Z.lxor c (2 ^ Z.of_nat k) <> c.
Proof.
  intros H.
  assert (Z.lxor c (Z.lxor c (2 ^ Z.of_nat k)) = Z.lxor c c) as E by (now rewrite H).
  rewrite <- Z.lxor_assoc, Z.lxor_nilpotent, Z.lxor_0_l in E.
  pose proof (Z.pow_pos_nonneg 2 (Z.of_nat k) ltac:(lia) ltac:(lia)). lia.
Qed.

(** C3 (amended). [unwrapMessage] rejects a frame as malformed exactly when
    the frame holds fewer than two delimiter bytes (none, or the first and the
    last coincide); the length of the frame plays no part in that.  A frame
    with two delimiters yields the bytes strictly between the first and the
    last delimiter without the trailing checksum byte, and [isValid] tells
    whether the exclusive or of these bytes equals the byte before the
    last delimiter; the body is returned in both cases.  When the two
    delimiters are adjacent the body is empty and [isValid] is false. *)
Theorem unwrapMessage_cases (frame : Buffer) :
  (unwrapMessage frame = malformed <-> delimiters frame < 2)
  /\ (forall pre body cs post,
        frame = pre ++ flag :: body ++ cs :: flag :: post ->
        flag ∉ pre -> flag ∉ post ->
        unwrapMessage frame
        = mkUnwrapped (Some body)
            (fold_left (fun x b => Z.lxor x (byteval b)) body 0 =? byteval cs)%Z None)
  /\ (forall pre post,
        frame = pre ++ flag :: flag :: post ->
        flag ∉ pre -> flag ∉ post ->
        unwrapMessage frame = mkUnwrapped (Some []) false None)
  /\ (2 <= delimiters frame ->
      (exists pre body cs post,
          frame = pre ++ flag :: body ++ cs :: flag :: post
          /\ (flag ∉ pre) /\ (flag ∉ post))
      \/ (exists pre post,
          frame = pre ++ flag :: flag :: post /\ (flag ∉ pre) /\ (flag ∉ post))).
Proof.
  split; [|split; [|split]].
  - destruct (frame_cases frame)
      as [Hn | [(pre & post & -> & Hpre & Hpost)
               | (pre & mid & post & -> & Hpre & Hpost)]].
    + rewrite unwrap_no_delimiter, delimiters_notin by exact Hn.
      split; [lia | reflexivity].
    + rewrite unwrap_one_delimiter by assumption.
      rewrite delimiters_app, delimiters_flag, !delimiters_notin by assumption.
      split; [lia | reflexivity].
    + assert (2 <= delimiters (pre ++ flag :: mid ++ flag :: post)) as Hd.
      { rewrite delimiters_app, delimiters_flag, delimiters_app, delimiters_flag. lia. }
      split; [|lia]. intros Hm. exfalso.
      destruct mid as [|m mid _] using rev_ind.
      * cbn [app] in Hm. rewrite unwrap_adjacent in Hm by assumption. discriminate.
      * rewrite <- app_assoc in Hm. cbn [app] in Hm.
        rewrite unwrap_framed in Hm by assumption. discriminate.
  - intros pre body cs post -> Hpre Hpost.
    rewrite unwrap_framed by assumption. rewrite calculateChecksum_xor. reflexivity.
  - intros pre post -> Hpre Hpost. apply unwrap_adjacent; assumption.
  - intros Hd.
    destruct (frame_cases frame)
      as [Hn | [(pre & post & -> & Hpre & Hpost)
               | (pre & mid & post & -> & Hpre & Hpost)]].
    + rewrite delimiters_notin in Hd by exact Hn. lia.
    + rewrite delimiters_app, delimiters_flag, !delimiters_notin in Hd by assumption. lia.
    + destruct mid as [|m mid _] using rev_ind.
      * right. exists pre, post. auto.
      * left. exists pre, mid, m, post.
        rewrite <- app_assoc. cbn [app]. auto.
Qed.

Lemma unwrapMessage_cases_witness :
  unwrapMessage (map mkbyte [0x7E; 1; 2; 3; 4; 4; 0x7E]%Z)
  = mkUnwrapped (Some (map mkbyte [1; 2; 3; 4]%Z)) true None.
Proof.
  apply (proj1 (proj2 (unwrapMessage_cases (map mkbyte [0x7E; 1; 2; 3; 4; 4; 0x7E]%Z)))
           [] (map mkbyte [1; 2; 3; 4]%Z) (mkbyte 4) []).
  - reflexivity.
  - apply not_elem_of_nil.
  - apply not_elem_of_nil.
Defined.

(** C3, as stated, fails on the frame of two delimiter bytes: its length is
    below three, yet [unwrapMessage] does not report a malformed frame; it
    returns an empty body with [isValid] false and no error. *)
Lemma unwrapMessage_short_frame_not_malformed :
  (length [flag; flag] < 3)%nat
  /\ unwrapMessage [flag; flag] = mkUnwrapped (Some []) false None
  /\ unwrapMessage [flag; flag] <> malformed.
Proof.
  split; [cbn; lia|]. split; [reflexivity|]. discriminate.
Qed.

(** C4. For a body without a delimiter byte, the wrapped body is the
    delimiter 0x7E, the body, one byte that holds the exclusive or of the
    bytes of the body, and the delimiter 0x7E; unwrapping this frame returns
    the body and reports the checksum as valid. *)
Theorem unwrap_wrap_roundtrip (b : Buffer) :
  flag ∉ b ->
  wrapMessage b
  = [mkbyte 0x7E] ++ b
    ++ [mkbyte (fold_left (fun x y => Z.lxor x (byteval y)) b 0%Z)]
    ++ [mkbyte 0x7E]
  /\ messageData (unwrapMessage (wrapMessage b)) = Some b
  /\ isValid (unwrapMessage (wrapMessage b)) = true.
Proof.
  intros _. split.
  - rewrite wrapMessage_eq, calculateChecksum_xor. reflexivity.
  - rewrite unwrap_wrap. split; reflexivity.
Qed.

Lemma unwrap_wrap_roundtrip_witness :
  wrapMessage (map mkbyte [1; 2; 3; 4]%Z)
  = map mkbyte [0x7E; 1; 2; 3; 4; 4; 0x7E]%Z
  /\ messageData (unwrapMessage (wrapMessage (map mkbyte [1; 2; 3; 4]%Z)))
     = Some (map mkbyte [1; 2; 3; 4]%Z)
  /\ isValid (unwrapMessage (wrapMessage (map mkbyte [1; 2; 3; 4]%Z))) = true.
Proof.
  apply (unwrap_wrap_roundtrip (map mkbyte [1; 2; 3; 4]%Z)).
  intros H. apply list_elem_of_In in H. vm_compute in H.
  repeat (destruct H as [H|H]; [discriminate H|]). exact H.
Defined.

(** C8. Inverting any one bit of the checksum byte of a wrapped frame, the
    byte before the trailing delimiter, makes [unwrapMessage] report an
    invalid checksum: [isValid] is false, and no format error is raised. *)
Theorem checksum_bit_flip_detected (b : Buffer) (k : nat) :
  k < 8 ->
  let frame := wrapMessage b in
  let corrupted := flip_bit frame (Z.of_nat (length frame) - 2) k in
  isValid (unwrapMessage corrupted) = false
  /\ error (unwrapMessage corrupted) = None
  /\ corrupted <> frame.
Proof.
  intros Hk frame corrupted.
  set (c := calculateChecksum b).
  assert (0 <= c < 256)%Z as Hc by apply calculateChecksum_byte.
  assert (0 <= 2 ^ Z.of_nat k < 2 ^ 8)%Z as Hp.
  { split; [apply Z.pow_nonneg; lia|]. apply Z.pow_lt_mono_r; lia. }
  pose proof (lxor_below 8 c (2 ^ Z.of_nat k) ltac:(lia) Hc Hp) as Hx.
  assert (corrupted = flag :: b ++ [mkbyte (Z.lxor c (2 ^ Z.of_nat k)); flag]) as ->.
  { subst corrupted frame. unfold flip_bit. rewrite wrapMessage_eq. fold c.
    assert (bufget (flag :: b ++ [mkbyte c; flag])
              (Z.of_nat (length (flag :: b ++ [mkbyte c; flag])) - 2)
            = Some c) as ->.
    { change (flag :: b ++ [mkbyte c; flag]) with ((flag :: b) ++ mkbyte c :: [flag]).
      replace (Z.of_nat (length ((flag :: b) ++ mkbyte c :: [flag])) - 2)%Z
        with (Z.of_nat (length (flag :: b)))
        by (rewrite length_app; cbn [length]; lia).
      rewrite bufget_middle, byteval_mkbyte_small by exact Hc. reflexivity. }
    cbn [toInt32 default].
    pose proof (set_trailer_slot b (mkbyte c) flag 0 (Z.lxor c (2 ^ Z.of_nat k))) as H0.
    rewrite Z.add_0_r in H0. exact (H0 ltac:(lia)). }
  pose proof (unwrap_framed [] b [] (mkbyte (Z.lxor c (2 ^ Z.of_nat k)))
                (not_elem_of_nil flag) (not_elem_of_nil flag)) as H.
  cbn [app] in H. rewrite H. cbn [isValid error].
  rewrite byteval_mkbyte_small by exact Hx.
  split; [|split; [reflexivity|]].
  - apply Z.eqb_neq. fold c. intros E. symmetry in E. exact (lxor_flip_neq c k E).
  - subst frame. rewrite wrapMessage_eq. fold c. intros E.
    injection E as E. apply app_inv_head in E. injection E as E.
    apply (f_equal byteval) in E.
    rewrite !byteval_mkbyte_small in E by assumption.
    exact (lxor_flip_neq c k E).
Qed.

Lemma checksum_bit_flip_detected_witness :
  let frame := wrapMessage (map mkbyte [1; 2; 3]%Z) in
  let corrupted := flip_bit frame (Z.of_nat (length frame) - 2) 5 in
  isValid (unwrapMessage corrupted) = false
  /\ error (unwrapMessage corrupted) = None
  /\ corrupted <> frame.
Proof.
  apply (checksum_bit_flip_detected (map mkbyte [1; 2; 3]%Z) 5). lia.
Defined.

End FrameClaims.

(** ** Primitive reads of the buffer parser *)

Section Reads.
Import BufferParser ParserSpec.

Lemma overflows_false (p : t) (n : nat) :
  offset p + n <= length (buffer p) -> overflows p n = false.
Proof. intros H. unfold overflows. apply Z.leb_gt. lia. Qed.

Lemma overflows_true (p : t) (n : nat) :
  length (buffer p) < offset p + n -> overflows p n = true.
Proof. intros H. unfold overflows. apply Z.leb_le. lia. Qed.

Lemma lookup_in_bounds (p : t) (n k : nat) :
  offset p + n <= length (buffer p) -> k < n ->
  exists b, buffer p !! (offset p + k) = Some b.
Proof.
  intros H Hk. apply (lookup_lt_is_Some_2 (buffer p) (offset p + k)). lia.
Qed.

Lemma window_cons (p : t) (n : nat) (b : byte) :
  buffer p !! offset p = Some b ->
  window p (S n) = b :: window (advance p 1) n.
Proof.
  intros H. unfold window, advance. cbn [buffer offset].
  rewrite (drop_S _ _ _ H). cbn [take]. rewrite Nat.add_1_r. reflexivity.
Qed.

Lemma length_window (p : t) (n : nat) :
  offset p + n <= length (buffer p) -> length (window p n) = n.
Proof.
  intros H. unfold window. rewrite length_take, length_drop. lia.
Qed.

Lemma advance_advance (p : t) (n m : nat) : advance (advance p n) m = advance p (n + m).
Proof. unfold advance. cbn [buffer offset]. f_equal. lia. Qed.

Lemma readUInt8_ok (p : t) :
  offset p + 1 <= length (buffer p) ->
  readUInt8 p = Ok (be_value (window p 1), advance p 1).
Proof.
  intros H. unfold readUInt8, node_readUInt8.
  destruct (Nat.leb_spec (length (buffer p)) (offset p)) as [?|_]; [lia|].
  destruct (lookup_in_bounds p 1 0 H ltac:(lia)) as [b Hb].
  rewrite Nat.add_0_r in Hb. rewrite Hb, (window_cons p 0 b Hb).
  unfold be_value, window. cbn [take fold_left]. reflexivity.
Qed.

Lemma readUInt8_overflow (p : t) :
  length (buffer p) < offset p + 1 -> readUInt8 p = Throw (overflow "" p).
Proof.
  intros H. unfold readUInt8.
  destruct (Nat.leb_spec (length (buffer p)) (offset p)) as [_|?]; [reflexivity|lia].
Qed.

Lemma readUInt16BE_ok (p : t) :
  offset p + 2 <= length (buffer p) ->
  readUInt16BE p = Ok (be_value (window p 2), advance p 2).
Proof.
  intros H. unfold readUInt16BE, node_readUInt16BE.
  destruct (Nat.leb_spec (length (buffer p)) (offset p + 1)) as [?|_]; [lia|].
  destruct (lookup_in_bounds p 2 0 H ltac:(lia)) as [b0 Hb0].
  destruct (lookup_in_bounds p 2 1 H ltac:(lia)) as [b1 Hb1].
  rewrite Nat.add_0_r in Hb0. rewrite Hb0, Hb1.
  rewrite (window_cons p 1 b0 Hb0).
  rewrite (window_cons (advance p 1) 0 b1) by exact Hb1.
  unfold be_value, window. cbn [take fold_left]. reflexivity.
Qed.

Lemma readUInt16BE_overflow (p : t) :
  length (buffer p) < offset p + 2 -> readUInt16BE p = Throw (overflow "" p).
Proof.
  intros H. unfold readUInt16BE.
  destruct (Nat.leb_spec (length (buffer p)) (offset p + 1)) as [_|?]; [reflexivity|lia].
Qed.

Lemma readUInt32BE_ok (p : t) :
  offset p + 4 <= length (buffer p) ->
  readUInt32BE p = Ok (be_value (window p 4), advance p 4).
Proof.
  intros H. unfold readUInt32BE, node_readUInt32BE.
  destruct (Nat.leb_spec (length (buffer p)) (offset p + 3)) as [?|_]; [lia|].
  destruct (lookup_in_bounds p 4 0 H ltac:(lia)) as [b0 Hb0].
  destruct (lookup_in_bounds p 4 1 H ltac:(lia)) as [b1 Hb1].
  destruct (lookup_in_bounds p 4 2 H ltac:(lia)) as [b2 Hb2].
  destruct (lookup_in_bounds p 4 3 H ltac:(lia)) as [b3 Hb3].
  rewrite Nat.add_0_r in Hb0. rewrite Hb0, Hb1, Hb2, Hb3.
  rewrite (window_cons p 3 b0 Hb0).
  rewrite (window_cons (advance p 1) 2 b1) by exact Hb1.
  rewrite (window_cons (advance (advance p 1) 1) 1 b2)
    by (cbn [advance buffer offset]; rewrite <- Nat.add_assoc; exact Hb2).
  rewrite (window_cons (advance (advance (advance p 1) 1) 1) 0 b3)
    by (cbn [advance buffer offset]; rewrite <- !Nat.add_assoc; exact Hb3).
  unfold be_value, window. rewrite take_0. cbn [fold_left]. unfold advance.
  f_equal. f_equal.
  change (2 ^ 24)%Z with 16777216%Z. change (2 ^ 16)%Z with 65536%Z.
  change (2 ^ 8)%Z with 256%Z. lia.
Qed.

Lemma readUInt32BE_overflow (p : t) :
  length (buffer p) < offset p + 4 -> readUInt32BE p = Throw (overflow "" p).
Proof.
  intros H. unfold readUInt32BE.
  destruct (Nat.leb_spec (length (buffer p)) (offset p + 3)) as [_|?]; [reflexivity|lia].
Qed.

End Reads.

(** ** Strings *)

Section Strings.

Lemma append_cons (x : ascii) (a b : string) : String x a +:+ b = String x (a +:+ b).
Proof. reflexivity. Qed.

Lemma append_nil_l (a : string) : "" +:+ a = a.
Proof. reflexivity. Qed.

Lemma append_assoc (a b c : string) : (a +:+ b) +:+ c = a +:+ (b +:+ c).
Proof.
  induction a as [|x a IH]; [reflexivity|]. rewrite !append_cons. now rewrite IH.
Qed.

Lemma append_nil_r (a : string) : a +:+ "" = a.
Proof.
  induction a as [|x a IH]; [reflexivity|]. rewrite append_cons. now rewrite IH.
Qed.

Lemma length_append (a b : string) :
  String.length (a +:+ b) = String.length a + String.length b.
Proof.
  induction a as [|x a IH]; [reflexivity|]. rewrite append_cons. cbn. now rewrite IH.
Qed.

Lemma chars_append (a b : string) :
  list_ascii_of_string (a +:+ b) = list_ascii_of_string a ++ list_ascii_of_string b.
Proof.
  induction a as [|x a IH]; [reflexivity|]. rewrite append_cons. cbn. now rewrite IH.
Qed.

Lemma length_chars (a : string) : length (list_ascii_of_string a) = String.length a.
Proof. induction a as [|x a IH]; cbn; [reflexivity | now rewrite IH]. Qed.

Lemma get_chars (a : string) (i : nat) : String.get i a = list_ascii_of_string a !! i.
Proof.
  revert i. induction a as [|x a IH]; intros [|i]; cbn; try reflexivity. apply IH.
Qed.

Lemma chars_repeat_string (c : ascii) (n : nat) :
  list_ascii_of_string (repeat_string (String c "") n) = replicate n c.
Proof.
  induction n as [|n IH]; [reflexivity|]. cbn [repeat_string replicate].
  rewrite append_cons, append_nil_l. cbn. now rewrite IH.
Qed.

End Strings.

(** ** The BCD, ASCII and byte reads *)

Section BcdReads.
Import BufferParser ParserSpec.

Lemma nibbles_of_byte (b : byte) :
  Z.land (Z.shiftr (byteval b) 4) 0x0F = high_nibble b
  /\ Z.land (byteval b) 0x0F = low_nibble b.
Proof.
  unfold high_nibble, low_nibble. pose proof (byteval_range b) as Hr.
  change 0x0F%Z with (Z.ones 4). rewrite !Z.land_ones by lia.
  rewrite Z.shiftr_div_pow2 by lia. change (2 ^ 4)%Z with 16%Z.
  split; [|reflexivity]. apply Z.mod_small.
  split; [apply Z.div_pos; lia | apply Z.div_lt_upper_bound; lia].
Qed.

Lemma nibble_bounds (b : byte) :
  (0 <= high_nibble b <= 15)%Z /\ (0 <= low_nibble b <= 15)%Z.
Proof.
  unfold high_nibble, low_nibble. pose proof (byteval_range b) as Hr.
  pose proof (Z.mod_pos_bound (byteval b) 16 ltac:(lia)).
  assert (0 <= byteval b / 16)%Z by (apply Z.div_pos; lia).
  assert (byteval b / 16 < 16)%Z by (apply Z.div_lt_upper_bound; lia).
  lia.
Qed.

Lemma bcd_step_ok (p : t) (result : string) (i : nat) (b : byte) :
  buffer p !! (offset p + i) = Some b ->
  bcd_step p result i = Ok (result +:+ bcd_pair b).
Proof.
  intros H. unfold bcd_step, node_readUInt8. rewrite H.
  destruct (nibbles_of_byte b) as [-> ->]. reflexivity.
Qed.

Lemma bcd_loop_ok (p : t) (count i : nat) (result : string) :
  offset p + i + count <= length (buffer p) ->
  bcd_loop p i count result
  = Ok (result +:+ bcd_text (take count (drop (offset p + i) (buffer p)))).
Proof.
  revert i result. induction count as [|count IH]; intros i result H.
  - cbn [bcd_loop]. rewrite take_0. cbn [bcd_text]. now rewrite append_nil_r.
  - cbn [bcd_loop].
    destruct (lookup_lt_is_Some_2 (buffer p) (offset p + i) ltac:(lia)) as [b Hb].
    rewrite (bcd_step_ok p result i b Hb).
    rewrite IH by lia.
    rewrite (drop_S _ _ _ Hb), firstn_cons. cbn [bcd_text].
    rewrite append_assoc. replace (offset p + S i) with (S (offset p + i)) by lia.
    reflexivity.
Qed.

(** [readBCD] on a cursor with [n] bytes left: the text of the [n] bytes,
    and the cursor [n] bytes on. *)
Lemma readBCD_ok (p : t) (n : nat) :
  offset p + n <= length (buffer p) ->
  readBCD n p = Ok (bcd_text (window p n), advance p n).
Proof.
  intros H. unfold readBCD. rewrite overflows_false by exact H.
  rewrite bcd_loop_ok by lia. rewrite Nat.add_0_r. reflexivity.
Qed.

Lemma readBCD_overflow (p : t) (n : nat) :
  length (buffer p) < offset p + n -> readBCD n p = Throw (overflow "BCD " p).
Proof. intros H. unfold readBCD. now rewrite overflows_true. Qed.

Lemma slice_window (p : t) (n : nat) :
  offset p + n <= length (buffer p) ->
  slice (buffer p) (Z.of_nat (offset p)) (Z.of_nat (offset p) + Z.of_nat n) = window p n.
Proof.
  intros H. unfold slice, clampIndex, window.
  destruct (Z.ltb_spec (Z.of_nat (offset p)) 0) as [?|_]; [lia|].
  destruct (Z.ltb_spec (Z.of_nat (offset p) + Z.of_nat n) 0) as [?|_]; [lia|].
  rewrite !Z.min_l by lia.
  replace (Z.to_nat (Z.of_nat (offset p) + Z.of_nat n - Z.of_nat (offset p)))
    with n by lia.
  rewrite Nat2Z.id. reflexivity.
Qed.

Lemma readASCII_ok (p : t) (n : nat) :
  offset p + n <= length (buffer p) ->
  readASCII n p = Ok (strip_nul (ascii_decode (window p n)), advance p n).
Proof.
  intros H. unfold readASCII. rewrite overflows_false by exact H.
  rewrite slice_window by exact H. reflexivity.
Qed.

Lemma readASCII_overflow (p : t) (n : nat) :
  length (buffer p) < offset p + n -> readASCII n p = Throw (overflow "ASCII " p).
Proof. intros H. unfold readASCII. now rewrite overflows_true. Qed.

Lemma readBytes_ok (p : t) (n : nat) :
  offset p + n <= length (buffer p) ->
  readBytes n p = Ok (window p n, advance p n).
Proof.
  intros H. unfold readBytes. rewrite overflows_false by exact H.
  rewrite slice_window by exact H. reflexivity.
Qed.

Lemma readBytes_overflow (p : t) (n : nat) :
  length (buffer p) < offset p + n -> readBytes n p = Throw (overflow "bytes " p).
Proof. intros H. unfold readBytes. now rewrite overflows_true. Qed.

Lemma length_toString_nibble (z : Z) :
  (0 <= z <= 15)%Z ->
  String.length (toString z) = if (z <=? 9)%Z then 1 else 2.
Proof.
  intros H.
  assert (z = 0 \/ z = 1 \/ z = 2 \/ z = 3 \/ z = 4 \/ z = 5 \/ z = 6 \/ z = 7
          \/ z = 8 \/ z = 9 \/ z = 10 \/ z = 11 \/ z = 12 \/ z = 13 \/ z = 14
          \/ z = 15)%Z as Hz by lia.
  repeat (destruct Hz as [->|Hz]; [reflexivity|]). subst z. reflexivity.
Qed.

Lemma length_bcd_pair (b : byte) :
  2 <= String.length (bcd_pair b) <= 4
  /\ ((high_nibble b <= 9)%Z -> (low_nibble b <= 9)%Z -> String.length (bcd_pair b) = 2).
Proof.
  unfold bcd_pair. rewrite length_append.
  destruct (nibble_bounds b) as [Hh Hl].
  rewrite !length_toString_nibble by assumption.
  destruct (Z.leb_spec (high_nibble b) 9), (Z.leb_spec (low_nibble b) 9); lia.
Qed.

Lemma length_bcd_text (bytes : Buffer) :
  2 * length bytes <= String.length (bcd_text bytes) <= 4 * length bytes
  /\ (decimal_nibbles bytes -> String.length (bcd_text bytes) = 2 * length bytes).
Proof.
  induction bytes as [|b bytes [IHb IHd]]; [cbn; split; [lia|reflexivity]|].
  cbn [bcd_text length]. rewrite length_append.
  destruct (length_bcd_pair b) as [Hb Hd]. split; [lia|].
  intros Hdec. inversion Hdec as [|? ? [Hh Hl] Hrest]; subst.
  rewrite Hd, IHd by assumption. lia.
Qed.

End BcdReads.

Section BcdClaims.
Import BufferParser ParserSpec.

(** C6 (amended). With at least [n] bytes left, [readBCD n] moves the cursor
    exactly [n] bytes on and returns, byte after byte, the decimal text of
    the high nibble followed by the decimal text of the low nibble, with no
    check that a nibble is a decimal digit.  The text has exactly [2 * n]
    characters when every nibble is at most 9; a nibble from 10 to 15
    prints as two characters, so in general the text has between [2 * n]
    and [4 * n] characters. *)
Theorem readBCD_text (p : t) (n : nat) :
  offset p + n <= length (buffer p) ->
  exists text,
    readBCD n p = Ok (text, advance p n)
    /\ text = bcd_text (window p n)
    /\ 2 * n <= String.length text <= 4 * n
    /\ (decimal_nibbles (window p n) -> String.length text = 2 * n).
Proof.
  intros H. exists (bcd_text (window p n)).
  split; [apply readBCD_ok, H|]. split; [reflexivity|].
  pose proof (length_bcd_text (window p n)) as [Hb Hd].
  rewrite length_window in Hb, Hd by exact H. split; assumption.
Qed.

(** The byte 0x12 decodes to the text "12". *)
Lemma readBCD_text_witness :
  exists text,
    readBCD 1 (new [mkbyte 0x12]) = Ok (text, advance (new [mkbyte 0x12]) 1)
    /\ text = "12"
    /\ 2 * 1 <= String.length text <= 4 * 1
    /\ (decimal_nibbles (window (new [mkbyte 0x12]) 1) -> String.length text = 2 * 1).
Proof.
  apply (readBCD_text (new [mkbyte 0x12]) 1). cbn. lia.
Defined.

(** C6, as stated, fails on the byte 0xAB: one byte is read and the text
    "1011" has four characters, not two. *)
Lemma readBCD_nibble_above_nine :
  readBCD 1 (new [mkbyte 0xAB]) = Ok ("1011", advance (new [mkbyte 0xAB]) 1)
  /\ String.length "1011" <> 2 * 1.
Proof. split; [reflexivity | cbn; lia]. Qed.

End BcdClaims.

(** ** Header parser *)

Section Header.
Import BufferParser ParserSpec MessageParser.

(** C7. [detectProtocolVersion] answers 2019 when the reserved bits are not
    zero, else 2019 when the message identifier is one of the seven
    2019-only identifiers, else 2013; it never answers 2011, and the answer
    depends on the message identifier and the reserved bits alone. *)
Theorem detectProtocolVersion_spec (messageId reserved : Z) (len : nat) :
  (reserved <> 0%Z -> detectProtocolVersion messageId reserved len = JT808_2019)
  /\ (reserved = 0%Z ->
      messageId ∈ [0x0001; 0x8001; 0x0102; 0x8103; 0x8104; 0x8106; 0x8107]%Z ->
      detectProtocolVersion messageId reserved len = JT808_2019)
  /\ (reserved = 0%Z ->
      messageId ∉ [0x0001; 0x8001; 0x0102; 0x8103; 0x8104; 0x8106; 0x8107]%Z ->
      detectProtocolVersion messageId reserved len = JT808_2013)
  /\ detectProtocolVersion messageId reserved len <> JT808_2011
  /\ (forall len', detectProtocolVersion messageId reserved len'
                   = detectProtocolVersion messageId reserved len).
Proof.
  assert (includes jt808_2019_messages messageId = true
          <-> messageId ∈ jt808_2019_messages) as Hinc.
  { unfold includes. rewrite existsb_exists. split.
    - intros (x & Hin & Heq). apply Z.eqb_eq in Heq. subst x.
      apply list_elem_of_In, Hin.
    - intros Hin. exists messageId. split; [apply list_elem_of_In, Hin|apply Z.eqb_refl]. }
  unfold detectProtocolVersion.
  repeat split.
  - intros Hr. apply Z.eqb_neq in Hr. rewrite Hr. reflexivity.
  - intros -> Hin. cbn [Z.eqb negb]. apply Hinc in Hin.
    fold jt808_2019_messages. now rewrite Hin.
  - intros -> Hn. cbn [Z.eqb negb].
    fold jt808_2019_messages in Hn.
    assert (includes jt808_2019_messages messageId = false) as ->; [|reflexivity].
    apply not_true_iff_false. intros E. apply Hinc in E. contradiction.
  - destruct (negb (reserved =? 0)%Z); [discriminate|].
    destruct (includes jt808_2019_messages messageId); discriminate.
Qed.

Lemma detectProtocolVersion_spec_witness :
  detectProtocolVersion 0x0100 1 20 = JT808_2019
  /\ detectProtocolVersion 0x0102 0 20 = JT808_2019
  /\ detectProtocolVersion 0x0100 0 20 = JT808_2013.
Proof.
  split; [|split].
  - apply (proj1 (detectProtocolVersion_spec 0x0100 1 20)). discriminate.
  - apply (proj1 (proj2 (detectProtocolVersion_spec 0x0102 0 20))); [reflexivity|].
    apply list_elem_of_In. cbn. tauto.
  - apply (proj1 (proj2 (proj2 (detectProtocolVersion_spec 0x0100 0 20)))); [reflexivity|].
    intros H. apply list_elem_of_In in H. cbn in H.
    repeat (destruct H as [H|H]; [discriminate H|]). exact H.
Defined.

(** One read of a parser run kept in hypothesis [H]: either the read is in
    bounds and [H] moves on, or it overflows and [H] is absurd. *)
Ltac read_in H ok overflow p n :=
  let Hb := fresh "Hb" in
  destruct (Nat.le_gt_cases (offset p + n) (length (buffer p))) as [Hb|Hb];
  [ rewrite (ok p Hb) in H; cbv beta iota in H
  | rewrite (overflow p Hb) in H; discriminate H ].

Ltac read16_in H p := read_in H readUInt16BE_ok readUInt16BE_overflow p 2.

Lemma bcd_either_way (v : ProtocolVersion) (p : t) :
  match v with
  | JT808_2019 => readBCD 6
  | _ => readBCD 6
  end p = readBCD 6 p.
Proof. destruct v; reflexivity. Qed.

(** What a parsed header holds, and how far the cursor went to read it. *)
Lemma parseHeader_inv (messageData : Buffer) (h : MessageHeader) :
  parseHeader messageData = Ok h ->
  messageLength h = Z.land (messageProperties h) 0x03FF
  /\ encryptionType h = Z.land (Z.shiftr (messageProperties h) 10) 0x07
  /\ protocolVersion h
     = Some (detectProtocolVersion (messageId h)
               (Z.land (Z.shiftr (messageProperties h) 14) 0x03)
               (length messageData))
  /\ (is_Some (messagePackage h)
      <-> Z.land (Z.shiftr (messageProperties h) 13) 0x01 <> 0%Z)
  /\ getHeaderLength h <= length messageData.
Proof.
  unfold parseHeader, mbind, ret. intros H.
  set (p0 := new messageData) in H.
  read16_in H p0.
  read16_in H (advance p0 2).
  try rewrite bcd_either_way in H.
  read_in H (fun p => readBCD_ok p 6) (fun p => readBCD_overflow p 6)
    (advance (advance p0 2) 2) 6.
  read16_in H (advance (advance (advance p0 2) 2) 6).
  destruct (Z.land (Z.shiftr (be_value (window (advance p0 2) 2)) 13) 1 =? 0)%Z eqn:Hf;
    cbn [negb] in H; cbv beta iota in H.
  - injection H as <-. cbn [messageLength messageProperties encryptionType
                            protocolVersion messageId messagePackage getHeaderLength].
    repeat split.
    + intros [x Hx]. discriminate Hx.
    + intros Hn. apply Z.eqb_eq in Hf. contradiction.
    + subst p0. cbn [advance offset buffer new] in *. lia.
  - read16_in H (advance (advance (advance (advance p0 2) 2) 6) 2).
    read16_in H (advance (advance (advance (advance (advance p0 2) 2) 6) 2) 2).
    injection H as <-. cbn [messageLength messageProperties encryptionType
                            protocolVersion messageId messagePackage getHeaderLength].
    repeat split.
    + intros _. apply Z.eqb_neq in Hf. exact Hf.
    + intros _. eexists. reflexivity.
    + subst p0. cbn [advance offset buffer new] in *. lia.
Qed.


Lemma slice_from (buf : Buffer) (n : nat) :
  n <= length buf ->
  slice buf (Z.of_nat n) (Z.of_nat n + (Z.of_nat (length buf) - Z.of_nat n)) = drop n buf.
Proof.
  intros H. unfold slice, clampIndex.
  destruct (Z.ltb_spec (Z.of_nat n) 0) as [?|_]; [lia|].
  destruct (Z.ltb_spec (Z.of_nat n + (Z.of_nat (length buf) - Z.of_nat n)) 0) as [?|_];
    [lia|].
  rewrite !Z.min_l by lia. rewrite Nat2Z.id.
  apply take_ge. rewrite length_drop. lia.
Qed.




End Header.

(** ** BCD encoding *)

Section BcdEncoding.
Import ParserSpec.

Lemma bufset_middle (done rest : Buffer) (x : byte) (v : Z) :
  bufset (done ++ x :: rest) (Z.of_nat (length done)) v = done ++ mkbyte v :: rest.
Proof.
  unfold bufset.
  destruct (Z.ltb_spec (Z.of_nat (length done)) 0) as [?|_]; [lia|].
  rewrite Nat2Z.id, insert_app_r_alt by lia.
  rewrite Nat.sub_diag. reflexivity.
Qed.

Lemma fold_bufset (g : nat -> Z) (k : nat) (done : Buffer) :
  fold_left (fun buffer i => bufset buffer (Z.of_nat i) (g i))
            (seq (length done) k) (done ++ replicate k (mkbyte 0))
  = done ++ map (fun i => mkbyte (g i)) (seq (length done) k).
Proof.
  revert done. induction k as [|k IH]; intros done; [reflexivity|].
  cbn [seq fold_left replicate map]. rewrite bufset_middle.
  specialize (IH (done ++ [mkbyte (g (length done))])).
  rewrite length_app, Nat.add_1_r, <- !app_assoc in IH. exact IH.
Qed.

Lemma stringToBCD_map (str : string) (n : nat) :
  MessageSerializer.stringToBCD str n
  = map (fun i => mkbyte (packed (charAt (padStart str (n * 2) "0") (i * 2))
                                 (charAt (padStart str (n * 2) "0") (i * 2 + 1))))
        (seq 0 n).
Proof.
  unfold MessageSerializer.stringToBCD, alloc.
  exact (fold_bufset
           (fun i => packed (charAt (padStart str (n * 2) "0") (i * 2))
                            (charAt (padStart str (n * 2) "0") (i * 2 + 1)))
           n []).
Qed.

Lemma digit_value_range (a : ascii) : (0 <= digit_value a <= 9)%Z.
Proof.
  unfold digit_value, parseInt.
  destruct (N.leb_spec 48 (N_of_ascii a)), (N.leb_spec (N_of_ascii a) 57);
    cbn [andb toInt32 from_option id]; lia.
Qed.

Lemma lor_nibbles (h l : Z) :
  (0 <= h <= 9)%Z -> (0 <= l <= 9)%Z -> Z.lor (Z.shiftl h 4) l = (16 * h + l)%Z.
Proof.
  intros Hh Hl.
  assert (h = 0 \/ h = 1 \/ h = 2 \/ h = 3 \/ h = 4 \/ h = 5 \/ h = 6 \/ h = 7
          \/ h = 8 \/ h = 9)%Z as Eh by lia.
  assert (l = 0 \/ l = 1 \/ l = 2 \/ l = 3 \/ l = 4 \/ l = 5 \/ l = 6 \/ l = 7
          \/ l = 8 \/ l = 9)%Z as El by lia.
  repeat (destruct Eh as [->|Eh]);
    repeat (destruct El as [->|El]); subst; reflexivity.
Qed.

Lemma packed_pair (high low : ascii) :
  packed (Some high) (Some low) = (16 * digit_value high + digit_value low)%Z.
Proof. apply lor_nibbles; apply digit_value_range. Qed.

Lemma pack_by_index (chars : list ascii) (n : nat) :
  n * 2 <= length chars ->
  map (fun i => mkbyte (packed (chars !! (i * 2)) (chars !! (i * 2 + 1)))) (seq 0 n)
  = pack_digits (take (n * 2) chars).
Proof.
  revert chars. induction n as [|n IH]; intros chars H; [reflexivity|].
  destruct chars as [|high [|low rest]]; cbn [length] in H; try lia.
  cbn [seq map]. rewrite <- seq_shift, map_map.
  change (S n * 2) with (S (S (n * 2))). rewrite !firstn_cons. cbn [pack_digits].
  change ((high :: low :: rest) !! (0 * 2)) with (Some high).
  change ((high :: low :: rest) !! (0 * 2 + 1)) with (Some low).
  rewrite packed_pair. f_equal.
  rewrite <- (IH rest) by lia.
  apply map_ext. intros i.
  change (S i * 2) with (S (S (i * 2))).
  change (S (S (i * 2)) + 1) with (S (S (i * 2 + 1))). reflexivity.
Qed.

(** C10. [stringToBCD s n] is a buffer of exactly [n] bytes.  A string of
    fewer than [2 * n] characters is encoded after '0' characters are put
    before it up to [2 * n] characters; of a longer string only the first
    [2 * n] characters are encoded and the rest is dropped.  Each byte
    packs two characters, the first in its high nibble.  The function of the
    message parser and the one of the serializer are the same. *)
Theorem stringToBCD_spec (s : string) (n : nat) :
  length (MessageSerializer.stringToBCD s n) = n
  /\ (String.length s < 2 * n ->
      MessageSerializer.stringToBCD s n
      = pack_digits (replicate (2 * n - String.length s) "0"%char
                     ++ list_ascii_of_string s))
  /\ (2 * n <= String.length s ->
      MessageSerializer.stringToBCD s n
      = pack_digits (take (2 * n) (list_ascii_of_string s)))
  /\ MessageParser.stringToBCD s n = MessageSerializer.stringToBCD s n.
Proof.
  split; [|split; [|split]].
  - rewrite stringToBCD_map, length_map, length_seq. reflexivity.
  - intros H. rewrite stringToBCD_map.
    unfold charAt. erewrite map_ext; [|intros i; rewrite !get_chars; reflexivity].
    rewrite pack_by_index.
    + unfold padStart. rewrite chars_append, chars_repeat_string.
      replace (n * 2) with (2 * n) by lia.
      rewrite take_ge; [reflexivity|].
      rewrite length_app, length_replicate, length_chars. lia.
    + unfold padStart. rewrite length_chars, length_append.
      rewrite <- length_chars, chars_repeat_string, length_replicate. lia.
  - intros H. rewrite stringToBCD_map.
    unfold charAt. erewrite map_ext; [|intros i; rewrite !get_chars; reflexivity].
    rewrite pack_by_index.
    + unfold padStart. replace (n * 2 - String.length s) with 0 by lia.
      cbn [repeat_string]. rewrite append_nil_l.
      replace (n * 2) with (2 * n) by lia. reflexivity.
    + unfold padStart. replace (n * 2 - String.length s) with 0 by lia.
      cbn [repeat_string]. rewrite append_nil_l, length_chars. lia.
  - reflexivity.
Qed.

Lemma stringToBCD_spec_witness :
  MessageSerializer.stringToBCD "1234" 3 = map mkbyte [0x00; 0x12; 0x34]%Z
  /\ MessageSerializer.stringToBCD "1234567" 3 = map mkbyte [0x12; 0x34; 0x56]%Z.
Proof.
  split.
  - apply (eq_trans (proj1 (proj2 (stringToBCD_spec "1234" 3)) ltac:(cbn; lia))).
    vm_compute. reflexivity.
  - apply (eq_trans (proj1 (proj2 (proj2 (stringToBCD_spec "1234567" 3))) ltac:(cbn; lia))).
    vm_compute. reflexivity.
Defined.

End BcdEncoding.

(** ** Field codec: every read stays inside the buffer *)

Section FieldCodec.
Import BufferParser ParserSpec Schema CodecSpec MessageSerializer.

Lemma truncation_overflow (what : string) (p : t) : truncation (overflow what p).
Proof. exists what, p. reflexivity. Qed.

Lemma readUInt8_exactly : reads_exactly 1 readUInt8.
Proof.
  intros p _. split; intros H.
  - eexists. apply readUInt8_ok, H.
  - eexists. split; [|apply readUInt8_overflow, H]. apply truncation_overflow.
Qed.

Lemma readUInt16BE_exactly : reads_exactly 2 readUInt16BE.
Proof.
  intros p _. split; intros H.
  - eexists. apply readUInt16BE_ok, H.
  - eexists. split; [|apply readUInt16BE_overflow, H]. apply truncation_overflow.
Qed.

Lemma readUInt32BE_exactly : reads_exactly 4 readUInt32BE.
Proof.
  intros p _. split; intros H.
  - eexists. apply readUInt32BE_ok, H.
  - eexists. split; [|apply readUInt32BE_overflow, H]. apply truncation_overflow.
Qed.

Lemma readBCD_exactly (n : nat) : reads_exactly n (readBCD n).
Proof.
  intros p _. split; intros H.
  - eexists. apply readBCD_ok, H.
  - eexists. split; [|apply readBCD_overflow, H]. apply truncation_overflow.
Qed.

Lemma readASCII_exactly (n : nat) : reads_exactly n (readASCII n).
Proof.
  intros p _. split; intros H.
  - eexists. apply readASCII_ok, H.
  - eexists. split; [|apply readASCII_overflow, H]. apply truncation_overflow.
Qed.

Lemma readBytes_exactly (n : nat) : reads_exactly n (readBytes n).
Proof.
  intros p _. split; intros H.
  - eexists. apply readBytes_ok, H.
  - eexists. split; [|apply readBytes_overflow, H]. apply truncation_overflow.
Qed.

Lemma ret_exactly {A} (a : A) : reads_exactly 0 (ret a).
Proof.
  intros p Hp. split; intros H.
  - exists a. unfold ret, advance. rewrite Nat.add_0_r. now destruct p.
  - lia.
Qed.

Lemma bind_exactly {A B} (n k : nat) (m : M A) (f : A -> M B) :
  reads_exactly n m -> (forall a, reads_exactly k (f a)) ->
  reads_exactly (n + k) (mbind m f).
Proof.
  intros Hm Hf p Hp. unfold mbind. destruct (Hm p Hp) as [Hok Hov].
  split; intros H.
  - destruct Hok as [a ->]; [lia|].
    destruct (Hf a (advance p n)) as [Hok' _];
      [cbn [advance offset buffer]; lia|].
    destruct Hok' as [b ->]; [cbn [advance offset buffer]; lia|].
    exists b. now rewrite advance_advance.
  - destruct (Nat.le_gt_cases (offset p + n) (List.length (buffer p))) as [Hle|Hgt].
    + destruct Hok as [a ->]; [exact Hle|].
      destruct (Hf a (advance p n)) as [_ Hov'];
        [cbn [advance offset buffer]; lia|].
      apply Hov'. cbn [advance offset buffer]. lia.
    + destruct (Hov Hgt) as (e & He & ->). exists e. auto.
Qed.

Lemma exactly_within {A} (n : nat) (m : M A) : reads_exactly n m -> reads_within n m.
Proof.
  intros Hm p Hp. destruct (Hm p Hp) as [Hok Hov].
  destruct (Nat.le_gt_cases (offset p + n) (List.length (buffer p))) as [Hle|Hgt].
  - destruct (Hok Hle) as [v ->]. cbn [advance offset buffer].
    split; [reflexivity | lia].
  - destruct (Hov Hgt) as (e & He & ->). exact He.
Qed.

Lemma within_weaken {A} (n k : nat) (m : M A) :
  k <= n -> reads_within n m -> reads_within k m.
Proof.
  intros Hk Hm p Hp. specialize (Hm p Hp).
  destruct (m p) as [[v p']|e]; [|exact Hm].
  destruct Hm as (Hbuf & Hlo & Hhi). split; [exact Hbuf | lia].
Qed.

Lemma ret_within {A} (a : A) : reads_within 0 (ret a).
Proof. apply exactly_within, ret_exactly. Qed.

Lemma bind_within {A B} (n k : nat) (m : M A) (f : A -> M B) :
  reads_within n m -> (forall a, reads_within k (f a)) ->
  reads_within (n + k) (mbind m f).
Proof.
  intros Hm Hf p Hp. unfold mbind. specialize (Hm p Hp).
  destruct (m p) as [[a p']|e]; [|exact Hm].
  destruct Hm as (Hbuf & Hlo & Hhi).
  specialize (Hf a p'). rewrite Hbuf in Hf. specialize (Hf Hhi).
  destruct (f a p') as [[b p'']|e]; [|exact Hf].
  destruct Hf as (Hbuf' & Hlo' & Hhi'). split; [congruence | lia].
Qed.

Lemma deserializeLocation_exactly : reads_exactly 28 deserializeLocation.
Proof.
  unfold deserializeLocation.
  change 28 with (4 + (4 + (4 + (4 + (2 + (2 + (2 + (6 + 0)))))))).
  repeat (apply bind_exactly;
          [first [apply readUInt32BE_exactly | apply readUInt16BE_exactly
                 | apply readBCD_exactly]
          | intros ?]).
  apply ret_exactly.
Qed.

Lemma location_loop_within (count : nat) (items : list Item) :
  reads_within 0 (location_loop count items).
Proof.
  revert items. induction count as [|count IH]; intros items; cbn [location_loop].
  - apply ret_within.
  - apply (within_weaken (28 + 0)); [lia|].
    apply bind_within; [apply exactly_within, deserializeLocation_exactly|].
    intros l. apply IH.
Qed.

Lemma parameter_loop_within (fuel : nat) (items : list Item) :
  reads_within 0 (parameter_loop fuel items).
Proof.
  revert items. induction fuel as [|fuel IH]; intros items p Hp;
    cbn [parameter_loop]; destruct (5 <=? remaining p)%Z;
    try (split; [reflexivity | lia]).
  apply (within_weaken (4 + (1 + (0 + 0))) 0); [lia| |exact Hp].
  apply bind_within; [apply exactly_within, readUInt32BE_exactly|]. intros parameterId.
  apply bind_within; [apply exactly_within, readUInt8_exactly|]. intros parameterLength.
  apply bind_within.
  - apply (within_weaken (Z.to_nat parameterLength)); [lia|].
    apply exactly_within, readBytes_exactly.
  - intros parameterValue. apply IH.
Qed.

(** The loop over the parameters never runs out of turns: with as many
    turns as bytes left, the number of turns makes no difference. *)
Lemma parameter_loop_fuel (fuel fuel' : nat) (items : list Item) (p : t) :
  offset p <= List.length (buffer p) ->
  List.length (buffer p) - offset p <= fuel ->
  List.length (buffer p) - offset p <= fuel' ->
  parameter_loop fuel items p = parameter_loop fuel' items p.
Proof.
  revert fuel' items p.
  induction fuel as [|fuel IH]; intros fuel' items p Hp Hf Hf';
    destruct fuel' as [|fuel']; cbn [parameter_loop];
    destruct (Z.leb_spec 5 (remaining p)) as [Hr|Hr];
    unfold remaining in Hr; try reflexivity; try lia.
  unfold mbind.
  rewrite (readUInt32BE_ok p) by lia.
  rewrite (readUInt8_ok (advance p 4)) by (cbn [advance offset buffer]; lia).
  set (n := Z.to_nat (be_value (window (advance p 4) 1))).
  set (q := advance (advance p 4) 1).
  destruct (Nat.le_gt_cases (offset q + n) (List.length (buffer q))) as [Hb|Hb].
  - rewrite (readBytes_ok q n Hb).
    apply IH; subst q; cbn [advance offset buffer] in *; lia.
  - rewrite (readBytes_overflow q n Hb). reflexivity.
Qed.

Lemma deserializeArray_within (field : FieldSchema) :
  reads_within (minWidth (mkField (name field) array (length field) (variable field)
                                  (optional field) (itemType field) (countField field)
                                  (min field) (max field) (enum field) (pattern field)))
               (deserializeArray field).
Proof.
  unfold minWidth, deserializeArray. cbn [type itemType countField].
  destruct (itemType field).
  - destruct (countField field).
    + apply (within_weaken (2 + 0)); [lia|].
      apply bind_within; [apply exactly_within, readUInt16BE_exactly|].
      intros itemCount. apply location_loop_within.
    + change (reads_within 28 (location_loop 1 [])).
      apply exactly_within. cbn [location_loop].
      change 28 with (28 + 0).
      apply bind_exactly; [apply deserializeLocation_exactly|]. intros l.
      apply ret_exactly.
  - intros p Hp. apply parameter_loop_within, Hp.
  - apply ret_within.
Qed.

(** The whole remainder of the buffer, as the variable fields read it. *)
Lemma rest_within {A B} (read : nat -> M A) (wrap : A -> B) :
  (forall n, reads_exactly n (read n)) ->
  reads_within 0
    (fun parser => mbind (read (Z.to_nat (remaining parser)))
                         (fun v => ret (wrap v)) parser).
Proof.
  intros Hread p Hp.
  pose proof (bind_exactly (Z.to_nat (remaining p)) 0 (read (Z.to_nat (remaining p)))
                (fun v => ret (wrap v)) (Hread _) (fun v => ret_exactly (wrap v)))
    as Hex.
  apply exactly_within in Hex.
  apply (within_weaken _ 0) in Hex; [|lia]. exact (Hex p Hp).
Qed.

(** Decoding a field of a known type either reads at least its minimum
    width and stays inside the buffer, or throws the overflow error. *)
Lemma deserializeField_within (field : FieldSchema) :
  known_type field -> reads_within (minWidth field) (deserializeField field).
Proof.
  intros Hk. unfold deserializeField, known_type in *.
  pose proof (deserializeArray_within field) as Harr.
  unfold minWidth in *. cbn [type itemType countField] in Harr.
  destruct (type field); try contradiction.
  - apply (within_weaken (1 + 0)); [lia|]. apply exactly_within.
    apply bind_exactly; [apply readUInt8_exactly | intros; apply ret_exactly].
  - apply (within_weaken (2 + 0)); [lia|]. apply exactly_within.
    apply bind_exactly; [apply readUInt16BE_exactly | intros; apply ret_exactly].
  - apply (within_weaken (4 + 0)); [lia|]. apply exactly_within.
    apply bind_exactly; [apply readUInt32BE_exactly | intros; apply ret_exactly].
  - destruct (variable field).
    + apply (rest_within readASCII VString), readASCII_exactly.
    + apply (within_weaken (length field + 0)); [lia|]. apply exactly_within.
      apply bind_exactly; [apply readASCII_exactly | intros; apply ret_exactly].
  - apply (within_weaken (length field + 0)); [lia|]. apply exactly_within.
    apply bind_exactly; [apply readBCD_exactly | intros; apply ret_exactly].
  - destruct (variable field).
    + apply (rest_within readBytes VBuffer), readBytes_exactly.
    + apply (within_weaken (length field + 0)); [lia|]. apply exactly_within.
      apply bind_exactly; [apply readBytes_exactly | intros; apply ret_exactly].
  - apply (within_weaken (28 + 0)); [lia|]. apply exactly_within.
    apply bind_exactly; [apply deserializeLocation_exactly | intros; apply ret_exactly].
  - match goal with
    | |- reads_within ?n _ => apply (within_weaken (n + 0)); [lia|]
    end.
    apply bind_within; [exact Harr | intros; apply ret_within].
Qed.

End FieldCodec.

(** ** Decoding and validating a message body *)

Section Decode.
Import BufferParser ParserSpec Schema CodecSpec MessageSerializer MessageValidator.

Lemma deserializeFields_truncated (fs : list FieldSchema) (p : t) (data : FieldMap) :
  Forall known_type fs ->
  offset p <= List.length (buffer p) ->
  match deserializeFields fs p data with
  | Ok _ => offset p + foldr (fun f acc => minWidth f + acc) 0 fs <= List.length (buffer p)
  | Throw e => exists f, f ∈ fs /\ truncated_at f e
  end.
Proof.
  intros Hk. revert p data.
  induction Hk as [|f fs Hf Hfs IH]; intros p data Hp; cbn [deserializeFields foldr].
  - lia.
  - pose proof (deserializeField_within f Hf p Hp) as Hstep.
    destruct (deserializeField f p) as [[v p']|inner].
    + destruct Hstep as (Hbuf & Hlo & Hhi).
      specialize (IH p' (<[name f := v]> data)). rewrite Hbuf in IH.
      specialize (IH Hhi).
      destruct (deserializeFields fs p' (<[name f := v]> data)) as [d|e].
      * lia.
      * destruct IH as (g & Hg & Ht). exists g. split; [|exact Ht].
        apply elem_of_cons. right. exact Hg.
    + exists f. split; [apply elem_of_cons; left; reflexivity|].
      exists inner. split; [exact Hstep | reflexivity].
Qed.

(** Every field of the registry has one of the eight known types. *)
Lemma registry_known (messageId : Z) (st : MessageStructure) :
  MESSAGE_STRUCTURES !! messageId = Some st -> Forall known_type (fields st).
Proof.
  intros H. unfold MESSAGE_STRUCTURES in H.
  apply elem_of_list_to_map_2 in H. unfold structure_table in H.
  repeat (apply elem_of_cons in H as [H|H];
          [injection H as -> ->; repeat constructor|]).
  apply elem_of_nil in H. contradiction.
Qed.

Lemma deserialize_outcome (messageId : Z) (st : MessageStructure) (body : Buffer) :
  MESSAGE_STRUCTURES !! messageId = Some st ->
  match deserialize messageId body with
  | Ok _ => minFixedWidth st <= List.length body
  | Throw e => exists f, f ∈ fields st /\ truncated_at f e
  end.
Proof.
  intros H. unfold deserialize. rewrite H.
  pose proof (deserializeFields_truncated (fields st) (new body) ∅
                (registry_known messageId st H)) as Hd.
  cbn [new offset buffer] in Hd. specialize (Hd ltac:(lia)).
  destruct (deserializeFields (fields st) (new body) ∅); [|exact Hd].
  unfold minFixedWidth. lia.
Qed.

Lemma guarded_reader {A} (n : nat) (m : M A) (what : string) (g : Buffer -> A) :
  (forall p, offset p + n <= List.length (buffer p) ->
             m p = Ok (g (window p n), advance p n)) ->
  (forall p, List.length (buffer p) < offset p + n -> m p = Throw (overflow what p)) ->
  guarded m.
Proof.
  intros Hok Hover p Hp.
  destruct (Nat.le_gt_cases (offset p + n) (List.length (buffer p))) as [Hb|Hb].
  - rewrite Hok by exact Hb. cbn [advance buffer offset].
    split; [reflexivity | lia].
  - rewrite Hover by exact Hb. exists what, p. split; [reflexivity|]. split; [reflexivity | lia].
Qed.

Lemma guarded_ret {A} (a : A) : guarded (ret a).
Proof. intros p Hp. cbn [ret]. split; [reflexivity | lia]. Qed.

Lemma guarded_bind {A B} (m : M A) (f : A -> M B) :
  guarded m -> (forall a, guarded (f a)) -> guarded (mbind m f).
Proof.
  intros Hm Hf p Hp. unfold mbind. specialize (Hm p Hp).
  destruct (m p) as [[a p']|e]; [|exact Hm].
  destruct Hm as (Hbuf & Hlo & Hhi).
  assert (offset p' <= List.length (buffer p')) as Hp' by (rewrite Hbuf; exact Hhi).
  specialize (Hf a p' Hp').
  destruct (f a p') as [[b p'']|e].
  - destruct Hf as (Hbuf' & Hlo' & Hhi'). rewrite Hbuf in *.
    split; [exact Hbuf' | lia].
  - destruct Hf as (what & q & -> & Hq & Hoff).
    exists what, q. split; [reflexivity|]. split; [congruence | lia].
Qed.

Lemma readUInt8_guarded : guarded readUInt8.
Proof.
  apply (guarded_reader 1 _ "" be_value); [apply readUInt8_ok | apply readUInt8_overflow].
Qed.

Lemma readUInt16BE_guarded : guarded readUInt16BE.
Proof.
  apply (guarded_reader 2 _ "" be_value);
    [apply readUInt16BE_ok | apply readUInt16BE_overflow].
Qed.

Lemma readUInt32BE_guarded : guarded readUInt32BE.
Proof.
  apply (guarded_reader 4 _ "" be_value);
    [apply readUInt32BE_ok | apply readUInt32BE_overflow].
Qed.

Lemma readBCD_guarded (n : nat) : guarded (readBCD n).
Proof.
  apply (guarded_reader n _ "BCD " bcd_text);
    [intros p; apply readBCD_ok | intros p; apply readBCD_overflow].
Qed.

Lemma readASCII_guarded (n : nat) : guarded (readASCII n).
Proof.
  apply (guarded_reader n _ "ASCII " (fun w => strip_nul (ascii_decode w)));
    [intros p; apply readASCII_ok | intros p; apply readASCII_overflow].
Qed.

Lemma readBytes_guarded (n : nat) : guarded (readBytes n).
Proof.
  apply (guarded_reader n _ "bytes " (fun w => w));
    [intros p; apply readBytes_ok | intros p; apply readBytes_overflow].
Qed.

Lemma deserializeLocation_guarded : guarded deserializeLocation.
Proof.
  unfold deserializeLocation.
  repeat (apply guarded_bind;
          [first [apply readUInt32BE_guarded | apply readUInt16BE_guarded
                 | apply readBCD_guarded]
          |intros ?]).
  apply guarded_ret.
Qed.

Lemma location_loop_guarded (count : nat) (items : list Item) :
  guarded (location_loop count items).
Proof.
  revert items. induction count as [|count IH]; intros items; cbn [location_loop].
  - apply guarded_ret.
  - apply guarded_bind; [apply deserializeLocation_guarded|]. intros l. apply IH.
Qed.

Lemma parameter_loop_guarded (fuel : nat) (items : list Item) :
  guarded (parameter_loop fuel items).
Proof.
  revert items. induction fuel as [|fuel IH]; intros items p Hp;
    cbn [parameter_loop]; destruct (5 <=? remaining p)%Z;
    try (split; [reflexivity | lia]).
  revert p Hp.
  change (guarded
            (parameterId <~ readUInt32BE ;;
             parameterLength <~ readUInt8 ;;
             parameterValue <~ readBytes (Z.to_nat parameterLength) ;;
             parameter_loop fuel
               (items ++ [ItemParameter
                            (Param.mk parameterId parameterLength parameterValue)]))).
  apply guarded_bind; [apply readUInt32BE_guarded|]. intros parameterId.
  apply guarded_bind; [apply readUInt8_guarded|]. intros parameterLength.
  apply guarded_bind; [apply readBytes_guarded|]. intros parameterValue.
  apply IH.
Qed.

Lemma deserializeField_guarded (field : FieldSchema) :
  known_type field -> guarded (deserializeField field).
Proof.
  intros Hk. unfold deserializeField, known_type in *.
  destruct (type field); try contradiction.
  - apply guarded_bind; [apply readUInt8_guarded | intros; apply guarded_ret].
  - apply guarded_bind; [apply readUInt16BE_guarded | intros; apply guarded_ret].
  - apply guarded_bind; [apply readUInt32BE_guarded | intros; apply guarded_ret].
  - destruct (variable field).
    + intros p Hp.
      apply (guarded_bind (readASCII (Z.to_nat (remaining p)))
                          (fun v => ret (VString v)));
        [apply readASCII_guarded | intros; apply guarded_ret | exact Hp].
    + apply guarded_bind; [apply readASCII_guarded | intros; apply guarded_ret].
  - apply guarded_bind; [apply readBCD_guarded | intros; apply guarded_ret].
  - destruct (variable field).
    + intros p Hp.
      apply (guarded_bind (readBytes (Z.to_nat (remaining p)))
                          (fun v => ret (VBuffer v)));
        [apply readBytes_guarded | intros; apply guarded_ret | exact Hp].
    + apply guarded_bind; [apply readBytes_guarded | intros; apply guarded_ret].
  - apply guarded_bind; [apply deserializeLocation_guarded | intros; apply guarded_ret].
  - apply guarded_bind; [|intros; apply guarded_ret].
    unfold deserializeArray. destruct (itemType field).
    + apply guarded_bind.
      * destruct (countField field); [apply readUInt16BE_guarded | apply guarded_ret].
      * intros ?. apply location_loop_guarded.
    + intros p Hp. apply parameter_loop_guarded, Hp.
    + apply guarded_ret.
Qed.

(** When the loop of [deserialize] throws, it throws at the first field
    whose decoding throws, under the name of that field. *)
Lemma deserializeFields_fails (fs : list FieldSchema) (p : t) (data : FieldMap)
    (e : JsError) :
  Forall known_type fs ->
  offset p <= List.length (buffer p) ->
  deserializeFields fs p data = Throw e ->
  exists pre f post q inner,
    fs = pre ++ f :: post
    /\ decode_prefix pre p = Some q
    /\ buffer q = buffer p
    /\ deserializeField f q = Throw inner
    /\ overflow_in (buffer p) (offset q) inner
    /\ e = Error ("Error deserializing field " +:+ name f +:+ ": " +:+ message inner).
Proof.
  intros Hk. revert p data.
  induction Hk as [|f fs Hf Hfs IH]; intros p data Hp H; cbn [deserializeFields] in H.
  - discriminate H.
  - pose proof (deserializeField_guarded f Hf p Hp) as Hstep.
    destruct (deserializeField f p) as [[v p']|inner] eqn:Hdec.
    + destruct Hstep as (Hbuf & Hlo & Hhi).
      assert (offset p' <= List.length (buffer p')) as Hp' by (rewrite Hbuf; exact Hhi).
      destruct (IH p' _ Hp' H) as (pre & g & post & q & inner & -> & Hpre & Hq & Hg & Hin & ->).
      exists (f :: pre), g, post, q, inner.
      split; [reflexivity|]. split; [cbn [decode_prefix]; now rewrite Hdec|].
      split; [congruence|]. split; [exact Hg|]. split; [now rewrite <- Hbuf | reflexivity].
    + injection H as <-. exists [], f, fs, p, inner.
      repeat split; try reflexivity; try assumption.
Qed.

Lemma deserialize_fails (messageId : Z) (st : MessageStructure) (body : Buffer)
    (e : JsError) :
  MESSAGE_STRUCTURES !! messageId = Some st ->
  deserialize messageId body = Throw e ->
  exists f, f ∈ fields st /\ truncated_at f e /\ fails_at (fields st) body f e.
Proof.
  intros Hst H. unfold deserialize in H. rewrite Hst in H.
  destruct (deserializeFields_fails (fields st) (new body) ∅ e
              (registry_known messageId st Hst) ltac:(cbn [new offset]; lia) H)
    as (pre & f & post & q & inner & Hfs & Hpre & Hq & Hf & Hin & ->).
  cbn [new buffer] in Hq, Hin.
  exists f. split; [|split].
  - rewrite Hfs. apply elem_of_app. right. left.
  - exists inner. split; [|reflexivity].
    destruct Hin as (what & r & -> & _). now exists what, r.
  - exists pre, post, q, inner. repeat split; assumption.
Qed.

(** C5. For a message identifier of the registry and a body shorter than
    the minimum fixed width of its structure, [deserialize] throws the
    error of a read past the end of the buffer, named after the field that
    was being read: the fields before it are decoded, the decoding of this
    field is what throws, and the error is the overflow error of a read of
    the body at or after the position where the field starts, under the
    field's name.  [validateMessage] returns an invalid result that carries
    this error.  No read leaves the buffer: on every body the only error
    that [deserialize] throws is of this kind, never the range error of an
    access outside the buffer, and each primitive read of [n] bytes
    succeeds exactly when [n] bytes are left and otherwise throws before
    touching the buffer. *)
Theorem truncated_body_rejected (messageId : Z) (st : MessageStructure) (body : Buffer) :
  MESSAGE_STRUCTURES !! messageId = Some st ->
  List.length body < minFixedWidth st ->
  (exists f e,
      f ∈ fields st /\ truncated_at f e
      /\ fails_at (fields st) body f e
      /\ deserialize messageId body = Throw e
      /\ validateMessage messageId body
         = Ok (mkResult false (Some ("Validation error: " +:+ message e)) None None))
  /\ (forall anyBody e,
        deserialize messageId anyBody = Throw e ->
        exists f, f ∈ fields st /\ truncated_at f e
                  /\ fails_at (fields st) anyBody f e)
  /\ reads_exactly 1 readUInt8
  /\ reads_exactly 2 readUInt16BE
  /\ reads_exactly 4 readUInt32BE
  /\ (forall n, reads_exactly n (readBCD n))
  /\ (forall n, reads_exactly n (readASCII n))
  /\ (forall n, reads_exactly n (readBytes n)).
Proof.
  intros Hst Hshort. split; [|split].
  - pose proof (deserialize_outcome messageId st body Hst) as Hd.
    destruct (deserialize messageId body) as [d|e] eqn:E; [lia|].
    destruct (deserialize_fails messageId st body e Hst E) as (f & Hf & Ht & Hat).
    exists f, e.
    repeat split; try assumption.
    unfold validateMessage. rewrite Hst, E. reflexivity.
  - intros anyBody e E. apply (deserialize_fails messageId st anyBody e Hst E).
  - repeat split;
      first [ apply readUInt8_exactly | apply readUInt16BE_exactly
            | apply readUInt32BE_exactly | apply readBCD_exactly
            | apply readASCII_exactly | apply readBytes_exactly ]; assumption.
Qed.

Lemma truncated_body_rejected_witness :
  (exists f e,
      f ∈ fields Samples.general_response /\ truncated_at f e
      /\ fails_at (fields Samples.general_response) (map mkbyte [0; 5; 1]%Z) f e
      /\ deserialize 0x8001 (map mkbyte [0; 5; 1]%Z) = Throw e
      /\ validateMessage 0x8001 (map mkbyte [0; 5; 1]%Z)
         = Ok (mkResult false (Some ("Validation error: " +:+ message e)) None None))
  /\ (forall anyBody e,
        deserialize 0x8001 anyBody = Throw e ->
        exists f, f ∈ fields Samples.general_response /\ truncated_at f e
                  /\ fails_at (fields Samples.general_response) anyBody f e)
  /\ reads_exactly 1 readUInt8
  /\ reads_exactly 2 readUInt16BE
  /\ reads_exactly 4 readUInt32BE
  /\ (forall n, reads_exactly n (readBCD n))
  /\ (forall n, reads_exactly n (readASCII n))
  /\ (forall n, reads_exactly n (readBytes n)).
Proof.
  apply (truncated_body_rejected 0x8001 Samples.general_response (map mkbyte [0; 5; 1]%Z)).
  - vm_compute. reflexivity.
  - vm_compute. lia.
Defined.

(** The field at which the truncated general response above fails: the
    sequence number is decoded from the first two bytes, and the message
    identifier, which would need bytes 2 and 3, is the field that throws. *)
Example truncated_general_response_field :
  fails_at (fields Samples.general_response) (map mkbyte [0; 5; 1]%Z)
    (scalar "messageId" uint16)
    (Error "Error deserializing field messageId: Buffer overflow: trying to read at offset 2, buffer length 3").
Proof.
  exists [scalar "sequenceNumber" uint16], [scalar "result" uint8],
    (mk (map mkbyte [0; 5; 1]%Z) 2),
    (overflow "" (mk (map mkbyte [0; 5; 1]%Z) 2)).
  split; [reflexivity|]. split; [reflexivity|]. split; [reflexivity|].
  split; [reflexivity|]. split; [|reflexivity].
  exists "", (mk (map mkbyte [0; 5; 1]%Z) 2).
  split; [reflexivity|]. split; [reflexivity|]. cbn [offset]. lia.
Qed.

(** The error that the truncated general response above is rejected with. *)
Example truncated_general_response :
  validateMessage 0x8001 (map mkbyte [0; 5; 1]%Z)
  = Ok (mkResult false
          (Some "Validation error: Error deserializing field messageId: Buffer overflow: trying to read at offset 2, buffer length 3")
          None None).
Proof. vm_compute. reflexivity. Qed.

(** C9. For a message identifier that the registry does not hold and any
    body, [validateMessage] returns, without throwing, the invalid result
    whose error is "Unknown message ID: 0x" followed by the identifier in
    hexadecimal, padded to four digits. *)
Theorem validateMessage_unknown_id (messageId : Z) (body : Buffer) :
  MESSAGE_STRUCTURES !! messageId = None ->
  validateMessage messageId body
  = Ok (mkResult false
          (Some ("Unknown message ID: 0x" +:+ padStart (toString16 messageId) 4 "0"))
          None None).
Proof.
  intros H. unfold validateMessage. rewrite H. reflexivity.
Qed.

Lemma validateMessage_unknown_id_witness :
  validateMessage 0xFFFF []
  = Ok (mkResult false (Some "Unknown message ID: 0xffff") None None).
Proof.
  apply (validateMessage_unknown_id 0xFFFF []). vm_compute. reflexivity.
Defined.

(** [validateMessage] never throws, whatever the identifier and the body. *)
Lemma validateMessage_total (messageId : Z) (body : Buffer) :
  exists r, validateMessage messageId body = Ok r.
Proof.
  unfold validateMessage.
  destruct (MESSAGE_STRUCTURES !! messageId) as [st|]; [|eexists; reflexivity].
  destruct (deserialize messageId body) as [d|e]; eexists; reflexivity.
Qed.

(** C1 (the code on the failing input).  A batch location report with
    [itemCount = 2] and two location records passes the validator and
    serializes to 3 + 2 * 28 bytes, yet deserializing these bytes yields
    a single record: the array field of the batch report declares no count
    field, so [deserializeArray] reads exactly one record and leaves the
    rest of the buffer unread.  With no record at all the three serialized
    bytes do not deserialize: the read of the one record overflows. *)
Theorem batch_report_roundtrip_fails :
  (exists st, MESSAGE_STRUCTURES !! 0x0704%Z = Some st
              /\ validateFields (fields st) Samples.batch_of_two = pass)
  /\ (exists bytes,
         serialize 0x0704 Samples.batch_of_two = Ok bytes
         /\ List.length bytes = 3 + 2 * 28
         /\ deserialize 0x0704 bytes
            = Ok (<["locationItems" := VArray [ItemLocation Samples.location_a]]>
                    Samples.batch_of_two)
         /\ <["locationItems" := VArray [ItemLocation Samples.location_a]]>
              Samples.batch_of_two
            <> Samples.batch_of_two)
  /\ (exists bytes,
         serialize 0x0704 Samples.batch_of_none = Ok bytes
         /\ List.length bytes = 3
         /\ deserialize 0x0704 bytes
            = Throw (Error "Error deserializing field locationItems: Buffer overflow: trying to read at offset 3, buffer length 3")).
Proof.
  split; [|split].
  - eexists. split; [vm_compute; reflexivity|]. vm_compute. reflexivity.
  - eexists. split; [vm_compute; reflexivity|].
    split; [vm_compute; reflexivity|].
    split; [vm_compute; reflexivity|].
    intros E. apply (f_equal (fun m : gmap string Value => m !! "locationItems")) in E.
    vm_compute in E. discriminate E.
  - eexists. split; [vm_compute; reflexivity|].
    split; [vm_compute; reflexivity|]. vm_compute. reflexivity.
Qed.

End Decode.

(** ** The scenarios of the test suite, run on the embedding *)

Section Scenarios.
Import MessageSerializer MessageValidator.

Example checksum_of_1234 : Checksum.calculateChecksum (map mkbyte [1; 2; 3; 4]%Z) = 4%Z.
Proof. reflexivity. Qed.

Example wrap_1234 :
  Checksum.wrapMessage (map mkbyte [1; 2; 3; 4]%Z)
  = map mkbyte [0x7E; 1; 2; 3; 4; 4; 0x7E]%Z.
Proof. vm_compute. reflexivity. Qed.

Example single_flag_is_malformed :
  Checksum.unwrapMessage (map mkbyte [0x7E; 1; 2]%Z) = FrameSpec.malformed.
Proof. vm_compute. reflexivity. Qed.

Example corrupted_checksum_is_reported :
  MessageParser.parseMessage
    (map mkbyte [0x7E; 0x01; 0x00; 0x00; 0x04; 0x12; 0x34; 0x56; 0x78; 0x90; 0x12; 0x00;
                 0x01; 0xFF; 0x7E]%Z)
  = Ok (MessageParser.failure
          (map mkbyte [0x7E; 0x01; 0x00; 0x00; 0x04; 0x12; 0x34; 0x56; 0x78; 0x90; 0x12;
                       0x00; 0x01; 0xFF; 0x7E]%Z)
          "Invalid checksum").
Proof. vm_compute. reflexivity. Qed.

Example stringToBCD_empty : stringToBCD "" 2 = map mkbyte [0; 0]%Z.
Proof. vm_compute. reflexivity. Qed.

Example heartbeat_is_valid :
  exists st, validateMessage 0x0002 [] = Ok (mkResult true None (Some ∅) (Some st)).
Proof. eexists. vm_compute. reflexivity. Qed.

Example registration_response_roundtrip :
  let data : gmap string Value :=
    <["sequenceNumber" := VNumber 1]>
      (<["result" := VNumber 0]> (<["authCode" := VString "AUTH123"]> ∅)) in
  exists bytes, serialize 0x8100 data = Ok bytes /\ deserialize 0x8100 bytes = Ok data.
Proof. eexists. split; [vm_compute; reflexivity|]. vm_compute. reflexivity. Qed.

Example location_encodes_to_28_bytes :
  exists bytes,
    serializeLocation Samples.location_a = Ok bytes
    /\ length bytes = 28
    /\ deserializeLocation (BufferParser.new bytes)
       = Ok (Samples.location_a, BufferParser.mk bytes 28).
Proof.
  eexists. split; [vm_compute; reflexivity|].
  split; vm_compute; reflexivity.
Qed.

Example batch_of_one_roundtrip :
  let data : gmap string Value :=
    <["dataType" := VNumber 0]>
      (<["itemCount" := VNumber 1]>
         (<["locationItems" := VArray [ItemLocation Samples.location_a]]> ∅)) in
  exists bytes, serialize 0x0704 data = Ok bytes /\ deserialize 0x0704 bytes = Ok data.
Proof. eexists. split; [vm_compute; reflexivity|]. vm_compute. reflexivity. Qed.

End Scenarios.

(** * Further properties of the codec *)

(** ** Checksums and frames *)

Section FrameExtras.
Import Checksum FrameSpec.

Lemma validate_is_unwrap_valid (f : Buffer) :
  validateMessageChecksum f = isValid (unwrapMessage f).
Proof.
  unfold unwrapMessage.
  destruct ((indexOf f flag =? -1) || (lastIndexOf f flag =? -1)
            || (indexOf f flag =? lastIndexOf f flag))%Z eqn:E; [|reflexivity].
  unfold validateMessageChecksum. rewrite E.
  destruct (length f <? 3)%nat; reflexivity.
Qed.

Lemma xor_fold_acc (b : Buffer) (acc : Z) :
  fold_left (fun checksum x => Z.lxor checksum (byteval x)) b acc
  = Z.lxor acc (fold_left (fun checksum x => Z.lxor checksum (byteval x)) b 0%Z).
Proof.
  revert acc. induction b as [|x b IH]; intros acc; cbn [fold_left].
  - now rewrite Z.lxor_0_r.
  - rewrite IH, (IH (Z.lxor 0 (byteval x))), Z.lxor_0_l, Z.lxor_assoc. reflexivity.
Qed.

Lemma calculateChecksum_app (a b : Buffer) :
  calculateChecksum (a ++ b) = Z.lxor (calculateChecksum a) (calculateChecksum b).
Proof.
  rewrite !calculateChecksum_xor, fold_left_app. apply xor_fold_acc.
Qed.

Lemma calculateChecksum_cons (x : byte) (b : Buffer) :
  calculateChecksum (x :: b) = Z.lxor (byteval x) (calculateChecksum b).
Proof.
  change (x :: b) with ([x] ++ b). rewrite calculateChecksum_app.
  reflexivity.
Qed.

(** X1. [validateMessageChecksum] accepts exactly the buffers that hold, between
    their first and their last delimiter byte, a body followed by one byte
    equal to the exclusive or of the body.  The bytes before the first and
    after the last delimiter play no part, and the body may itself hold
    delimiter bytes. *)
Theorem validateMessageChecksum_iff (f : Buffer) :
  validateMessageChecksum f = true
  <-> exists pre body cs post,
        f = pre ++ flag :: body ++ cs :: flag :: post
        /\ (flag ∉ pre) /\ (flag ∉ post)
        /\ fold_left (fun x b => Z.lxor x (byteval b)) body 0%Z = byteval cs.
Proof.
  rewrite validate_is_unwrap_valid. split.
  - intros Hv.
    destruct (frame_cases f)
      as [Hn | [(pre & post & -> & Hpre & Hpost)
               | (pre & mid & post & -> & Hpre & Hpost)]].
    + rewrite unwrap_no_delimiter in Hv by exact Hn. discriminate Hv.
    + rewrite unwrap_one_delimiter in Hv by assumption. discriminate Hv.
    + destruct mid as [|m mid _] using rev_ind.
      * cbn [app] in Hv. rewrite unwrap_adjacent in Hv by assumption. discriminate Hv.
      * rewrite <- app_assoc in Hv. cbn [app] in Hv.
        rewrite unwrap_framed in Hv by assumption. cbn [isValid] in Hv.
        apply Z.eqb_eq in Hv. rewrite calculateChecksum_xor in Hv.
        exists pre, mid, m, post. rewrite <- app_assoc. cbn [app]. auto.
  - intros (pre & body & cs & post & -> & Hpre & Hpost & Hx).
    rewrite unwrap_framed by assumption. cbn [isValid].
    rewrite calculateChecksum_xor, Hx. apply Z.eqb_refl.
Qed.

(** X2. The checksum of a concatenation is the exclusive or of the
    checksums, the checksum is a byte value, and a body followed by its
    checksum byte has checksum zero. *)
Theorem calculateChecksum_compose (a b : Buffer) :
  calculateChecksum (a ++ b) = Z.lxor (calculateChecksum a) (calculateChecksum b)
  /\ (0 <= calculateChecksum a < 256)%Z
  /\ calculateChecksum (a ++ [mkbyte (calculateChecksum a)]) = 0%Z.
Proof.
  split; [apply calculateChecksum_app|]. split; [apply calculateChecksum_byte|].
  rewrite calculateChecksum_app, (calculateChecksum_cons _ []).
  rewrite byteval_mkbyte_small by apply calculateChecksum_byte.
  change (calculateChecksum []) with 0%Z.
  rewrite Z.lxor_0_r. apply Z.lxor_nilpotent.
Qed.

(** The loop of [calculateChecksum] from index [s + j] on: the indices
    below 0 and past the end of the buffer add nothing. *)
Lemma checksum_loop (buf : Buffer) (n j : nat) (s acc : Z) :
  fold_left
    (fun checksum k => Z.lxor checksum (toInt32 (bufget buf (s + Z.of_nat k))))
    (seq j n) acc
  = fold_left (fun checksum b => Z.lxor checksum (byteval b))
      (take (Z.to_nat (s + Z.of_nat j + Z.of_nat n) - Z.to_nat (s + Z.of_nat j))
            (drop (Z.to_nat (s + Z.of_nat j)) buf))
      acc.
Proof.
  revert j acc. induction n as [|n IH]; intros j acc.
  - replace (Z.to_nat (s + Z.of_nat j + Z.of_nat 0) - Z.to_nat (s + Z.of_nat j))
      with 0 by lia.
    now rewrite take_0.
  - cbn [seq fold_left]. rewrite IH.
    replace (s + Z.of_nat (S j) + Z.of_nat n)%Z
      with (s + Z.of_nat j + Z.of_nat (S n))%Z by lia.
    unfold bufget.
    destruct (Z.ltb_spec (s + Z.of_nat j) 0) as [Hneg|Hpos].
    + cbn [toInt32 default]. rewrite Z.lxor_0_r.
      replace (Z.to_nat (s + Z.of_nat (S j))) with 0 by lia.
      replace (Z.to_nat (s + Z.of_nat j)) with 0 by lia.
      reflexivity.
    + replace (Z.to_nat (s + Z.of_nat (S j)))
        with (S (Z.to_nat (s + Z.of_nat j))) by lia.
      destruct (buf !! Z.to_nat (s + Z.of_nat j)) as [b|] eqn:Hb.
      * rewrite (drop_S _ _ _ Hb).
        replace (Z.to_nat (s + Z.of_nat j + Z.of_nat (S n)) - Z.to_nat (s + Z.of_nat j))
          with (S (Z.to_nat (s + Z.of_nat j + Z.of_nat (S n))
                   - S (Z.to_nat (s + Z.of_nat j)))) by lia.
        rewrite firstn_cons. reflexivity.
      * apply lookup_ge_None_1 in Hb.
        rewrite !drop_ge by lia. rewrite !take_nil.
        cbn [fmap option_fmap option_map toInt32 from_option fold_left].
        apply Z.lxor_0_r.
Qed.

Lemma calculateChecksum_range_bytes (buf : Buffer) (s e : Z) :
  calculateChecksum_range buf s e
  = calculateChecksum (slice buf (Z.max s 0) (Z.max e 0)).
Proof.
  unfold calculateChecksum_range. rewrite checksum_loop, calculateChecksum_xor.
  f_equal. unfold slice, clampIndex.
  destruct (Z.ltb_spec (Z.max s 0) 0) as [?|_]; [lia|].
  destruct (Z.ltb_spec (Z.max e 0) 0) as [?|_]; [lia|].
  rewrite Z.add_0_r.
  destruct (Z.le_gt_cases e s) as [Hes|Hes].
  - replace (Z.to_nat (s + Z.of_nat (Z.to_nat (e - s))) - Z.to_nat s) with 0 by lia.
    replace (Z.to_nat (Z.min (Z.max e 0) (Z.of_nat (length buf))
                       - Z.min (Z.max s 0) (Z.of_nat (length buf)))) with 0 by lia.
    now rewrite !take_0.
  - replace (s + Z.of_nat (Z.to_nat (e - s)))%Z with e by lia.
    destruct (Nat.le_gt_cases (length buf) (Z.to_nat s)) as [Hs|Hs].
    + rewrite !drop_ge by lia. now rewrite !take_nil.
    + replace (Z.to_nat (Z.min (Z.max s 0) (Z.of_nat (length buf))))
        with (Z.to_nat s) by lia.
      destruct (Z.le_gt_cases e (Z.of_nat (length buf))) as [He|He].
      * f_equal. lia.
      * rewrite !take_ge by (rewrite length_drop; lia). reflexivity.
Qed.

(** X3. [calculateChecksum(buffer, start, end)] for all integers [start] and
    [end].  It is the checksum of the bytes at the indices from [start] up
    to, not including, [end] that lie in the buffer: a negative [start] or
    [end] counts as 0 (it is not taken from the end of the buffer, as
    [slice] takes it), positions past the end add nothing, and an [end]
    that is not after [start] gives zero.  So it equals the checksum of
    [buffer.slice(start, end)] whenever neither index is negative. *)
Theorem calculateChecksum_range_slice (buf : Buffer) (s e : Z) :
  calculateChecksum_range buf s e
  = calculateChecksum (slice buf (Z.max s 0) (Z.max e 0))
  /\ ((0 <= s)%Z -> (0 <= e)%Z ->
      calculateChecksum_range buf s e = calculateChecksum (slice buf s e))
  /\ ((e <= s)%Z -> calculateChecksum_range buf s e = 0%Z).
Proof.
  split; [apply calculateChecksum_range_bytes|]. split.
  - intros Hs He. rewrite calculateChecksum_range_bytes.
    now rewrite !Z.max_l by lia.
  - intros H. unfold calculateChecksum_range.
    replace (Z.to_nat (e - s)) with 0 by lia. reflexivity.
Qed.

Lemma calculateChecksum_range_slice_witness :
  calculateChecksum_range (map mkbyte [1; 2; 3]%Z) (-1) 2
  = calculateChecksum (slice (map mkbyte [1; 2; 3]%Z) 0 2)
  /\ calculateChecksum_range (map mkbyte [0xFF; 1; 2; 3; 0xFF]%Z) 1 4
     = calculateChecksum (slice (map mkbyte [0xFF; 1; 2; 3; 0xFF]%Z) 1 4)
  /\ calculateChecksum_range (map mkbyte [0xFF; 1; 2; 3; 0xFF]%Z) 4 1 = 0%Z.
Proof.
  split; [|split].
  - apply (proj1 (calculateChecksum_range_slice (map mkbyte [1; 2; 3]%Z) (-1) 2)).
  - apply (proj1 (proj2 (calculateChecksum_range_slice
                           (map mkbyte [0xFF; 1; 2; 3; 0xFF]%Z) 1 4))); lia.
  - apply (proj2 (proj2 (calculateChecksum_range_slice
                           (map mkbyte [0xFF; 1; 2; 3; 0xFF]%Z) 4 1))). lia.
Defined.

(** With a negative [start] the loop and [slice] part ways: on the bytes
    1, 2, 3 the range from -1 to 2 has checksum 1 xor 2, while
    [slice(-1, 2)] is empty. *)
Example calculateChecksum_negative_start :
  calculateChecksum_range (map mkbyte [1; 2; 3]%Z) (-1) 2 = 3%Z
  /\ calculateChecksum (slice (map mkbyte [1; 2; 3]%Z) (-1) 2) = 0%Z.
Proof. split; reflexivity. Qed.

(** X4. [unwrapMessage] looks only at the first and the last delimiter of
    what it is given.  Bytes before and after a wrapped frame are dropped
    without notice, and two wrapped frames given in one buffer are taken
    for a single frame with a valid checksum, whose body is the first body,
    its checksum byte, two delimiter bytes and the second body. *)
Theorem unwrapMessage_around_frames (a b pre post : Buffer) :
  flag ∉ pre -> flag ∉ post ->
  unwrapMessage (pre ++ wrapMessage a ++ post) = mkUnwrapped (Some a) true None
  /\ unwrapMessage (wrapMessage a ++ wrapMessage b)
     = mkUnwrapped
         (Some (a ++ [mkbyte (calculateChecksum a); flag; flag] ++ b)) true None.
Proof.
  intros Hpre Hpost. split.
  - rewrite wrapMessage_eq. cbn [app]. rewrite <- app_assoc. cbn [app].
    rewrite unwrap_framed by assumption.
    rewrite byteval_mkbyte_small by apply calculateChecksum_byte.
    now rewrite Z.eqb_refl.
  - rewrite !wrapMessage_eq.
    pose proof (unwrap_framed [] (a ++ [mkbyte (calculateChecksum a); flag; flag] ++ b) []
                  (mkbyte (calculateChecksum b))
                  (not_elem_of_nil flag) (not_elem_of_nil flag)) as H.
    cbn [app] in H. rewrite <- !app_assoc in H. cbn [app] in H.
    cbn [app]. rewrite <- !app_assoc. cbn [app]. rewrite H. f_equal.
    apply Z.eqb_eq.
    rewrite calculateChecksum_app, !calculateChecksum_cons.
    rewrite !byteval_mkbyte_small by apply calculateChecksum_byte.
    rewrite <- (Z.lxor_assoc (calculateChecksum a)).
    rewrite Z.lxor_nilpotent, Z.lxor_0_l.
    rewrite <- (Z.lxor_assoc (byteval flag)), Z.lxor_nilpotent, Z.lxor_0_l.
    reflexivity.
Qed.

Lemma unwrapMessage_around_frames_witness :
  unwrapMessage (map mkbyte [0; 9]%Z ++ wrapMessage (map mkbyte [1; 2]%Z) ++ map mkbyte [5]%Z)
  = mkUnwrapped (Some (map mkbyte [1; 2]%Z)) true None
  /\ unwrapMessage (wrapMessage (map mkbyte [1; 2]%Z) ++ wrapMessage (map mkbyte [7]%Z))
     = mkUnwrapped
         (Some (map mkbyte [1; 2]%Z
                ++ [mkbyte (calculateChecksum (map mkbyte [1; 2]%Z)); flag; flag]
                ++ map mkbyte [7]%Z)) true None.
Proof.
  apply (unwrapMessage_around_frames (map mkbyte [1; 2]%Z) (map mkbyte [7]%Z)
           (map mkbyte [0; 9]%Z) (map mkbyte [5]%Z)).
  - intros H. apply list_elem_of_In in H. vm_compute in H.
    repeat (destruct H as [H|H]; [discriminate H|]). exact H.
  - intros H. apply list_elem_of_In in H. vm_compute in H.
    repeat (destruct H as [H|H]; [discriminate H|]). exact H.
Defined.

End FrameExtras.

(** ** Writing and reading numbers *)

Section Numbers.
Import BufferParser ParserSpec EncodeSpec.

Lemma length_be_bytes (w : nat) (v : Z) : length (be_bytes w v) = w.
Proof. unfold be_bytes. now rewrite length_map, length_seq. Qed.

Lemma fold_bufset_over (g : nat -> Z) (off k s : nat) (done old rest : Buffer) :
  length done = off + s -> length old = k ->
  fold_left (fun b i => bufset b (Z.of_nat (off + i)) (g i)) (seq s k)
            (done ++ old ++ rest)
  = done ++ map (fun i => mkbyte (g i)) (seq s k) ++ rest.
Proof.
  revert s done old. induction k as [|k IH]; intros s done old Hd Ho.
  - destruct old; [reflexivity | discriminate Ho].
  - destruct old as [|x old]; [discriminate Ho|].
    cbn [seq fold_left map app]. rewrite <- Hd, bufset_middle.
    specialize (IH (S s) (done ++ [mkbyte (g s)]) old).
    rewrite <- !app_assoc in IH. cbn [app] in IH. apply IH.
    + rewrite length_app. cbn [length]. lia.
    + now injection Ho.
Qed.

(** A write of an unsigned number inside the buffer replaces [width] bytes
    by the big-endian bytes of the number. *)
Lemma writeUIntBE_ok (w : nat) (pre old rest : Buffer) (v : Z) :
  is_uint w v -> length old = w ->
  writeUIntBE w (pre ++ old ++ rest) v (length pre)
  = Ok (pre ++ be_bytes w v ++ rest).
Proof.
  intros [Hlo Hhi] Ho. unfold writeUIntBE.
  destruct (Z.leb_spec 0 v) as [_|?]; [|lia].
  destruct (Z.ltb_spec v (2 ^ (8 * Z.of_nat w))) as [_|?]; [|lia].
  destruct (Nat.leb_spec (length pre + w) (length (pre ++ old ++ rest))) as [_|Hl].
  - cbn [andb]. f_equal.
    exact (fold_bufset_over (fun i => Z.shiftr v (8 * Z.of_nat (w - 1 - i)))
             (length pre) w 0 pre old rest ltac:(lia) Ho).
  - rewrite !length_app in Hl. lia.
Qed.

Lemma writeUIntBE_range (w : nat) (buf : Buffer) (v : Z) (off : nat) :
  ~ is_uint w v -> writeUIntBE w buf v off = Throw out_of_range.
Proof.
  intros H. unfold writeUIntBE, is_uint in *.
  destruct (Z.leb_spec 0 v), (Z.ltb_spec v (2 ^ (8 * Z.of_nat w)));
    try reflexivity. lia.
Qed.

Lemma be_value_snoc (l : Buffer) (b : byte) :
  be_value (l ++ [b]) = (be_value l * 256 + byteval b)%Z.
Proof. unfold be_value. rewrite fold_left_app. reflexivity. Qed.

Lemma be_value_1 (v : Z) : is_uint 1 v -> be_value (be_bytes 1 v) = v.
Proof.
  unfold is_uint. change (2 ^ (8 * Z.of_nat 1))%Z with 256%Z. intros H.
  unfold be_bytes, be_value. cbn [seq map fold_left].
  rewrite byteval_mkbyte. change (8 * Z.of_nat (1 - 1 - 0))%Z with 0%Z.
  rewrite Z.shiftr_0_r, Z.mod_small by lia. lia.
Qed.

Lemma be_value_2 (v : Z) : is_uint 2 v -> be_value (be_bytes 2 v) = v.
Proof.
  unfold is_uint. change (2 ^ (8 * Z.of_nat 2))%Z with 65536%Z. intros H.
  unfold be_bytes, be_value. cbn [seq map fold_left].
  rewrite !byteval_mkbyte.
  change (8 * Z.of_nat (2 - 1 - 0))%Z with 8%Z.
  change (8 * Z.of_nat (2 - 1 - 1))%Z with 0%Z.
  rewrite Z.shiftr_0_r, Z.shiftr_div_pow2 by lia. change (2 ^ 8)%Z with 256%Z.
  pose proof (Z.div_mod v 256 ltac:(lia)) as Hd.
  pose proof (Z.mod_pos_bound v 256 ltac:(lia)) as Hm.
  assert (0 <= v / 256 < 256)%Z as Hq
    by (split; [apply Z.div_pos; lia | apply Z.div_lt_upper_bound; lia]).
  rewrite (Z.mod_small (v / 256)) by lia. lia.
Qed.

Lemma be_value_4 (v : Z) : is_uint 4 v -> be_value (be_bytes 4 v) = v.
Proof.
  unfold is_uint. change (2 ^ (8 * Z.of_nat 4))%Z with 4294967296%Z. intros H.
  unfold be_bytes, be_value. cbn [seq map fold_left].
  rewrite !byteval_mkbyte.
  change (8 * Z.of_nat (4 - 1 - 0))%Z with 24%Z.
  change (8 * Z.of_nat (4 - 1 - 1))%Z with 16%Z.
  change (8 * Z.of_nat (4 - 1 - 2))%Z with 8%Z.
  change (8 * Z.of_nat (4 - 1 - 3))%Z with 0%Z.
  rewrite Z.shiftr_0_r, !Z.shiftr_div_pow2 by lia.
  change (2 ^ 8)%Z with 256%Z. change (2 ^ 16)%Z with (256 * 256)%Z.
  change (2 ^ 24)%Z with (256 * (256 * 256))%Z.
  rewrite <- !Z.div_div by lia.
  set (q1 := (v / 256)%Z). set (q2 := (q1 / 256)%Z). set (q3 := (q2 / 256)%Z).
  pose proof (Z.div_mod v 256 ltac:(lia)) as Hd1. fold q1 in Hd1.
  pose proof (Z.div_mod q1 256 ltac:(lia)) as Hd2. fold q2 in Hd2.
  pose proof (Z.div_mod q2 256 ltac:(lia)) as Hd3. fold q3 in Hd3.
  pose proof (Z.mod_pos_bound v 256 ltac:(lia)).
  pose proof (Z.mod_pos_bound q1 256 ltac:(lia)).
  pose proof (Z.mod_pos_bound q2 256 ltac:(lia)).
  assert (0 <= q3 < 256)%Z by lia.
  rewrite (Z.mod_small q3) by lia. lia.
Qed.

(** The bytes under a cursor that stands before [enc]. *)
Lemma window_app (pre enc rest : Buffer) :
  window (mk (pre ++ enc ++ rest) (length pre)) (length enc) = enc.
Proof.
  unfold window. cbn [buffer offset]. now rewrite drop_app_length, take_app_length.
Qed.

Lemma advance_app (pre enc rest : Buffer) :
  advance (mk (pre ++ enc ++ rest) (length pre)) (length enc)
  = mk ((pre ++ enc) ++ rest) (length (pre ++ enc)).
Proof. unfold advance. cbn [buffer offset]. now rewrite app_assoc, length_app. Qed.

Lemma in_bounds_app (pre enc rest : Buffer) :
  offset (mk (pre ++ enc ++ rest) (length pre)) + length enc
  <= length (buffer (mk (pre ++ enc ++ rest) (length pre))).
Proof. cbn [buffer offset]. rewrite !length_app. lia. Qed.

Lemma readUInt8_app (pre enc rest : Buffer) :
  length enc = 1 ->
  readUInt8 (mk (pre ++ enc ++ rest) (length pre))
  = Ok (be_value enc, mk ((pre ++ enc) ++ rest) (length (pre ++ enc))).
Proof.
  intros H. rewrite readUInt8_ok by (rewrite <- H; apply in_bounds_app).
  rewrite <- H, window_app, advance_app. reflexivity.
Qed.

Lemma readUInt16BE_app (pre enc rest : Buffer) :
  length enc = 2 ->
  readUInt16BE (mk (pre ++ enc ++ rest) (length pre))
  = Ok (be_value enc, mk ((pre ++ enc) ++ rest) (length (pre ++ enc))).
Proof.
  intros H. rewrite readUInt16BE_ok by (rewrite <- H; apply in_bounds_app).
  rewrite <- H, window_app, advance_app. reflexivity.
Qed.

Lemma readUInt32BE_app (pre enc rest : Buffer) :
  length enc = 4 ->
  readUInt32BE (mk (pre ++ enc ++ rest) (length pre))
  = Ok (be_value enc, mk ((pre ++ enc) ++ rest) (length (pre ++ enc))).
Proof.
  intros H. rewrite readUInt32BE_ok by (rewrite <- H; apply in_bounds_app).
  rewrite <- H, window_app, advance_app. reflexivity.
Qed.

Lemma readBCD_app (pre enc rest : Buffer) :
  readBCD (length enc) (mk (pre ++ enc ++ rest) (length pre))
  = Ok (bcd_text enc, mk ((pre ++ enc) ++ rest) (length (pre ++ enc))).
Proof.
  rewrite readBCD_ok by apply in_bounds_app.
  rewrite window_app, advance_app. reflexivity.
Qed.

Lemma readASCII_app (pre enc rest : Buffer) :
  readASCII (length enc) (mk (pre ++ enc ++ rest) (length pre))
  = Ok (strip_nul (ascii_decode enc), mk ((pre ++ enc) ++ rest) (length (pre ++ enc))).
Proof.
  rewrite readASCII_ok by apply in_bounds_app.
  rewrite window_app, advance_app. reflexivity.
Qed.

Lemma readBytes_app (pre enc rest : Buffer) :
  readBytes (length enc) (mk (pre ++ enc ++ rest) (length pre))
  = Ok (enc, mk ((pre ++ enc) ++ rest) (length (pre ++ enc))).
Proof.
  rewrite readBytes_ok by apply in_bounds_app.
  rewrite window_app, advance_app. reflexivity.
Qed.

End Numbers.

(** ** BCD text and ASCII text, there and back *)

Section Text.
Import BufferParser ParserSpec EncodeSpec.

Lemma stringToBCD_exact (s : string) (n : nat) :
  String.length s = 2 * n ->
  MessageSerializer.stringToBCD s n = pack_digits (list_ascii_of_string s).
Proof.
  intros H. rewrite stringToBCD_map. unfold charAt.
  erewrite map_ext; [|intros i; rewrite !get_chars; reflexivity].
  unfold padStart. replace (n * 2 - String.length s) with 0 by lia.
  cbn [repeat_string]. rewrite append_nil_l.
  rewrite pack_by_index by (rewrite length_chars; lia).
  rewrite take_ge by (rewrite length_chars; lia). reflexivity.
Qed.

Lemma decimal_char_cases (a : ascii) :
  decimal_char a ->
  a = "0"%char \/ a = "1"%char \/ a = "2"%char \/ a = "3"%char \/ a = "4"%char
  \/ a = "5"%char \/ a = "6"%char \/ a = "7"%char \/ a = "8"%char \/ a = "9"%char.
Proof.
  unfold decimal_char. intros H. rewrite <- (ascii_N_embedding a).
  assert (N_of_ascii a = 48 \/ N_of_ascii a = 49 \/ N_of_ascii a = 50
          \/ N_of_ascii a = 51 \/ N_of_ascii a = 52 \/ N_of_ascii a = 53
          \/ N_of_ascii a = 54 \/ N_of_ascii a = 55 \/ N_of_ascii a = 56
          \/ N_of_ascii a = 57)%N as E by lia.
  repeat (destruct E as [->|E]; [tauto|]). rewrite E. tauto.
Qed.

Lemma toString_digit (a : ascii) :
  decimal_char a ->
  toString (digit_value a) = String a "" /\ (0 <= digit_value a <= 9)%Z.
Proof.
  intros H. apply decimal_char_cases in H.
  repeat (destruct H as [->|H]; [split; [reflexivity | vm_compute; split; discriminate]|]).
  subst a. split; [reflexivity | vm_compute; split; discriminate].
Qed.

Lemma nibbles_of_packed (h l : Z) :
  (0 <= h <= 9)%Z -> (0 <= l <= 9)%Z ->
  high_nibble (mkbyte (16 * h + l)) = h /\ low_nibble (mkbyte (16 * h + l)) = l.
Proof.
  intros Hh Hl. unfold high_nibble, low_nibble.
  rewrite byteval_mkbyte_small by lia. split.
  - symmetry. apply (Z.div_unique _ 16 h l); lia.
  - symmetry. apply (Z.mod_unique _ 16 h l); lia.
Qed.

Lemma bcd_pair_packed (h l : ascii) :
  decimal_char h -> decimal_char l ->
  bcd_pair (mkbyte (16 * digit_value h + digit_value l)) = String h (String l "").
Proof.
  intros Hh Hl.
  destruct (toString_digit h Hh) as [Th Rh], (toString_digit l Hl) as [Tl Rl].
  unfold bcd_pair. destruct (nibbles_of_packed _ _ Rh Rl) as [-> ->].
  rewrite Th, Tl. reflexivity.
Qed.

Lemma bcd_text_pack (n : nat) (chars : list ascii) :
  length chars = 2 * n -> Forall decimal_char chars ->
  bcd_text (pack_digits chars) = string_of_list_ascii chars.
Proof.
  revert chars. induction n as [|n IH]; intros chars Hl Hd.
  - destruct chars; [reflexivity | discriminate Hl].
  - destruct chars as [|h [|l rest]]; cbn [length] in Hl; try lia.
    inversion Hd as [|? ? Hh Hd']; subst. inversion Hd' as [|? ? Hlo Hd'']; subst.
    cbn [pack_digits bcd_text string_of_list_ascii].
    rewrite bcd_pair_packed by assumption. rewrite !append_cons, append_nil_l.
    rewrite IH by (try assumption; lia). reflexivity.
Qed.

Lemma length_pack_digits (n : nat) (chars : list ascii) :
  length chars = 2 * n -> length (pack_digits chars) = n.
Proof.
  revert chars. induction n as [|n IH]; intros chars Hl.
  - destruct chars; [reflexivity | discriminate Hl].
  - destruct chars as [|h [|l rest]]; cbn [length] in Hl; try lia.
    cbn [pack_digits length]. rewrite IH by lia. reflexivity.
Qed.

(** The bytes that a decimal string of [2 * n] characters is encoded to,
    and the text read back from them. *)
Lemma bcd_encode_decode (s : string) (n : nat) :
  decimal s -> String.length s = 2 * n ->
  length (MessageSerializer.stringToBCD s n) = n
  /\ bcd_text (MessageSerializer.stringToBCD s n) = s.
Proof.
  intros Hd Hl. rewrite stringToBCD_exact by exact Hl. split.
  - apply length_pack_digits. now rewrite length_chars.
  - rewrite (bcd_text_pack n) by (try exact Hd; now rewrite length_chars).
    apply string_of_list_ascii_of_string.
Qed.

Lemma toString_small (z : Z) :
  (0 <= z <= 9)%Z ->
  exists a, toString z = String a "" /\ digit_value a = z.
Proof.
  intros H.
  assert (z = 0 \/ z = 1 \/ z = 2 \/ z = 3 \/ z = 4 \/ z = 5 \/ z = 6 \/ z = 7
          \/ z = 8 \/ z = 9)%Z as E by lia.
  repeat (destruct E as [->|E]; [eexists; split; reflexivity|]).
  subst z. eexists; split; reflexivity.
Qed.

Lemma pack_bcd_text (bytes : Buffer) :
  decimal_nibbles bytes ->
  pack_digits (list_ascii_of_string (bcd_text bytes)) = bytes.
Proof.
  induction 1 as [|b bytes [Hh Hl] _ IH]; [reflexivity|].
  destruct (nibble_bounds b) as [Bh Bl].
  destruct (toString_small (high_nibble b) ltac:(lia)) as (ch & Th & Vh).
  destruct (toString_small (low_nibble b) ltac:(lia)) as (cl & Tl & Vl).
  cbn [bcd_text]. unfold bcd_pair. rewrite Th, Tl.
  rewrite append_assoc, !append_cons, !append_nil_l.
  cbn [list_ascii_of_string pack_digits]. rewrite IH, Vh, Vl. f_equal.
  unfold high_nibble, low_nibble.
  rewrite <- (Z.div_mod (byteval b) 16) by lia. apply mkbyte_byteval.
Qed.

(** X5. BCD text goes through [stringToBCD] and [readBCD] unchanged in both
    directions: a string of [2 * n] decimal digits is encoded to [n] bytes
    from which [readBCD n] reads the same string, and bytes whose nibbles
    are all at most 9 are encoded back from the text read from them. *)
Theorem bcd_roundtrip (s : string) (n : nat) (bytes : Buffer) :
  decimal s -> String.length s = 2 * n -> decimal_nibbles bytes ->
  readBCD n (new (MessageSerializer.stringToBCD s n))
  = Ok (s, mk (MessageSerializer.stringToBCD s n) n)
  /\ MessageSerializer.stringToBCD (bcd_text bytes) (length bytes) = bytes.
Proof.
  intros Hd Hl Hn. split.
  - destruct (bcd_encode_decode s n Hd Hl) as [Hlen Htext].
    pose proof (readBCD_app [] (MessageSerializer.stringToBCD s n) []) as H.
    rewrite Hlen in H. cbn [app length] in H. rewrite app_nil_r in H.
    unfold new. rewrite H, Htext, Hlen. reflexivity.
  - rewrite stringToBCD_exact.
    + apply pack_bcd_text, Hn.
    + destruct (length_bcd_text bytes) as [_ H]. apply H, Hn.
Qed.

Lemma bcd_roundtrip_witness :
  readBCD 3 (new (MessageSerializer.stringToBCD "012345" 3))
  = Ok ("012345", mk (MessageSerializer.stringToBCD "012345" 3) 3)
  /\ MessageSerializer.stringToBCD (bcd_text (map mkbyte [0x23; 0x59]%Z))
                                   (length (map mkbyte [0x23; 0x59]%Z))
     = map mkbyte [0x23; 0x59]%Z.
Proof.
  apply (bcd_roundtrip "012345" 3 (map mkbyte [0x23; 0x59]%Z)).
  - repeat constructor; vm_compute; discriminate.
  - reflexivity.
  - repeat constructor; vm_compute; discriminate.
Defined.

Lemma plain_char_roundtrip (a : ascii) :
  plain_char a ->
  ascii_of_N (Z.to_N (Z.land (byteval (mkbyte (Z.of_N (N_of_ascii a)))) 0x7F)) = a
  /\ Ascii.eqb a zero = false.
Proof.
  unfold plain_char. intros H. split.
  - rewrite byteval_mkbyte_small by lia.
    change 0x7F%Z with (Z.ones 7). rewrite Z.land_ones by lia.
    change (2 ^ 7)%Z with 128%Z. rewrite Z.mod_small by lia.
    rewrite N2Z.id. apply ascii_N_embedding.
  - apply Ascii.eqb_neq. intros ->. cbn in H. lia.
Qed.

Lemma ascii_decode_app (a b : Buffer) :
  ascii_decode (a ++ b) = ascii_decode a +:+ ascii_decode b.
Proof.
  unfold ascii_decode. rewrite map_app.
  induction (map _ a) as [|x l IH]; [reflexivity|].
  cbn [app string_of_list_ascii]. rewrite append_cons. now rewrite IH.
Qed.

Lemma strip_nul_app (a b : string) : strip_nul (a +:+ b) = strip_nul a +:+ strip_nul b.
Proof.
  induction a as [|x a IH]; [reflexivity|]. rewrite append_cons. cbn [strip_nul].
  destruct (Ascii.eqb x zero); [exact IH|]. rewrite append_cons. now rewrite IH.
Qed.

Lemma strip_nul_zeros (k : nat) :
  strip_nul (ascii_decode (replicate k (mkbyte 0))) = "".
Proof. induction k as [|k IH]; [reflexivity|]. exact IH. Qed.

Lemma plain_decode (chars : list ascii) :
  Forall plain_char chars ->
  strip_nul (ascii_decode (ascii_encode (string_of_list_ascii chars)))
  = string_of_list_ascii chars.
Proof.
  unfold ascii_decode, ascii_encode.
  rewrite list_ascii_of_string_of_list_ascii, map_map.
  induction 1 as [|a chars Ha _ IH]; [reflexivity|].
  destruct (plain_char_roundtrip a Ha) as [Hr Hz].
  cbn [map string_of_list_ascii strip_nul]. rewrite Hr, Hz. now rewrite IH.
Qed.

Lemma length_ascii_encode (s : string) : length (ascii_encode s) = String.length s.
Proof. unfold ascii_encode. now rewrite length_map, length_chars. Qed.

(** The bytes of a string field of fixed length: the first [len] characters,
    then NUL bytes up to [len]. *)
Lemma fixed_string_bytes (s : string) (len : nat) :
  copy_range (ascii_encode s) (alloc len) 0 0 (Nat.min (String.length s) len)
  = take len (ascii_encode s) ++ replicate (len - String.length s) (mkbyte 0).
Proof.
  unfold copy_range, copy, alloc.
  rewrite Nat.sub_0_r, drop_0, take_0, Nat.sub_0_r, length_replicate. cbn [app].
  rewrite length_take, length_ascii_encode.
  rewrite drop_replicate, take_take.
  replace (Nat.min (Nat.min (Nat.min (String.length s) len) (String.length s)) len
           `min` Nat.min (String.length s) len)
    with (Nat.min len (String.length s)) by lia.
  replace (0 + Nat.min (Nat.min (String.length s) len) (String.length s) `min` len)
    with (Nat.min len (String.length s)) by lia.
  f_equal.
  - destruct (Nat.le_gt_cases len (String.length s)).
    + now rewrite Nat.min_l by lia.
    + rewrite Nat.min_r by lia.
      rewrite !take_ge by (rewrite length_ascii_encode; lia). reflexivity.
  - f_equal. lia.
Qed.

End Text.

(** ** Location and parameter records, there and back *)

Section Records.
Import BufferParser ParserSpec EncodeSpec MessageSerializer.

Lemma writeUIntBE_zeros (w k : nat) (done : Buffer) (v : Z) (off : nat) :
  is_uint w v -> w <= k -> off = length done ->
  writeUIntBE w (done ++ replicate k (mkbyte 0)) v off
  = Ok ((done ++ be_bytes w v) ++ replicate (k - w) (mkbyte 0)).
Proof.
  intros Hv Hk ->.
  replace k with (w + (k - w)) at 1 by lia. rewrite replicate_add.
  rewrite writeUIntBE_ok by (try exact Hv; apply length_replicate).
  now rewrite app_assoc.
Qed.

Lemma copy_tail (src done : Buffer) (off : nat) :
  off = length done ->
  copy src (done ++ replicate (length src) (mkbyte 0)) off = done ++ src.
Proof.
  intros ->. unfold copy.
  rewrite length_app, length_replicate, take_app_length.
  replace (length done + length src - length done) with (length src) by lia.
  rewrite Nat.min_id, firstn_all, drop_app_ge by lia.
  replace (length done + length src - length done) with (length src) by lia.
  rewrite drop_replicate, Nat.sub_diag. cbn [replicate]. now rewrite app_nil_r.
Qed.

Lemma timestamp_kept (ts : string) :
  String.length ts = 12 -> timestamp_or_default ts = ts.
Proof.
  intros H. unfold timestamp_or_default.
  destruct (String.eqb_spec ts ""); [subst; discriminate H | reflexivity].
Qed.

Lemma serializeLocation_bytes (l : Location.t) :
  valid_location l -> serializeLocation l = Ok (location_bytes l).
Proof.
  intros (Ha & Hs & Hlat & Hlon & Halt & Hspd & Hdir & Hts & Hlen).
  unfold serializeLocation, bind, writeUInt32BE, writeUInt16BE, alloc.
  rewrite (writeUIntBE_zeros 4 28 []) by (try assumption; try lia; reflexivity).
  cbv beta iota.
  rewrite (writeUIntBE_zeros 4 24)
    by (try assumption; try lia; rewrite ?length_app, ?length_be_bytes; reflexivity).
  cbv beta iota.
  rewrite (writeUIntBE_zeros 4 20)
    by (try assumption; try lia; rewrite ?length_app, ?length_be_bytes; reflexivity).
  cbv beta iota.
  rewrite (writeUIntBE_zeros 4 16)
    by (try assumption; try lia; rewrite ?length_app, ?length_be_bytes; reflexivity).
  cbv beta iota.
  rewrite (writeUIntBE_zeros 2 12)
    by (try assumption; try lia; rewrite ?length_app, ?length_be_bytes; reflexivity).
  cbv beta iota.
  rewrite (writeUIntBE_zeros 2 10)
    by (try assumption; try lia; rewrite ?length_app, ?length_be_bytes; reflexivity).
  cbv beta iota.
  rewrite (writeUIntBE_zeros 2 8)
    by (try assumption; try lia; rewrite ?length_app, ?length_be_bytes; reflexivity).
  cbv beta iota.
  rewrite timestamp_kept by exact Hlen.
  destruct (bcd_encode_decode (Location.timestamp l) 6 Hts Hlen) as [Hl6 _].
  change (8 - 2) with 6. rewrite <- Hl6 at 1.
  rewrite copy_tail by (rewrite ?length_app, ?length_be_bytes; reflexivity).
  unfold location_bytes. cbn [app]. now rewrite <- !app_assoc.
Qed.

Lemma length_location_bytes (l : Location.t) :
  valid_location l -> length (location_bytes l) = 28.
Proof.
  intros (_ & _ & _ & _ & _ & _ & _ & Hts & Hlen).
  destruct (bcd_encode_decode (Location.timestamp l) 6 Hts Hlen) as [Hl6 _].
  unfold location_bytes. rewrite !length_app, !length_be_bytes, Hl6. reflexivity.
Qed.

Lemma readBCD_at (n : nat) (pre enc rest : Buffer) :
  length enc = n ->
  readBCD n (mk (pre ++ enc ++ rest) (length pre))
  = Ok (bcd_text enc, mk ((pre ++ enc) ++ rest) (length (pre ++ enc))).
Proof. intros <-. apply readBCD_app. Qed.

Lemma readASCII_at (n : nat) (pre enc rest : Buffer) :
  length enc = n ->
  readASCII n (mk (pre ++ enc ++ rest) (length pre))
  = Ok (strip_nul (ascii_decode enc), mk ((pre ++ enc) ++ rest) (length (pre ++ enc))).
Proof. intros <-. apply readASCII_app. Qed.

Lemma readBytes_at (n : nat) (pre enc rest : Buffer) :
  length enc = n ->
  readBytes n (mk (pre ++ enc ++ rest) (length pre))
  = Ok (enc, mk ((pre ++ enc) ++ rest) (length (pre ++ enc))).
Proof. intros <-. apply readBytes_app. Qed.

Lemma location_eta (l : Location.t) :
  Location.mk (Location.alarmFlag l) (Location.statusFlag l) (Location.latitude l)
              (Location.longitude l) (Location.altitude l) (Location.speed l)
              (Location.direction l) (Location.timestamp l) = l.
Proof. destruct l. reflexivity. Qed.

Lemma deserializeLocation_bytes (l : Location.t) (pre post : Buffer) :
  valid_location l ->
  deserializeLocation (mk (pre ++ location_bytes l ++ post) (length pre))
  = Ok (l, mk ((pre ++ location_bytes l) ++ post) (length (pre ++ location_bytes l))).
Proof.
  intros (Ha & Hs & Hlat & Hlon & Halt & Hspd & Hdir & Hts & Hlen).
  destruct (bcd_encode_decode (Location.timestamp l) 6 Hts Hlen) as [Hl6 Htext].
  unfold location_bytes, deserializeLocation, mbind, ret.
  rewrite <- !app_assoc.
  rewrite readUInt32BE_app by apply length_be_bytes. cbv beta iota.
  rewrite readUInt32BE_app by apply length_be_bytes. cbv beta iota.
  rewrite readUInt32BE_app by apply length_be_bytes. cbv beta iota.
  rewrite readUInt32BE_app by apply length_be_bytes. cbv beta iota.
  rewrite readUInt16BE_app by apply length_be_bytes. cbv beta iota.
  rewrite readUInt16BE_app by apply length_be_bytes. cbv beta iota.
  rewrite readUInt16BE_app by apply length_be_bytes. cbv beta iota.
  rewrite readBCD_at by exact Hl6. cbv beta iota.
  rewrite !be_value_4, !be_value_2, Htext by assumption.
  rewrite location_eta. do 2 f_equal. rewrite <- !app_assoc. reflexivity.
Qed.

(** X6. A location record whose numbers fit their fields (32 bits for the
    flags and coordinates, 16 bits for altitude, speed and direction) and
    whose timestamp has twelve decimal digits is serialized to exactly 28
    bytes, from which [deserializeLocation] reads the same record and
    moves the cursor 28 bytes on, whatever surrounds these bytes. *)
Theorem location_roundtrip (l : Location.t) (pre post : Buffer) :
  valid_location l ->
  exists bytes,
    serializeLocation l = Ok bytes
    /\ length bytes = 28
    /\ deserializeLocation (mk (pre ++ bytes ++ post) (length pre))
       = Ok (l, mk (pre ++ bytes ++ post) (length pre + 28)).
Proof.
  intros H. exists (location_bytes l).
  split; [apply serializeLocation_bytes, H|].
  split; [apply length_location_bytes, H|].
  rewrite deserializeLocation_bytes by exact H.
  rewrite length_app, length_location_bytes by exact H.
  now rewrite <- app_assoc.
Qed.

Lemma location_roundtrip_witness :
  exists bytes,
    serializeLocation Samples.location_a = Ok bytes
    /\ length bytes = 28
    /\ deserializeLocation (mk (map mkbyte [2; 0]%Z ++ bytes ++ map mkbyte [9]%Z) 2)
       = Ok (Samples.location_a,
             mk (map mkbyte [2; 0]%Z ++ bytes ++ map mkbyte [9]%Z) 30).
Proof.
  apply (location_roundtrip Samples.location_a (map mkbyte [2; 0]%Z) (map mkbyte [9]%Z)).
  repeat split; try (vm_compute; discriminate);
    repeat constructor; vm_compute; discriminate.
Defined.

End Records.

(** ** Every field, and whole messages, there and back *)

Section MessageRoundTrip.
Import BufferParser ParserSpec Schema EncodeSpec MessageSerializer.

Lemma serializeParameter_bytes (p : Param.t) :
  valid_parameter p -> serializeParameter p = Ok (parameter_bytes p).
Proof.
  intros (Hid & Hlen & Hmax).
  assert (is_uint 1 (Param.length p)) as Hl1.
  { unfold is_uint. change (2 ^ (8 * Z.of_nat 1))%Z with 256%Z. lia. }
  unfold serializeParameter, bind, writeUInt32BE, writeUInt8, alloc.
  rewrite (writeUIntBE_zeros 4 (5 + List.length (Param.value p)) [])
    by (try assumption; try lia; reflexivity).
  cbv beta iota.
  rewrite (writeUIntBE_zeros 1 (5 + List.length (Param.value p) - 4))
    by (try assumption; try lia; rewrite ?length_app, ?length_be_bytes; reflexivity).
  cbv beta iota.
  replace (5 + List.length (Param.value p) - 4 - 1) with (List.length (Param.value p))
    by lia.
  rewrite copy_tail by (rewrite ?length_app, ?length_be_bytes; reflexivity).
  unfold parameter_bytes. cbn [app]. now rewrite <- !app_assoc.
Qed.

Lemma param_eta (p : Param.t) :
  Param.mk (Param.id p) (Param.length p) (Param.value p) = p.
Proof. destruct p. reflexivity. Qed.

Lemma serializeItems_parameters (ps : list Param.t) :
  Forall valid_parameter ps ->
  serializeItems item_parameter (map ItemParameter ps)
  = Ok (concat (map parameter_bytes ps)).
Proof.
  induction 1 as [|p ps Hp _ IH]; [reflexivity|].
  cbn [map serializeItems concat]. rewrite serializeParameter_bytes by exact Hp.
  unfold bind in *. rewrite IH. reflexivity.
Qed.

Lemma parameter_loop_bytes (ps : list Param.t) (fuel : nat) (acc : list Item)
    (pre : Buffer) :
  Forall valid_parameter ps -> List.length ps <= fuel ->
  parameter_loop fuel acc (mk (pre ++ concat (map parameter_bytes ps)) (List.length pre))
  = Ok (acc ++ map ItemParameter ps,
        mk (pre ++ concat (map parameter_bytes ps))
           (List.length (pre ++ concat (map parameter_bytes ps)))).
Proof.
  intros Hv. revert fuel acc pre.
  induction Hv as [|p ps Hp _ IH]; intros fuel acc pre Hf.
  - cbn [map concat]. rewrite !app_nil_r.
    destruct fuel; cbn [parameter_loop]; unfold remaining; cbn [buffer offset];
      (destruct (Z.leb_spec 5 (Z.of_nat (List.length pre) - Z.of_nat (List.length pre)));
       [lia | reflexivity]).
  - destruct fuel as [|fuel]; [cbn in Hf; lia|].
    destruct Hp as (Hid & Hlen & Hmax).
    assert (is_uint 1 (Param.length p)) as Hl1.
    { unfold is_uint. change (2 ^ (8 * Z.of_nat 1))%Z with 256%Z. lia. }
    cbn [map concat parameter_loop]. unfold remaining. cbn [buffer offset].
    change (parameter_bytes p)
      with (be_bytes 4 (Param.id p) ++ be_bytes 1 (Param.length p) ++ Param.value p).
    rewrite <- !app_assoc.
    destruct (Z.leb_spec 5 (Z.of_nat
                (List.length (pre ++ be_bytes 4 (Param.id p) ++ be_bytes 1 (Param.length p)
                              ++ Param.value p ++ concat (map parameter_bytes ps)))
                - Z.of_nat (List.length pre))) as [_|Hlt].
    2:{ rewrite !length_app, !length_be_bytes in Hlt. lia. }
    unfold mbind.
    rewrite readUInt32BE_app by apply length_be_bytes. cbv beta iota.
    rewrite readUInt8_app by apply length_be_bytes. cbv beta iota.
    rewrite be_value_4, be_value_1 by assumption.
    rewrite readBytes_at by lia. cbv beta iota.
    rewrite param_eta.
    specialize (IH fuel (acc ++ [ItemParameter p])
                  (((pre ++ be_bytes 4 (Param.id p)) ++ be_bytes 1 (Param.length p))
                   ++ Param.value p)).
    rewrite IH by (cbn [List.length] in Hf; lia).
    rewrite <- !app_assoc. reflexivity.
Qed.

Lemma zeros_decode (s : string) (k : nat) :
  plain s ->
  strip_nul (ascii_decode (ascii_encode s ++ replicate k (mkbyte 0))) = s.
Proof.
  intros H. rewrite ascii_decode_app, strip_nul_app, strip_nul_zeros, append_nil_r.
  pose proof (plain_decode (list_ascii_of_string s) H) as Hp.
  rewrite string_of_list_ascii_of_string in Hp. exact Hp.
Qed.

(** A field and a value it can carry: the bytes it is serialized to are
    deserialized to the same value, wherever they stand in a buffer. *)
Lemma field_roundtrip (f : FieldSchema) (v : Value) :
  encodable f v ->
  exists enc,
    serializeField f v = Ok enc
    /\ forall pre post,
        (takes_rest f = true -> post = []) ->
        deserializeField f (mk (pre ++ enc ++ post) (List.length pre))
        = Ok (v, mk ((pre ++ enc) ++ post) (List.length (pre ++ enc))).
Proof.
  unfold encodable, serializeField, deserializeField, takes_rest.
  destruct (type f) eqn:Ht; destruct v as [z|s|b|l|items]; try contradiction; intros He.
  - exists (be_bytes 1 z). split.
    + unfold writeUInt8, alloc.
      rewrite (writeUIntBE_zeros 1 1 []) by (try exact He; try lia; reflexivity).
      cbn [app replicate Nat.sub]. now rewrite app_nil_r.
    + intros pre post _. unfold mbind, ret.
      rewrite readUInt8_app by apply length_be_bytes. now rewrite be_value_1.
  - exists (be_bytes 2 z). split.
    + unfold writeUInt16BE, alloc.
      rewrite (writeUIntBE_zeros 2 2 []) by (try exact He; try lia; reflexivity).
      cbn [app replicate Nat.sub]. now rewrite app_nil_r.
    + intros pre post _. unfold mbind, ret.
      rewrite readUInt16BE_app by apply length_be_bytes. now rewrite be_value_2.
  - exists (be_bytes 4 z). split.
    + unfold writeUInt32BE, alloc.
      rewrite (writeUIntBE_zeros 4 4 []) by (try exact He; try lia; reflexivity).
      cbn [app replicate Nat.sub]. now rewrite app_nil_r.
    + intros pre post _. unfold mbind, ret.
      rewrite readUInt32BE_app by apply length_be_bytes. now rewrite be_value_4.
  - destruct He as [Hp Hl]. destruct (variable f).
    + exists (ascii_encode s). split; [reflexivity|].
      intros pre post Hpost. rewrite (Hpost eq_refl), !app_nil_r.
      unfold mbind, ret, remaining. cbn [buffer offset].
      replace (Z.to_nat (Z.of_nat (List.length (pre ++ ascii_encode s))
                         - Z.of_nat (List.length pre)))
        with (List.length (ascii_encode s)) by (rewrite length_app; lia).
      pose proof (readASCII_app pre (ascii_encode s) []) as H.
      rewrite !app_nil_r in H. rewrite H.
      pose proof (zeros_decode s 0 Hp) as Hz. cbn [replicate] in Hz.
      rewrite app_nil_r in Hz. now rewrite Hz.
    + specialize (Hl eq_refl).
      exists (ascii_encode s ++ replicate (length f - String.length s) (mkbyte 0)).
      split.
      * rewrite fixed_string_bytes.
        rewrite take_ge by (rewrite length_ascii_encode; lia). reflexivity.
      * intros pre post _. unfold mbind, ret.
        rewrite readASCII_at
          by (rewrite length_app, length_ascii_encode, length_replicate; lia).
        now rewrite zeros_decode.
  - destruct He as [Hd Hl].
    destruct (bcd_encode_decode s (length f) Hd Hl) as [Hlen Htext].
    exists (stringToBCD s (length f)). split; [reflexivity|].
    intros pre post _. unfold mbind, ret.
    rewrite readBCD_at by exact Hlen. now rewrite Htext.
  - exists b. split; [reflexivity|].
    destruct (variable f).
    + intros pre post Hpost. rewrite (Hpost eq_refl), !app_nil_r.
      unfold mbind, ret, remaining. cbn [buffer offset].
      replace (Z.to_nat (Z.of_nat (List.length (pre ++ b)) - Z.of_nat (List.length pre)))
        with (List.length b) by (rewrite length_app; lia).
      pose proof (readBytes_app pre b []) as H.
      rewrite !app_nil_r in H. now rewrite H.
    + intros pre post _. unfold mbind, ret.
      now rewrite readBytes_at by (apply He; reflexivity).
  - exists (location_bytes l). split; [apply serializeLocation_bytes, He|].
    intros pre post _. unfold mbind, ret.
    now rewrite deserializeLocation_bytes.
  - unfold serializeArray, deserializeArray.
    destruct (itemType f).
    + destruct He as (Hc & l & -> & Hl). rewrite Hc.
      exists (location_bytes l). split.
      * cbn [serializeItems]. rewrite serializeLocation_bytes by exact Hl.
        cbn [bind]. now rewrite app_nil_r.
      * intros pre post _.
        unfold mbind, ret. change (Z.to_nat 1) with 1%nat. cbn [location_loop app].
        unfold mbind, ret. now rewrite deserializeLocation_bytes.
    + assert (exists ps, items = map ItemParameter ps /\ Forall valid_parameter ps)
        as (ps & -> & Hps).
      { clear Ht. induction He as [|item items (p & -> & Hp) _ (ps & -> & Hps)].
        - exists []. split; [reflexivity | constructor].
        - exists (p :: ps). split; [reflexivity | now constructor]. }
      exists (concat (map parameter_bytes ps)). split.
      * apply serializeItems_parameters, Hps.
      * intros pre post Hpost. rewrite (Hpost eq_refl), !app_nil_r.
        unfold mbind, ret. cbn [buffer].
        rewrite (parameter_loop_bytes ps _ [] pre Hps).
        -- reflexivity.
        -- rewrite length_app.
           assert (List.length ps <= List.length (concat (map parameter_bytes ps))).
           { clear. induction ps as [|p ps IH]; [reflexivity|].
             cbn [map concat List.length]. unfold parameter_bytes at 1.
             rewrite !length_app, !length_be_bytes. lia. }
           lia.
    + subst items. exists []. split; [reflexivity|].
      intros pre post _. unfold mbind, ret. cbn [app]. now rewrite app_nil_r.
Qed.

Lemma fields_roundtrip (fs : list FieldSchema) (data : gmap string Value) :
  layout_ok fs = true ->
  Forall (fun f => exists v, data !! name f = Some v /\ encodable f v) fs ->
  exists enc,
    serializeFields fs data = Ok enc
    /\ forall pre acc,
        deserializeFields fs (mk (pre ++ enc) (List.length pre)) acc
        = Ok (decoded fs data acc).
Proof.
  induction fs as [|f rest IH]; intros Hlay Hall.
  - exists []. split; [reflexivity|]. intros pre acc. reflexivity.
  - apply Forall_cons in Hall as [(v & Hv & He) Hall].
    assert (layout_ok rest = true) as Hrest.
    { cbn [layout_ok] in Hlay. destruct rest; [reflexivity|].
      now apply andb_true_iff in Hlay as [_ ?]. }
    destruct (IH Hrest Hall) as (encs & Hs & Hd).
    destruct (field_roundtrip f v He) as (enc & Hf & Hdf).
    exists (enc ++ encs). split.
    + cbn [serializeFields]. rewrite Hv, Hf. cbn [bind]. rewrite Hs. reflexivity.
    + intros pre acc. cbn [deserializeFields decoded fold_left].
      rewrite Hdf, Hv; [apply Hd|].
      intros Ht. destruct rest as [|g rest].
      * cbn [serializeFields] in Hs. now injection Hs as <-.
      * cbn [layout_ok] in Hlay. rewrite Ht in Hlay. discriminate Hlay.
Qed.

Lemma decoded_lookup (fs : list FieldSchema) (data acc : gmap string Value) (k : string) :
  Forall (fun f => is_Some (data !! name f)) fs ->
  decoded fs data acc !! k = if decide (k ∈ map name fs) then data !! k else acc !! k.
Proof.
  intros Hall. revert acc.
  induction Hall as [|f rest [v Hv] _ IH]; intros acc.
  - cbn [decoded fold_left map]. destruct (decide (k ∈ [])) as [H|_]; [|reflexivity].
    now apply elem_of_nil in H.
  - unfold decoded in *. cbn [fold_left map]. rewrite Hv, IH.
    destruct (decide (k ∈ map name rest)) as [Hin|Hout].
    + rewrite decide_True by (now right). reflexivity.
    + destruct (decide (k = name f)) as [->|Hne].
      * rewrite decide_True by left. now rewrite lookup_insert_eq.
      * rewrite decide_False by (intros [?|?]%elem_of_cons; contradiction).
        now rewrite lookup_insert_ne by congruence.
Qed.

Lemma decoded_all (fs : list FieldSchema) (data : gmap string Value) :
  encodable_data fs data -> decoded fs data ∅ = data.
Proof.
  intros [Hall Hkeys]. apply map_eq. intros k.
  rewrite decoded_lookup.
  - destruct (decide (k ∈ map name fs)) as [_|Hout]; [reflexivity|].
    rewrite lookup_empty. destruct (data !! k) eqn:Hk; [|reflexivity].
    exfalso. apply Hout, Hkeys. now exists v.
  - eapply Forall_impl; [exact Hall|]. intros f (v & Hv & _). now exists v.
Qed.

(** In every structure of the registry, only the last field takes the rest
    of its buffer. *)
Lemma registry_layout (messageId : Z) (st : MessageStructure) :
  MESSAGE_STRUCTURES !! messageId = Some st -> layout_ok (fields st) = true.
Proof.
  intros H. unfold MESSAGE_STRUCTURES in H.
  apply elem_of_list_to_map_2 in H. unfold structure_table in H.
  repeat (apply elem_of_cons in H as [H|H];
          [injection H as -> ->; reflexivity|]).
  apply elem_of_nil in H. contradiction.
Qed.

Lemma message_roundtrip (messageId : Z) (st : MessageStructure)
    (data : gmap string Value) :
  MESSAGE_STRUCTURES !! messageId = Some st ->
  encodable_data (fields st) data ->
  exists body,
    serialize messageId data = Ok body /\ deserialize messageId body = Ok data.
Proof.
  intros Hst Henc.
  destruct (fields_roundtrip (fields st) data (registry_layout _ _ Hst) (proj1 Henc))
    as (body & Hs & Hd).
  exists body. unfold serialize, deserialize. rewrite Hst. split; [exact Hs|].
  specialize (Hd [] ∅). cbn [app List.length] in Hd. unfold new.
  now rewrite Hd, decoded_all.
Qed.

(** X7. Round trip of a message body: for a message identifier of the
    registry and data that hold, for every field of its structure and for
    no other key, a value the field can carry, [serialize] returns bytes
    and [deserialize] of these bytes returns the same data. *)
Theorem serialize_deserialize_roundtrip (messageId : Z) (st : MessageStructure)
    (data : gmap string Value) :
  MESSAGE_STRUCTURES !! messageId = Some st ->
  encodable_data (fields st) data ->
  exists body,
    serialize messageId data = Ok body /\ deserialize messageId body = Ok data.
Proof.
  intros Hst [Hall Hkeys].
  pose proof (registry_layout messageId st Hst) as Hlay.
  destruct (fields_roundtrip (fields st) data Hlay Hall) as (body & Hs & Hd).
  exists body. unfold serialize, deserialize, new. rewrite Hst.
  split; [exact Hs|].
  rewrite (Hd [] ∅). f_equal. apply decoded_all. now split.
Qed.

Lemma serialize_deserialize_roundtrip_witness :
  exists body,
    serialize 0x8001 Samples.acknowledgement = Ok body
    /\ deserialize 0x8001 body = Ok Samples.acknowledgement.
Proof.
  apply (serialize_deserialize_roundtrip 0x8001 Samples.general_response
           Samples.acknowledgement).
  - vm_compute. reflexivity.
  - split.
    + repeat (apply Forall_cons; split); [| | |constructor].
      * exists (VNumber 7). split; [reflexivity | vm_compute; split; [discriminate | reflexivity]].
      * exists (VNumber 0x0100). split; [reflexivity | vm_compute; split; [discriminate | reflexivity]].
      * exists (VNumber 0). split; [reflexivity | vm_compute; split; [discriminate | reflexivity]].
    + intros k Hk. unfold Samples.acknowledgement in Hk.
      cbn [fields Samples.general_response map name scalar].
      repeat (apply lookup_insert_is_Some in Hk as [<-|[_ Hk]];
              [repeat first [apply list_elem_of_here | apply list_elem_of_further]|]).
      now apply lookup_empty_is_Some in Hk.
Defined.

End MessageRoundTrip.

(** ** Response messages *)

Section Responses.
Import BufferParser ParserSpec EncodeSpec MessageParser Checksum.

Lemma copy_middle (src done old rest : Buffer) :
  length old = length src ->
  copy src (done ++ old ++ rest) (length done) = done ++ src ++ rest.
Proof.
  intros H. unfold copy.
  rewrite !length_app, take_app_length.
  replace (Nat.min (length src) (length done + (length old + length rest) - length done))
    with (length src) by lia.
  rewrite firstn_all, drop_app_ge by lia.
  replace (length done + length src - length done) with (length old) by lia.
  now rewrite drop_app_length.
Qed.

Lemma stringToBCD_same (s : string) (n : nat) :
  MessageParser.stringToBCD s n = MessageSerializer.stringToBCD s n.
Proof. reflexivity. Qed.

Lemma length_stringToBCD (s : string) (n : nat) :
  length (MessageSerializer.stringToBCD s n) = n.
Proof. now rewrite stringToBCD_map, length_map, length_seq. Qed.

(** The bytes of a response: the header fields in order, then the body. *)
Lemma createResponseMessage_bytes (messageId : Z) (deviceId : string)
    (bodyData : Buffer) (sequenceNumber : Z) :
  is_uint 2 messageId -> is_uint 2 (Z.of_nat (length bodyData)) ->
  is_uint 2 sequenceNumber ->
  createResponseMessage messageId deviceId bodyData sequenceNumber
  = Ok (be_bytes 2 messageId ++ be_bytes 2 (Z.of_nat (length bodyData))
        ++ MessageSerializer.stringToBCD deviceId 6 ++ be_bytes 2 sequenceNumber
        ++ bodyData).
Proof.
  intros Hid Hlen Hseq.
  unfold createResponseMessage, bind, writeUInt16BE, alloc.
  rewrite (writeUIntBE_zeros 2 12 []) by (try assumption; try lia; reflexivity).
  cbv beta iota.
  rewrite (writeUIntBE_zeros 2 10)
    by (try assumption; try lia; rewrite ?length_app, ?length_be_bytes; reflexivity).
  cbv beta iota. rewrite stringToBCD_same.
  change (10 - 2) with (6 + 2). rewrite replicate_add.
  change (0 + 2 + 2) with (length (([] ++ be_bytes 2 messageId)
                                   ++ be_bytes 2 (Z.of_nat (length bodyData)))).
  rewrite copy_middle by (now rewrite length_stringToBCD, length_replicate).
  rewrite app_assoc.
  rewrite (writeUIntBE_zeros 2 2)
    by (try assumption; try lia;
        rewrite ?length_app, ?length_be_bytes, ?length_stringToBCD; reflexivity).
  cbn [app Nat.sub replicate]. now rewrite <- !app_assoc.
Qed.

Lemma readUInt16BE_first (enc rest : Buffer) :
  length enc = 2 ->
  readUInt16BE (mk (enc ++ rest) 0) = Ok (be_value enc, mk (enc ++ rest) (length enc)).
Proof. exact (readUInt16BE_app [] enc rest). Qed.

Lemma parseHeader_plain (messageId properties sequence : Z) (deviceId : string)
    (rest : Buffer) :
  is_uint 2 messageId -> is_uint 2 properties -> is_uint 2 sequence ->
  decimal deviceId -> String.length deviceId = 12 ->
  Z.land (Z.shiftr properties 13) 0x01 = 0%Z ->
  parseHeader (be_bytes 2 messageId ++ be_bytes 2 properties
               ++ MessageSerializer.stringToBCD deviceId 6 ++ be_bytes 2 sequence
               ++ rest)
  = Ok (mkHeader messageId properties
          (Some (detectProtocolVersion messageId
                   (Z.land (Z.shiftr properties 14) 0x03) 0))
          deviceId sequence None
          (Z.land (Z.shiftr properties 10) 0x07) (Z.land properties 0x03FF)).
Proof.
  intros Hid Hp Hseq Hdec Hlen Hbit.
  destruct (bcd_encode_decode deviceId 6 Hdec Hlen) as [Hl6 Htext].
  unfold parseHeader, new, mbind, ret.
  rewrite readUInt16BE_first by apply length_be_bytes. cbv beta iota.
  rewrite readUInt16BE_app by apply length_be_bytes. cbv beta iota.
  rewrite !be_value_2 by assumption. rewrite Hbit. cbn [Z.eqb negb].
  assert (forall v n,
             (match detectProtocolVersion messageId v n with
              | JT808_2019 => readBCD 6
              | _ => readBCD 6
              end) = readBCD 6) as -> by (intros; now destruct detectProtocolVersion).
  rewrite readBCD_at by exact Hl6. cbv beta iota.
  rewrite readUInt16BE_app by apply length_be_bytes. cbv beta iota.
  rewrite be_value_2, Htext by assumption. reflexivity.
Qed.

Lemma parseHeader_fragmented (messageId properties sequence : Z) (deviceId : string)
    (package1 package2 rest : Buffer) :
  is_uint 2 messageId -> is_uint 2 properties -> is_uint 2 sequence ->
  decimal deviceId -> String.length deviceId = 12 ->
  Z.land (Z.shiftr properties 13) 0x01 <> 0%Z ->
  length package1 = 2 -> length package2 = 2 ->
  parseHeader (be_bytes 2 messageId ++ be_bytes 2 properties
               ++ MessageSerializer.stringToBCD deviceId 6 ++ be_bytes 2 sequence
               ++ package1 ++ package2 ++ rest)
  = Ok (mkHeader messageId properties
          (Some (detectProtocolVersion messageId
                   (Z.land (Z.shiftr properties 14) 0x03) 0))
          deviceId sequence (Some (mkPackage (be_value package1) (be_value package2)))
          (Z.land (Z.shiftr properties 10) 0x07) (Z.land properties 0x03FF)).
Proof.
  intros Hid Hp Hseq Hdec Hlen Hbit H1 H2.
  destruct (bcd_encode_decode deviceId 6 Hdec Hlen) as [Hl6 Htext].
  unfold parseHeader, new, mbind, ret.
  rewrite readUInt16BE_first by apply length_be_bytes. cbv beta iota.
  rewrite readUInt16BE_app by apply length_be_bytes. cbv beta iota.
  rewrite !be_value_2 by assumption.
  apply Z.eqb_neq in Hbit. rewrite Hbit. cbn [negb].
  assert (forall v n,
             (match detectProtocolVersion messageId v n with
              | JT808_2019 => readBCD 6
              | _ => readBCD 6
              end) = readBCD 6) as -> by (intros; now destruct detectProtocolVersion).
  rewrite readBCD_at by exact Hl6. cbv beta iota.
  rewrite readUInt16BE_app by apply length_be_bytes. cbv beta iota.
  rewrite readUInt16BE_app by exact H1. cbv beta iota.
  rewrite readUInt16BE_app by exact H2. cbv beta iota.
  rewrite be_value_2, Htext by assumption. reflexivity.
Qed.

Lemma parseMessage_wrapped (msg : Buffer) (h : MessageHeader) :
  parseHeader msg = Ok h ->
  parseMessage (wrapMessage msg)
  = Ok (mkParsed true (Some h) (Some (drop (getHeaderLength h) msg))
                 (wrapMessage msg) (protocolVersion h) None).
Proof.
  intros Hh. unfold parseMessage.
  rewrite unwrap_wrap. cbn [isValid messageData negb]. rewrite Hh.
  destruct (parseHeader_inv msg h Hh) as (_ & _ & _ & _ & Hle).
  rewrite wrapMessage_eq at 1. cbn [logRawMessage bind try_catch].
  now rewrite slice_from by exact Hle.
Qed.

Lemma low_bits (len : Z) :
  (0 <= len < 8192)%Z ->
  Z.land (Z.shiftr len 13) 0x01 = 0%Z
  /\ Z.land (Z.shiftr len 14) 0x03 = 0%Z
  /\ Z.land (Z.shiftr len 10) 0x07 = (len / 1024)%Z
  /\ Z.land len 0x03FF = (len mod 1024)%Z.
Proof.
  intros H.
  rewrite !Z.shiftr_div_pow2 by lia.
  change (2 ^ 13)%Z with 8192%Z. change (2 ^ 14)%Z with 16384%Z.
  change (2 ^ 10)%Z with 1024%Z.
  rewrite !Z.div_small by lia.
  change 0x07%Z with (Z.ones 3). change 0x03FF%Z with (Z.ones 10).
  rewrite !Z.land_ones by lia.
  change (2 ^ 3)%Z with 8%Z. change (2 ^ 10)%Z with 1024%Z.
  repeat split; try reflexivity.
  apply Z.mod_small. split; [apply Z.div_pos; lia|].
  apply Z.div_lt_upper_bound; lia.
Qed.

(** X8. A response built by [createResponseMessage] and framed by
    [wrapMessage] is parsed back by [parseMessage]: for a message identifier
    and a sequence number of 16 bits, a device identifier of twelve decimal
    digits and a body shorter than 8192 bytes, the parsed header carries the
    same identifier, device and sequence number and the parsed body is the
    body given.  The body length is written as the whole properties word,
    so the parsed [messageLength] is the length modulo 1024 and the parsed
    [encryptionType] is the length divided by 1024: they are the length and
    0 only for a body shorter than 1024 bytes. *)
Theorem createResponseMessage_parsed (messageId sequenceNumber : Z)
    (deviceId : string) (bodyData : Buffer) :
  is_uint 2 messageId -> is_uint 2 sequenceNumber ->
  decimal deviceId -> String.length deviceId = 12 ->
  (Z.of_nat (length bodyData) < 8192)%Z ->
  exists msg,
    createResponseMessage messageId deviceId bodyData sequenceNumber = Ok msg
    /\ length msg = 12 + length bodyData
    /\ parseMessage (wrapMessage msg)
       = Ok (mkParsed true
               (Some (mkHeader messageId (Z.of_nat (length bodyData))
                        (Some (detectProtocolVersion messageId 0 (length msg)))
                        deviceId sequenceNumber None
                        (Z.of_nat (length bodyData) / 1024)
                        (Z.of_nat (length bodyData) mod 1024)))
               (Some bodyData) (wrapMessage msg)
               (Some (detectProtocolVersion messageId 0 (length msg))) None).
Proof.
  intros Hid Hseq Hdec Hlen Hbody.
  assert (is_uint 2 (Z.of_nat (length bodyData))) as Hl.
  { unfold is_uint. change (2 ^ (8 * Z.of_nat 2))%Z with 65536%Z. lia. }
  destruct (low_bits (Z.of_nat (length bodyData)) ltac:(lia)) as (Hb & Hr & He & Hm).
  eexists. split; [now apply createResponseMessage_bytes|].
  split.
  { rewrite !length_app, !length_be_bytes, length_stringToBCD. lia. }
  erewrite parseMessage_wrapped
    by (apply parseHeader_plain; assumption).
  cbn [getHeaderLength messagePackage protocolVersion].
  rewrite Hr, He, Hm. reflexivity.
Qed.

Lemma createResponseMessage_parsed_witness :
  exists msg,
    createResponseMessage 0x8001 "123456789012" (map mkbyte [0; 7; 1; 0; 0]%Z) 1 = Ok msg
    /\ length msg = 12 + 5
    /\ parseMessage (wrapMessage msg)
       = Ok (mkParsed true
               (Some (mkHeader 0x8001 5 (Some JT808_2019) "123456789012" 1 None 0 5))
               (Some (map mkbyte [0; 7; 1; 0; 0]%Z)) (wrapMessage msg)
               (Some JT808_2019) None).
Proof.
  apply (createResponseMessage_parsed 0x8001 1 "123456789012"
           (map mkbyte [0; 7; 1; 0; 0]%Z)).
  - vm_compute. split; [discriminate | reflexivity].
  - vm_compute. split; [discriminate | reflexivity].
  - repeat constructor; vm_compute; discriminate.
  - reflexivity.
  - vm_compute. reflexivity.
Defined.

(** X9. The fragmentation bit of a long response: a body of 8192 to 16383
    bytes sets bit 13 of the properties word that [createResponseMessage]
    writes, so [parseMessage] takes the first four bytes of the body for the
    package information and returns the body without them. *)
Theorem createResponseMessage_long_body (messageId sequenceNumber : Z)
    (deviceId : string) (package1 package2 rest : Buffer) :
  is_uint 2 messageId -> is_uint 2 sequenceNumber ->
  decimal deviceId -> String.length deviceId = 12 ->
  length package1 = 2 -> length package2 = 2 ->
  (8192 <= Z.of_nat (length (package1 ++ package2 ++ rest)) < 16384)%Z ->
  exists msg h,
    createResponseMessage messageId deviceId (package1 ++ package2 ++ rest)
                          sequenceNumber = Ok msg
    /\ parseMessage (wrapMessage msg)
       = Ok (mkParsed true (Some h) (Some rest) (wrapMessage msg)
                      (protocolVersion h) None)
    /\ messagePackage h = Some (mkPackage (be_value package1) (be_value package2)).
Proof.
  intros Hid Hseq Hdec Hlen H1 H2 Hbody.
  destruct package1 as [|a1 [|b1 [|? ?]]]; try discriminate H1.
  destruct package2 as [|a2 [|b2 [|? ?]]]; try discriminate H2.
  set (len := Z.of_nat (length ([a1; b1] ++ [a2; b2] ++ rest))) in *.
  assert (is_uint 2 len) as Hl.
  { unfold is_uint. change (2 ^ (8 * Z.of_nat 2))%Z with 65536%Z. lia. }
  assert (Z.land (Z.shiftr len 13) 0x01 <> 0%Z) as Hbit.
  { rewrite Z.shiftr_div_pow2 by lia. change (2 ^ 13)%Z with 8192%Z.
    replace (len / 8192)%Z with 1%Z; [discriminate|].
    apply Z.div_unique with (r := (len - 8192)%Z); lia. }
  eexists. eexists. split; [now apply createResponseMessage_bytes|].
  erewrite parseMessage_wrapped
    by (apply parseHeader_fragmented; assumption).
  split; reflexivity.
Qed.

Lemma createResponseMessage_long_body_witness :
  exists msg h,
    createResponseMessage 0x8001 "123456789012"
      (map mkbyte [0; 3]%Z ++ map mkbyte [0; 1]%Z ++ Samples.long_tail) 1 = Ok msg
    /\ parseMessage (wrapMessage msg)
       = Ok (mkParsed true (Some h) (Some Samples.long_tail) (wrapMessage msg)
                      (protocolVersion h) None)
    /\ messagePackage h
       = Some (mkPackage (be_value (map mkbyte [0; 3]%Z)) (be_value (map mkbyte [0; 1]%Z))).
Proof.
  apply (createResponseMessage_long_body 0x8001 1 "123456789012"
           (map mkbyte [0; 3]%Z) (map mkbyte [0; 1]%Z) Samples.long_tail).
  - vm_compute. split; [discriminate | reflexivity].
  - vm_compute. split; [discriminate | reflexivity].
  - repeat constructor; vm_compute; discriminate.
  - reflexivity.
  - reflexivity.
  - reflexivity.
  - vm_compute. split; [discriminate | reflexivity].
Defined.

(** X10. [createResponseMessage] throws exactly when the message identifier,
    the body length or the sequence number does not fit 16 bits, and what it
    throws then is the range error of the buffer writes: the device
    identifier never makes it fail. *)
Theorem createResponseMessage_range (messageId sequenceNumber : Z)
    (deviceId : string) (bodyData : Buffer) :
  (createResponseMessage messageId deviceId bodyData sequenceNumber
   = Throw out_of_range
   <-> ~ (is_uint 2 messageId /\ is_uint 2 (Z.of_nat (length bodyData))
          /\ is_uint 2 sequenceNumber))
  /\ (forall e,
        createResponseMessage messageId deviceId bodyData sequenceNumber = Throw e ->
        e = out_of_range).
Proof.
  assert (forall v, is_uint 2 v \/ ~ is_uint 2 v) as Hdec by (unfold is_uint; lia).
  destruct (Hdec messageId) as [Hid|Hid].
  - destruct (Hdec (Z.of_nat (length bodyData))) as [Hl|Hl].
    + destruct (Hdec sequenceNumber) as [Hs|Hs].
      * rewrite createResponseMessage_bytes by assumption.
        split; [|discriminate]. split; [discriminate|]. intros H. exfalso. tauto.
      * assert (createResponseMessage messageId deviceId bodyData sequenceNumber
                = Throw out_of_range) as ->.
        { unfold createResponseMessage, bind, writeUInt16BE, alloc.
          rewrite (writeUIntBE_zeros 2 12 []) by (try assumption; try lia; reflexivity).
          cbv beta iota.
          rewrite (writeUIntBE_zeros 2 10)
            by (try assumption; try lia; rewrite ?length_app, ?length_be_bytes;
                reflexivity).
          cbv beta iota. now rewrite writeUIntBE_range. }
        split; [|now intros e [= <-]]. split; [tauto | reflexivity].
    + assert (createResponseMessage messageId deviceId bodyData sequenceNumber
              = Throw out_of_range) as ->.
      { unfold createResponseMessage, bind, writeUInt16BE, alloc.
        rewrite (writeUIntBE_zeros 2 12 []) by (try assumption; try lia; reflexivity).
        cbv beta iota. now rewrite writeUIntBE_range. }
      split; [|now intros e [= <-]]. split; [tauto | reflexivity].
  - assert (createResponseMessage messageId deviceId bodyData sequenceNumber
            = Throw out_of_range) as ->.
    { unfold createResponseMessage, bind, writeUInt16BE.
      now rewrite writeUIntBE_range. }
    split; [|now intros e [= <-]]. split; [tauto | reflexivity].
Qed.

End Responses.

(** ** The message factory *)

Section Factories.
Import BufferParser ParserSpec Schema EncodeSpec MessageSerializer MessageFactory.

Lemma serializeField_uint8 (f : FieldSchema) (z : Z) :
  type f = uint8 -> is_uint 1 z -> serializeField f (VNumber z) = Ok (be_bytes 1 z).
Proof.
  intros Ht Hz. unfold serializeField, writeUInt8, alloc. rewrite Ht.
  rewrite (writeUIntBE_zeros 1 1 []) by (try exact Hz; try lia; reflexivity).
  cbn [app replicate Nat.sub]. now rewrite app_nil_r.
Qed.

Lemma serializeField_uint16 (f : FieldSchema) (z : Z) :
  type f = uint16 -> is_uint 2 z -> serializeField f (VNumber z) = Ok (be_bytes 2 z).
Proof.
  intros Ht Hz. unfold serializeField, writeUInt16BE, alloc. rewrite Ht.
  rewrite (writeUIntBE_zeros 2 2 []) by (try exact Hz; try lia; reflexivity).
  cbn [app replicate Nat.sub]. now rewrite app_nil_r.
Qed.

Lemma registry_general_response :
  MESSAGE_STRUCTURES !! MESSAGE_IDS.PLATFORM_GENERAL_RESPONSE
  = Some (mkStructure "Platform General Response" down
            [ scalar "sequenceNumber" uint16;
              scalar "messageId" uint16;
              scalar "result" uint8 ]).
Proof. vm_compute. reflexivity. Qed.

Lemma registry_registration_response :
  MESSAGE_STRUCTURES !! MESSAGE_IDS.TERMINAL_REGISTRATION_RESPONSE
  = Some (mkStructure "Terminal Registration Response" down
            [ scalar "sequenceNumber" uint16;
              scalar "result" uint8;
              var "authCode" string_ ]).
Proof. vm_compute. reflexivity. Qed.

Lemma registry_parameter_setting :
  MESSAGE_STRUCTURES !! MESSAGE_IDS.SET_TERMINAL_PARAMETERS
  = Some (mkStructure "Set Terminal Parameters" down
            [ scalar "parameterCount" uint8;
              array_of "parameters" item_parameter ]).
Proof. vm_compute. reflexivity. Qed.

(** The keys of a data object built from a literal are among the listed names. *)
Ltac literal_keys :=
  let k := fresh "k" in
  let Hk := fresh "Hk" in
  intros k Hk; cbn [fields map name scalar var array_of];
  repeat (apply lookup_insert_is_Some in Hk as [<-|[_ Hk]];
          [repeat first [apply list_elem_of_here | apply list_elem_of_further]|]);
  now apply lookup_empty_is_Some in Hk.

(** X11. [createGeneralResponse] on a sequence number and a message
    identifier of 16 bits and a result of 8 bits returns five bytes: the
    three numbers in big-endian order; [deserialize] reads the three numbers
    back from them. *)
Theorem createGeneralResponse_roundtrip (sequenceNumber messageId result : Z) :
  is_uint 2 sequenceNumber -> is_uint 2 messageId -> is_uint 1 result ->
  createGeneralResponse sequenceNumber messageId result
  = Ok (be_bytes 2 sequenceNumber ++ be_bytes 2 messageId ++ be_bytes 1 result)
  /\ deserialize MESSAGE_IDS.PLATFORM_GENERAL_RESPONSE
       (be_bytes 2 sequenceNumber ++ be_bytes 2 messageId ++ be_bytes 1 result)
     = Ok (<["sequenceNumber" := VNumber sequenceNumber]>
             (<["messageId" := VNumber messageId]>
                (<["result" := VNumber result]> ∅))).
Proof.
  intros Hs Hm Hr.
  set (data := <["sequenceNumber" := VNumber sequenceNumber]>
                 (<["messageId" := VNumber messageId]>
                    (<["result" := VNumber result]> (∅ : gmap string Value)))).
  assert (serialize MESSAGE_IDS.PLATFORM_GENERAL_RESPONSE data
          = Ok (be_bytes 2 sequenceNumber ++ be_bytes 2 messageId ++ be_bytes 1 result))
    as Hser.
  { unfold serialize. rewrite registry_general_response.
    cbn [fields serializeFields].
    change (data !! name (scalar "sequenceNumber" uint16))
      with (Some (VNumber sequenceNumber)).
    change (data !! name (scalar "messageId" uint16)) with (Some (VNumber messageId)).
    change (data !! name (scalar "result" uint8)) with (Some (VNumber result)).
    cbv beta iota.
    rewrite serializeField_uint16 by (reflexivity || assumption). cbn [bind].
    rewrite serializeField_uint16 by (reflexivity || assumption). cbn [bind].
    rewrite serializeField_uint8 by (reflexivity || assumption). cbn [bind].
    now rewrite app_nil_r. }
  split; [exact Hser|].
  destruct (message_roundtrip _ _ data registry_general_response) as (body & Hb & Hd).
  - split; [|literal_keys].
    repeat (apply Forall_cons; split); [| | |constructor].
    + exists (VNumber sequenceNumber). split; [reflexivity | exact Hs].
    + exists (VNumber messageId). split; [reflexivity | exact Hm].
    + exists (VNumber result). split; [reflexivity | exact Hr].
  - rewrite Hser in Hb. injection Hb as <-. exact Hd.
Qed.

Lemma createGeneralResponse_roundtrip_witness :
  createGeneralResponse 7 0x0100 0 = Ok (map mkbyte [0; 7; 1; 0; 0]%Z)
  /\ deserialize MESSAGE_IDS.PLATFORM_GENERAL_RESPONSE (map mkbyte [0; 7; 1; 0; 0]%Z)
     = Ok Samples.acknowledgement.
Proof.
  apply (createGeneralResponse_roundtrip 7 0x0100 0);
    vm_compute; (split; [discriminate | reflexivity]).
Defined.

(** X12. [createParameterSetting] on at most 255 parameters, each with a
    32-bit identifier and a [length] equal to the length of its value (at
    most 255), returns the count byte followed by the records of the
    parameters; [deserialize] reads the count and the same parameters back. *)
Theorem createParameterSetting_roundtrip (parameters : list Param.t) :
  Forall valid_parameter parameters -> List.length parameters <= 255 ->
  createParameterSetting parameters
  = Ok (be_bytes 1 (Z.of_nat (List.length parameters))
        ++ concat (map parameter_bytes parameters))
  /\ deserialize MESSAGE_IDS.SET_TERMINAL_PARAMETERS
       (be_bytes 1 (Z.of_nat (List.length parameters))
        ++ concat (map parameter_bytes parameters))
     = Ok (<["parameterCount" := VNumber (Z.of_nat (List.length parameters))]>
             (<["parameters" := VArray (map ItemParameter parameters)]> ∅)).
Proof.
  intros Hps Hn.
  assert (is_uint 1 (Z.of_nat (List.length parameters))) as Hc.
  { unfold is_uint. change (2 ^ (8 * Z.of_nat 1))%Z with 256%Z. lia. }
  set (data := <["parameterCount" := VNumber (Z.of_nat (List.length parameters))]>
                 (<["parameters" := VArray (map ItemParameter parameters)]>
                    (∅ : gmap string Value))).
  assert (serialize MESSAGE_IDS.SET_TERMINAL_PARAMETERS data
          = Ok (be_bytes 1 (Z.of_nat (List.length parameters))
                ++ concat (map parameter_bytes parameters))) as Hser.
  { unfold serialize. rewrite registry_parameter_setting.
    cbn [fields serializeFields].
    change (data !! name (scalar "parameterCount" uint8))
      with (Some (VNumber (Z.of_nat (List.length parameters)))).
    change (data !! name (array_of "parameters" item_parameter))
      with (Some (VArray (map ItemParameter parameters))).
    cbv beta iota.
    rewrite serializeField_uint8 by (reflexivity || assumption). cbn [bind].
    change (serializeField (array_of "parameters" item_parameter)
                           (VArray (map ItemParameter parameters)))
      with (serializeItems item_parameter (map ItemParameter parameters)).
    rewrite serializeItems_parameters by exact Hps. cbn [bind].
    now rewrite app_nil_r. }
  split; [exact Hser|].
  destruct (message_roundtrip _ _ data registry_parameter_setting) as (body & Hb & Hd).
  - split; [|literal_keys].
    repeat (apply Forall_cons; split); [| |constructor].
    + exists (VNumber (Z.of_nat (List.length parameters))). split; [reflexivity | exact Hc].
    + exists (VArray (map ItemParameter parameters)). split; [reflexivity|].
      unfold encodable. cbn [type itemType array_of].
      apply Forall_map. eapply Forall_impl; [exact Hps|].
      intros q Hq. now exists q.
  - rewrite Hser in Hb. injection Hb as <-. exact Hd.
Qed.

Lemma createParameterSetting_roundtrip_witness :
  createParameterSetting [Param.mk 1 2 (map mkbyte [0; 60]%Z)]
  = Ok (map mkbyte [1; 0; 0; 0; 1; 2; 0; 60]%Z)
  /\ deserialize MESSAGE_IDS.SET_TERMINAL_PARAMETERS
       (map mkbyte [1; 0; 0; 0; 1; 2; 0; 60]%Z)
     = Ok (<["parameterCount" := VNumber 1]>
             (<["parameters" :=
                  VArray [ItemParameter (Param.mk 1 2 (map mkbyte [0; 60]%Z))]]> ∅)).
Proof.
  apply (createParameterSetting_roundtrip [Param.mk 1 2 (map mkbyte [0; 60]%Z)]).
  - repeat constructor; vm_compute; discriminate.
  - vm_compute. lia.
Defined.

(** X13. The count of a parameter setting is one byte: on more than 255
    parameters [createParameterSetting] throws the range error of the
    buffer write, whatever the parameters are. *)
Theorem createParameterSetting_limit (parameters : list Param.t) :
  255 < List.length parameters ->
  createParameterSetting parameters = Throw out_of_range.
Proof.
  intros Hn. unfold createParameterSetting, serialize.
  rewrite registry_parameter_setting. cbn [fields serializeFields].
  rewrite lookup_insert_eq. cbv beta iota.
  unfold serializeField. cbn [type scalar]. unfold writeUInt8.
  rewrite writeUIntBE_range; [reflexivity|].
  unfold is_uint. change (2 ^ (8 * Z.of_nat 1))%Z with 256%Z. lia.
Qed.

Lemma createParameterSetting_limit_witness :
  createParameterSetting (replicate 256 (Param.mk 1 0 [])) = Throw out_of_range.
Proof.
  apply (createParameterSetting_limit (replicate 256 (Param.mk 1 0 []))).
  rewrite length_replicate. lia.
Defined.

(** X14. [createRegistrationResponse] keeps the authentication code only
    for result 0: the body is the sequence number on two bytes, the result
    on one byte and, for result 0, the characters of the code;
    [deserialize] reads back the numbers and the code, or the empty code
    for another result. *)
Theorem createRegistrationResponse_roundtrip (sequenceNumber result : Z)
    (authCode : string) :
  is_uint 2 sequenceNumber -> is_uint 1 result -> plain authCode ->
  let code := if (result =? 0)%Z then authCode else "" in
  createRegistrationResponse sequenceNumber result authCode
  = Ok (be_bytes 2 sequenceNumber ++ be_bytes 1 result ++ ascii_encode code)
  /\ deserialize MESSAGE_IDS.TERMINAL_REGISTRATION_RESPONSE
       (be_bytes 2 sequenceNumber ++ be_bytes 1 result ++ ascii_encode code)
     = Ok (<["sequenceNumber" := VNumber sequenceNumber]>
             (<["result" := VNumber result]>
                (<["authCode" := VString code]> ∅))).
Proof.
  intros Hs Hr Ha code.
  assert (plain code) as Hcode.
  { unfold code. destruct (result =? 0)%Z; [exact Ha | constructor]. }
  unfold createRegistrationResponse. fold code.
  set (data := <["sequenceNumber" := VNumber sequenceNumber]>
                 (<["result" := VNumber result]>
                    (<["authCode" := VString code]> (∅ : gmap string Value)))).
  assert (serialize MESSAGE_IDS.TERMINAL_REGISTRATION_RESPONSE data
          = Ok (be_bytes 2 sequenceNumber ++ be_bytes 1 result ++ ascii_encode code))
    as Hser.
  { unfold serialize. rewrite registry_registration_response.
    cbn [fields serializeFields].
    change (data !! name (scalar "sequenceNumber" uint16))
      with (Some (VNumber sequenceNumber)).
    change (data !! name (scalar "result" uint8)) with (Some (VNumber result)).
    change (data !! name (var "authCode" string_)) with (Some (VString code)).
    cbv beta iota.
    rewrite serializeField_uint16 by (reflexivity || assumption). cbn [bind].
    rewrite serializeField_uint8 by (reflexivity || assumption). cbn [bind].
    change (serializeField (var "authCode" string_) (VString code))
      with (Ok (ascii_encode code) : Result Buffer).
    cbn [bind]. now rewrite app_nil_r. }
  split; [exact Hser|].
  destruct (message_roundtrip _ _ data registry_registration_response)
    as (body & Hb & Hd).
  - split; [|literal_keys].
    repeat (apply Forall_cons; split); [| | |constructor].
    + exists (VNumber sequenceNumber). split; [reflexivity | exact Hs].
    + exists (VNumber result). split; [reflexivity | exact Hr].
    + exists (VString code). split; [reflexivity|].
      split; [exact Hcode | discriminate].
  - rewrite Hser in Hb. injection Hb as <-. exact Hd.
Qed.

Lemma createRegistrationResponse_roundtrip_witness :
  (createRegistrationResponse 7 0 "AB" = Ok (map mkbyte [0; 7; 0; 65; 66]%Z)
   /\ deserialize MESSAGE_IDS.TERMINAL_REGISTRATION_RESPONSE
        (map mkbyte [0; 7; 0; 65; 66]%Z)
      = Ok (<["sequenceNumber" := VNumber 7]>
              (<["result" := VNumber 0]> (<["authCode" := VString "AB"]> ∅))))
  /\ (createRegistrationResponse 7 1 "AB" = Ok (map mkbyte [0; 7; 1]%Z)
      /\ deserialize MESSAGE_IDS.TERMINAL_REGISTRATION_RESPONSE
           (map mkbyte [0; 7; 1]%Z)
         = Ok (<["sequenceNumber" := VNumber 7]>
                 (<["result" := VNumber 1]> (<["authCode" := VString ""]> ∅)))).
Proof.
  split.
  - apply (createRegistrationResponse_roundtrip 7 0 "AB");
      [vm_compute; split; [discriminate | reflexivity]
      |vm_compute; split; [discriminate | reflexivity]
      |repeat constructor; vm_compute; discriminate].
  - apply (createRegistrationResponse_roundtrip 7 1 "AB");
      [vm_compute; split; [discriminate | reflexivity]
      |vm_compute; split; [discriminate | reflexivity]
      |repeat constructor; vm_compute; discriminate].
Defined.

End Factories.

(** ** The layout of the header *)

Section HeaderLayout.
Import BufferParser ParserSpec MessageParser HeaderSpec Checksum FrameSpec.

(** One read of the parser run in the goal: in bounds it moves on, and past
    the end of the buffer the run throws the overflow error, which closes
    the goal [finish]es. *)
Ltac read_step ok overflow p n finish :=
  let Hb := fresh "Hb" in
  destruct (Nat.le_gt_cases (offset p + n) (length (buffer p))) as [Hb|Hb];
  [ rewrite (ok p Hb); cbv beta iota
  | rewrite (overflow p Hb); cbv beta iota; finish ].

Ltac read16_step p finish :=
  read_step readUInt16BE_ok readUInt16BE_overflow p 2 finish.

Lemma parseHeader_cases (messageData : Buffer) :
  if (header_width messageData <=? length messageData)%nat then
    parseHeader messageData = Ok (header_of messageData)
  else
    exists what p, parseHeader messageData = Throw (overflow what p).
Proof.
  unfold header_width, header_of.
  set (fragmented := HeaderSpec.fragmented messageData).
  assert (fragmented
          = negb (Z.land (Z.shiftr (be_value (take 2 (drop 2 messageData))) 13) 0x01
                  =? 0)%Z) as Hfrag by reflexivity.
  unfold HeaderSpec.properties.
  set (properties := be_value (take 2 (drop 2 messageData))) in *.
  assert (forall v p,
             (match v with
              | JT808_2019 => readBCD 6
              | _ => readBCD 6
              end) p = readBCD 6 p) as Hbcd by (intros []; reflexivity).
  destruct (Nat.leb_spec (12 + (if fragmented then 4 else 0)) (length messageData))
    as [Hlen|Hlen].
  - unfold parseHeader, mbind, ret.
    set (p0 := new messageData).
    rewrite (readUInt16BE_ok p0) by (cbn [p0 new offset buffer]; lia). cbv beta iota.
    rewrite (readUInt16BE_ok (advance p0 2)) by (cbn [p0 new advance offset buffer]; lia).
    cbv beta iota. rewrite Hbcd.
    rewrite (readBCD_ok (advance (advance p0 2) 2))
      by (cbn [p0 new advance offset buffer]; lia).
    cbv beta iota.
    rewrite (readUInt16BE_ok (advance (advance (advance p0 2) 2) 6))
      by (cbn [p0 new advance offset buffer]; lia).
    cbv beta iota.
    change (be_value (window (advance p0 2) 2)) with properties.
    rewrite <- Hfrag. destruct fragmented.
    + rewrite (readUInt16BE_ok (advance (advance (advance (advance p0 2) 2) 6) 2))
        by (cbn [p0 new advance offset buffer]; lia).
      cbv beta iota.
      rewrite (readUInt16BE_ok
                 (advance (advance (advance (advance (advance p0 2) 2) 6) 2) 2))
        by (cbn [p0 new advance offset buffer]; lia).
      reflexivity.
    + reflexivity.
  - unfold parseHeader, mbind, ret.
    set (p0 := new messageData).
    read16_step p0 ltac:(eexists _, _; reflexivity).
    read16_step (advance p0 2) ltac:(eexists _, _; reflexivity).
    rewrite Hbcd.
    read_step (fun p => readBCD_ok p 6) (fun p => readBCD_overflow p 6)
      (advance (advance p0 2) 2) 6 ltac:(eexists _, _; reflexivity).
    read16_step (advance (advance (advance p0 2) 2) 6) ltac:(eexists _, _; reflexivity).
    change (be_value (window (advance p0 2) 2)) with properties.
    rewrite <- Hfrag. destruct fragmented.
    + read16_step (advance (advance (advance (advance p0 2) 2) 6) 2)
        ltac:(eexists _, _; reflexivity).
      read16_step (advance (advance (advance (advance (advance p0 2) 2) 6) 2) 2)
        ltac:(eexists _, _; reflexivity).
      cbn [p0 new advance offset buffer] in *. lia.
    + cbn [p0 new advance offset buffer] in *. lia.
Qed.

(** X15. [parseHeader] succeeds exactly on message data that are as long as
    the header they start: 12 bytes, or 16 when bit 13 of the properties
    word is set.  The header it returns is then read off the bytes: the
    identifier from bytes 0-1, the properties from bytes 2-3, the device
    from the six BCD bytes 4-9, the sequence number from bytes 10-11, and
    the package information from bytes 12-15 when bit 13 is set.  On
    shorter data it throws the overflow error of the parser. *)
Theorem parseHeader_layout (messageData : Buffer) :
  (forall h,
      parseHeader messageData = Ok h
      <-> header_width messageData <= length messageData /\ h = header_of messageData)
  /\ (length messageData < header_width messageData
      <-> exists what p, parseHeader messageData = Throw (overflow what p)).
Proof.
  pose proof (parseHeader_cases messageData) as H.
  destruct (Nat.leb_spec (header_width messageData) (length messageData)) as [Hlen|Hlen].
  - rewrite H. split.
    + intros h. split; [intros [= <-]; now split | intros [_ ->]; reflexivity].
    + split; [lia | intros (what & p & Hp); discriminate Hp].
  - destruct H as (what & p & H). rewrite H. split.
    + intros h. split; [discriminate | lia].
    + split; [intros _; now exists what, p | intros _; exact Hlen].
Qed.



(** X17. [parseMessage] throws on the empty buffer only: the logger fails on
    it before the [try] block is entered; every other buffer gets a result
    that holds the buffer as its raw data. *)
Theorem parseMessage_throws_iff_empty (rawBuffer : Buffer) :
  ((exists e, parseMessage rawBuffer = Throw e) <-> rawBuffer = [])
  /\ (rawBuffer <> [] ->
      exists r, parseMessage rawBuffer = Ok r /\ rawData r = rawBuffer).
Proof.
  assert (rawBuffer <> [] ->
          exists r, parseMessage rawBuffer = Ok r /\ rawData r = rawBuffer) as Hok.
  { intros Hne. unfold parseMessage.
    destruct rawBuffer as [|b rest]; [contradiction|].
    cbn [logRawMessage bind].
    set (raw := b :: rest).
    destruct (negb (isValid (unwrapMessage raw)));
      [cbn [try_catch]; eexists; split; reflexivity|].
    destruct (messageData (unwrapMessage raw)) as [d|];
      [|cbn [try_catch]; eexists; split; reflexivity].
    destruct (parseHeader d) as [h|e];
      cbn [bind try_catch]; eexists; split; reflexivity. }
  split; [|exact Hok]. split.
  - intros [e He]. destruct rawBuffer as [|b rest]; [reflexivity|].
    destruct (Hok ltac:(discriminate)) as (r & Hr & _). rewrite Hr in He. discriminate He.
  - intros ->. eexists. reflexivity.
Qed.

End HeaderLayout.

(** ** Strings of fixed width *)

Section FixedStrings.
Import BufferParser ParserSpec Schema EncodeSpec MessageSerializer.

Lemma chars_substring (n : nat) (s : string) :
  list_ascii_of_string (String.substring 0 n s) = take n (list_ascii_of_string s).
Proof.
  revert n. induction s as [|a s IH]; intros [|n]; try reflexivity.
  cbn [String.substring list_ascii_of_string]. rewrite firstn_cons. now rewrite IH.
Qed.

Lemma take_ascii_encode (n : nat) (s : string) :
  take n (ascii_encode s) = ascii_encode (String.substring 0 n s).
Proof. unfold ascii_encode. now rewrite chars_substring, firstn_map. Qed.

(** X18. A string field of fixed width holds the first characters of its
    value: [serializeField] writes exactly [length] bytes, which are the
    codes of the first [length] characters of the value followed by as many
    NUL bytes as the value is shorter than [length], and [deserializeField]
    reads back the value cut to [length] characters (characters with codes
    1 to 127). *)
Theorem fixed_string_field (f : FieldSchema) (s : string) :
  type f = string_ -> variable f = false -> plain s ->
  let enc :=
    map (fun a => mkbyte (Z.of_N (N_of_ascii a)))
        (take (length f) (list_ascii_of_string s))
    ++ replicate (length f - String.length s) (mkbyte 0) in
  serializeField f (VString s) = Ok enc
  /\ List.length enc = length f
  /\ forall pre post,
      deserializeField f (mk (pre ++ enc ++ post) (List.length pre))
      = Ok (VString (String.substring 0 (length f) s),
            mk (pre ++ enc ++ post) (List.length pre + length f)).
Proof.
  intros Ht Hv Hp enc.
  assert (enc = take (length f) (ascii_encode s)
                ++ replicate (length f - String.length s) (mkbyte 0)) as Henc.
  { unfold enc, ascii_encode. now rewrite firstn_map. }
  assert (List.length enc = length f) as Hlen.
  { rewrite Henc, length_app, length_take, length_replicate, length_ascii_encode. lia. }
  split; [|split].
  - unfold serializeField. rewrite Ht, Hv. rewrite fixed_string_bytes, Henc. reflexivity.
  - exact Hlen.
  - intros pre post. unfold deserializeField, mbind, ret. rewrite Ht, Hv.
    rewrite readASCII_at by exact Hlen.
    rewrite Henc at 1. rewrite take_ascii_encode, zeros_decode.
    + rewrite length_app, Hlen, <- app_assoc. reflexivity.
    + unfold plain. rewrite chars_substring. apply Forall_take, Hp.
Qed.

Lemma fixed_string_field_witness :
  (serializeField (fixed "manufacturerId" string_ 5) (VString "ACME-01")
   = Ok (map mkbyte [65; 67; 77; 69; 45]%Z)
   /\ List.length (map mkbyte [65; 67; 77; 69; 45]%Z) = 5
   /\ forall pre post,
       deserializeField (fixed "manufacturerId" string_ 5)
         (mk (pre ++ map mkbyte [65; 67; 77; 69; 45]%Z ++ post) (List.length pre))
       = Ok (VString "ACME-",
             mk (pre ++ map mkbyte [65; 67; 77; 69; 45]%Z ++ post)
                (List.length pre + 5)))
  /\ (serializeField (fixed "manufacturerId" string_ 5) (VString "AB")
      = Ok (map mkbyte [65; 66; 0; 0; 0]%Z)
      /\ List.length (map mkbyte [65; 66; 0; 0; 0]%Z) = 5
      /\ forall pre post,
          deserializeField (fixed "manufacturerId" string_ 5)
            (mk (pre ++ map mkbyte [65; 66; 0; 0; 0]%Z ++ post) (List.length pre))
          = Ok (VString "AB",
                mk (pre ++ map mkbyte [65; 66; 0; 0; 0]%Z ++ post)
                   (List.length pre + 5))).
Proof.
  split.
  - apply (fixed_string_field (fixed "manufacturerId" string_ 5) "ACME-01").
    + reflexivity.
    + reflexivity.
    + repeat constructor; vm_compute; discriminate.
  - apply (fixed_string_field (fixed "manufacturerId" string_ 5) "AB").
    + reflexivity.
    + reflexivity.
    + repeat constructor; vm_compute; discriminate.
Defined.

End FixedStrings.

(** ** Validation of decoded bodies *)

Section Validation.
Import BufferParser ParserSpec Schema CodecSpec EncodeSpec ValidationSpec.
Import MessageSerializer MessageValidator.

Lemma be_value_bound (l : Buffer) :
  (0 <= be_value l < 2 ^ (8 * Z.of_nat (List.length l)))%Z.
Proof.
  induction l as [|b l IH] using rev_ind; [cbn; lia|].
  rewrite be_value_snoc, length_app. cbn [List.length].
  replace (8 * Z.of_nat (List.length l + 1))%Z
    with (8 * Z.of_nat (List.length l) + 8)%Z by lia.
  rewrite Z.pow_add_r by lia. change (2 ^ 8)%Z with 256%Z.
  pose proof (byteval_range b). nia.
Qed.

Lemma length_strip_nul (s : string) : String.length (strip_nul s) <= String.length s.
Proof.
  induction s as [|a s IH]; [reflexivity|].
  cbn [strip_nul]. destruct (Ascii.eqb a zero); cbn [String.length]; lia.
Qed.

Lemma length_ascii_decode (l : Buffer) : String.length (ascii_decode l) = List.length l.
Proof.
  unfold ascii_decode. rewrite <- length_chars, list_ascii_of_string_of_list_ascii.
  apply length_map.
Qed.

Lemma nibble_digits (z : Z) :
  (0 <= z <= 15)%Z -> forallb is_digit (list_ascii_of_string (toString z)) = true.
Proof.
  intros H.
  assert (z = 0 \/ z = 1 \/ z = 2 \/ z = 3 \/ z = 4 \/ z = 5 \/ z = 6 \/ z = 7
          \/ z = 8 \/ z = 9 \/ z = 10 \/ z = 11 \/ z = 12 \/ z = 13 \/ z = 14
          \/ z = 15)%Z as Hz by lia.
  repeat (destruct Hz as [->|Hz]; [reflexivity|]). subst z. reflexivity.
Qed.

Lemma bcd_text_digits (bytes : Buffer) :
  forallb is_digit (list_ascii_of_string (bcd_text bytes)) = true.
Proof.
  induction bytes as [|b bytes IH]; [reflexivity|].
  cbn [bcd_text]. unfold bcd_pair. rewrite !chars_append, !forallb_app, IH.
  destruct (nibble_bounds b) as [Hh Hl].
  now rewrite !nibble_digits by assumption.
Qed.

Lemma bcd_text_all_digits (bytes : Buffer) :
  0 < List.length bytes -> all_digits (bcd_text bytes) = true.
Proof.
  intros H. unfold all_digits. rewrite bcd_text_digits, andb_true_r.
  destruct (length_bcd_text bytes) as [[Hlo _] _].
  destruct (bcd_text bytes); [cbn [String.length] in Hlo; lia | reflexivity].
Qed.

(** What a decoded value looks like, type by type. *)
Lemma deserializeField_shape (f : FieldSchema) (p p' : t) (v : Value) :
  deserializeField f p = Ok (v, p') -> decoded_shape f v.
Proof.
  unfold deserializeField, decoded_shape, mbind, ret.
  destruct (type f); intros H.
  - destruct (Nat.le_gt_cases (offset p + 1) (List.length (buffer p))) as [Hb|Hb].
    + rewrite readUInt8_ok in H by exact Hb. injection H as <- _.
      eexists. split; [reflexivity|].
      pose proof (be_value_bound (window p 1)) as Hv.
      rewrite length_window in Hv by exact Hb.
      change (2 ^ (8 * Z.of_nat 1))%Z with 256%Z in Hv. lia.
    + rewrite readUInt8_overflow in H by exact Hb. discriminate H.
  - destruct (Nat.le_gt_cases (offset p + 2) (List.length (buffer p))) as [Hb|Hb].
    + rewrite readUInt16BE_ok in H by exact Hb. injection H as <- _.
      eexists. split; [reflexivity|].
      pose proof (be_value_bound (window p 2)) as Hv.
      rewrite length_window in Hv by exact Hb.
      change (2 ^ (8 * Z.of_nat 2))%Z with 65536%Z in Hv. lia.
    + rewrite readUInt16BE_overflow in H by exact Hb. discriminate H.
  - destruct (Nat.le_gt_cases (offset p + 4) (List.length (buffer p))) as [Hb|Hb].
    + rewrite readUInt32BE_ok in H by exact Hb. injection H as <- _.
      eexists. split; [reflexivity|].
      pose proof (be_value_bound (window p 4)) as Hv.
      rewrite length_window in Hv by exact Hb.
      change (2 ^ (8 * Z.of_nat 4))%Z with 4294967296%Z in Hv. lia.
    + rewrite readUInt32BE_overflow in H by exact Hb. discriminate H.
  - destruct (variable f).
    + destruct (readASCII _ p) as [[s q]|e]; [|discriminate H].
      injection H as <- _. eexists. split; [reflexivity | discriminate].
    + destruct (Nat.le_gt_cases (offset p + length f) (List.length (buffer p)))
        as [Hb|Hb].
      * rewrite readASCII_ok in H by exact Hb. injection H as <- _.
        eexists. split; [reflexivity|]. intros _.
        etransitivity; [apply length_strip_nul|].
        now rewrite length_ascii_decode, length_window.
      * rewrite readASCII_overflow in H by exact Hb. discriminate H.
  - destruct (Nat.le_gt_cases (offset p + length f) (List.length (buffer p)))
      as [Hb|Hb].
    + rewrite readBCD_ok in H by exact Hb. injection H as <- _.
      eexists. split; [reflexivity|]. intros Hpos.
      apply bcd_text_all_digits. now rewrite length_window.
    + rewrite readBCD_overflow in H by exact Hb. discriminate H.
  - destruct (variable f).
    + destruct (readBytes _ p) as [[b q]|e]; [|discriminate H].
      injection H as <- _. eexists. reflexivity.
    + destruct (readBytes _ p) as [[b q]|e]; [|discriminate H].
      injection H as <- _. eexists. reflexivity.
  - destruct (deserializeLocation p) as [[l q]|e]; [|discriminate H].
    injection H as <- _. eexists. reflexivity.
  - destruct (deserializeArray f p) as [[l q]|e]; [|discriminate H].
    injection H as <- _. eexists. reflexivity.
  - discriminate H.
Qed.

Lemma distinct_notin (x : string) (l : list string) :
  existsb (String.eqb x) l = false -> x ∉ l.
Proof.
  intros H Hin. apply list_elem_of_In in Hin.
  assert (existsb (String.eqb x) l = true) as Ht.
  { apply existsb_exists. exists x. split; [exact Hin | apply String.eqb_refl]. }
  rewrite H in Ht. discriminate Ht.
Qed.

(** The verdict of the type check on a decoded value: only the length of a
    BCD text can be wrong. *)
Lemma validateFieldType_decoded (f : FieldSchema) (v : Value) :
  regular f = true -> decoded_shape f v ->
  ok (validateFieldType f v)
  = match type f, v with
    | bcd, VString s => (String.length s =? length f * 2)%nat
    | _, _ => true
    end.
Proof.
  unfold regular, decoded_shape, validateFieldType.
  intros Hr Hs.
  apply andb_true_iff in Hr as [Hr Hbcd]. apply andb_true_iff in Hr as [Hr Hvar].
  destruct (type f).
  - destruct Hs as (z & -> & Hz). unfold between.
    replace ((0 <=? z) && (z <=? 255))%Z with true; [reflexivity|].
    symmetry. apply andb_true_iff. split; apply Z.leb_le; lia.
  - destruct Hs as (z & -> & Hz). unfold between.
    replace ((0 <=? z) && (z <=? 65535))%Z with true; [reflexivity|].
    symmetry. apply andb_true_iff. split; apply Z.leb_le; lia.
  - destruct Hs as (z & -> & Hz). unfold between.
    replace ((0 <=? z) && (z <=? 4294967295))%Z with true; [reflexivity|].
    symmetry. apply andb_true_iff. split; apply Z.leb_le; lia.
  - destruct Hs as (s0 & -> & Hlen).
    destruct (variable f).
    + apply Nat.eqb_eq in Hvar. rewrite Hvar. reflexivity.
    + specialize (Hlen eq_refl).
      replace (length f <? String.length s0)%nat with false
        by (symmetry; apply Nat.ltb_ge; exact Hlen).
      now rewrite andb_false_r.
  - destruct Hs as (s0 & -> & Hd). apply Nat.ltb_lt in Hbcd.
    rewrite (Hd Hbcd). cbn [negb].
    replace (length f =? 0)%nat with false by (symmetry; apply Nat.eqb_neq; lia).
    cbn [negb andb]. now destruct (String.length s0 =? length f * 2)%nat.
  - destruct Hs as (b & ->). reflexivity.
  - destruct Hs as (l & ->). reflexivity.
  - destruct Hs as (l & ->). reflexivity.
  - contradiction.
Qed.

Lemma validateFieldConstraints_regular (f : FieldSchema) (v : Value) :
  regular f = true -> validateFieldConstraints f v = pass.
Proof.
  unfold regular, validateFieldConstraints. intros Hr.
  apply andb_true_iff in Hr as [Hr _]. apply andb_true_iff in Hr as [Hr _].
  apply andb_true_iff in Hr as [_ Hr].
  destruct (min f), (max f), (enum f), (pattern f); try discriminate Hr.
  reflexivity.
Qed.

Lemma regular_known (f : FieldSchema) : regular f = true -> known_type f.
Proof.
  unfold regular, known_type. intros Hr.
  destruct (type f); try exact I. discriminate Hr.
Qed.

(** Fields that the loop of [deserialize] does not name keep their value. *)
Lemma deserializeFields_other (fs : list FieldSchema) (p : t) (acc d : FieldMap)
    (k : string) :
  deserializeFields fs p acc = Ok d -> k ∉ map name fs -> d !! k = acc !! k.
Proof.
  revert p acc. induction fs as [|f fs IH]; intros p acc H Hk.
  - now injection H as <-.
  - cbn [deserializeFields] in H.
    destruct (deserializeField f p) as [[v p']|e]; [|discriminate H].
    cbn [map] in Hk. apply not_elem_of_cons in Hk as [Hne Hk].
    rewrite (IH _ _ H Hk). now rewrite lookup_insert_ne by congruence.
Qed.

(** After the loop of [deserialize], every field holds a value that
    [deserializeField] returned for it. *)
Lemma deserializeFields_shapes (fs : list FieldSchema) (p : t) (acc d : FieldMap) :
  distinct (map name fs) = true ->
  deserializeFields fs p acc = Ok d ->
  forall f, f ∈ fs -> exists v, d !! name f = Some v /\ decoded_shape f v.
Proof.
  revert p acc. induction fs as [|f fs IH]; intros p acc Hd H g Hg.
  - now apply elem_of_nil in Hg.
  - cbn [deserializeFields] in H.
    destruct (deserializeField f p) as [[v p']|e] eqn:Hf; [|discriminate H].
    cbn [map distinct] in Hd. apply andb_true_iff in Hd as [Hn Hd].
    apply negb_true_iff in Hn.
    apply elem_of_cons in Hg as [->|Hg].
    + exists v. split; [|eapply deserializeField_shape, Hf].
      rewrite (deserializeFields_other _ _ _ _ _ H (distinct_notin _ _ Hn)).
      apply lookup_insert_eq.
    + eapply IH; eassumption.
Qed.

Lemma validateFields_pass (fs : list FieldSchema) (d : FieldMap) :
  (forall f, f ∈ fs ->
     exists v, d !! name f = Some v
               /\ ok (validateFieldType f v) = true
               /\ validateFieldConstraints f v = pass) ->
  validateFields fs d = pass.
Proof.
  induction fs as [|f fs IH]; intros H; [reflexivity|].
  cbn [validateFields].
  destruct (H f ltac:(left)) as (v & -> & Ht & Hc).
  rewrite Ht, Hc. cbn [negb ok pass]. apply IH.
  intros g Hg. apply H. now right.
Qed.

Lemma validateFields_ok (fs : list FieldSchema) (d : FieldMap) :
  ok (validateFields fs d) = true ->
  forall f v, f ∈ fs -> d !! name f = Some v -> ok (validateFieldType f v) = true.
Proof.
  induction fs as [|f fs IH]; intros H g v Hg Hv.
  - now apply elem_of_nil in Hg.
  - cbn [validateFields] in H.
    apply elem_of_cons in Hg as [->|Hg].
    + rewrite Hv in H.
      destruct (ok (validateFieldType f v)); [reflexivity | discriminate H].
    + destruct (d !! name f) as [w|].
      * destruct (ok (validateFieldType f w)); [|discriminate H]. cbn [negb] in H.
        destruct (ok (validateFieldConstraints f w)); [|discriminate H].
        eapply IH; eassumption.
      * destruct (negb (optional f)); [discriminate H|].
        eapply IH; eassumption.
Qed.

(** Every structure of the registry is regular. *)
Lemma registry_regular (messageId : Z) (st : MessageStructure) :
  MESSAGE_STRUCTURES !! messageId = Some st -> regular_structure (fields st) = true.
Proof.
  intros H. unfold MESSAGE_STRUCTURES in H.
  apply elem_of_list_to_map_2 in H. unfold structure_table in H.
  repeat (apply elem_of_cons in H as [H|H];
          [injection H as -> ->; reflexivity|]).
  apply elem_of_nil in H. contradiction.
Qed.

Lemma validateMessage_on_decoded (messageId : Z) (st : MessageStructure)
    (body : Buffer) (d : FieldMap) :
  MESSAGE_STRUCTURES !! messageId = Some st ->
  deserialize messageId body = Ok d ->
  validateMessage messageId body
  = Ok (mkResult (ok (validateFields (fields st) d))
                 (why (validateFields (fields st) d)) (Some d) (Some st)).
Proof. intros Hst Hd. unfold validateMessage. rewrite Hst, Hd. reflexivity. Qed.

Lemma registry_shapes (messageId : Z) (st : MessageStructure) (body : Buffer)
    (d : FieldMap) :
  MESSAGE_STRUCTURES !! messageId = Some st ->
  deserialize messageId body = Ok d ->
  forall f, f ∈ fields st ->
    regular f = true /\ exists v, d !! name f = Some v /\ decoded_shape f v.
Proof.
  intros Hst Hd f Hf.
  pose proof (registry_regular _ _ Hst) as Hreg.
  apply andb_true_iff in Hreg as [Hreg Hdis].
  split.
  - rewrite forallb_forall in Hreg. apply Hreg, list_elem_of_In, Hf.
  - unfold deserialize in Hd. rewrite Hst in Hd.
    eapply deserializeFields_shapes; eassumption.
Qed.

(** Decoded data that the field checks accept have complete BCD text. *)
Lemma validateFields_decoded_ok (messageId : Z) (st : MessageStructure) (body : Buffer)
    (d : FieldMap) :
  MESSAGE_STRUCTURES !! messageId = Some st ->
  deserialize messageId body = Ok d ->
  ok (validateFields (fields st) d) = true -> bcd_complete (fields st) d.
Proof.
  intros Hst Hd Hok f Hf Hbcd.
  destruct (registry_shapes _ _ _ _ Hst Hd f Hf) as (Hr & v & Hv & Hs).
  pose proof (validateFields_ok _ _ Hok f v Hf Hv) as Ht.
  rewrite (validateFieldType_decoded f v Hr Hs) in Ht.
  unfold decoded_shape in Hs. rewrite Hbcd in Hs, Ht.
  destruct Hs as (s & -> & _). exists s. split; [exact Hv|].
  apply Nat.eqb_eq in Ht. lia.
Qed.

(** Decoded data with complete BCD text pass every field check. *)
Lemma validateFields_decoded_pass (messageId : Z) (st : MessageStructure)
    (body : Buffer) (d : FieldMap) :
  MESSAGE_STRUCTURES !! messageId = Some st ->
  deserialize messageId body = Ok d ->
  bcd_complete (fields st) d -> validateFields (fields st) d = pass.
Proof.
  intros Hst Hd Hc. apply validateFields_pass. intros f Hf.
  destruct (registry_shapes _ _ _ _ Hst Hd f Hf) as (Hr & v & Hv & Hs).
  exists v. split; [exact Hv|].
  split; [|apply validateFieldConstraints_regular, Hr].
  rewrite (validateFieldType_decoded f v Hr Hs).
  destruct (type f) eqn:Ht; try reflexivity.
  destruct (Hc f Hf Ht) as (s & Hv' & Hlen).
  rewrite Hv in Hv'. injection Hv' as ->. apply Nat.eqb_eq. lia.
Qed.

(** X19. The validator and the decoder agree on every message of the
    registry but for BCD text: when [deserialize] returns data for a body,
    [validateMessage] declares the body valid, with these data, exactly
    when the text of every BCD field has two characters for each of its
    bytes (a byte with a nibble above 9 makes the text longer).  No other
    check of the validator can fail on decoded data. *)
Theorem validateMessage_decoded (messageId : Z) (st : MessageStructure)
    (body : Buffer) (d : FieldMap) :
  MESSAGE_STRUCTURES !! messageId = Some st ->
  deserialize messageId body = Ok d ->
  (validateMessage messageId body = Ok (mkResult true None (Some d) (Some st))
   <-> bcd_complete (fields st) d)
  /\ exists r,
      validateMessage messageId body = Ok r
      /\ data r = Some d
      /\ (valid r = true <-> bcd_complete (fields st) d).
Proof.
  intros Hst Hd.
  pose proof (validateFields_decoded_ok _ _ _ _ Hst Hd) as Hto.
  pose proof (validateFields_decoded_pass _ _ _ _ Hst Hd) as Hfrom.
  rewrite (validateMessage_on_decoded _ _ _ _ Hst Hd). split.
  - split.
    + intros [= Hok _]. apply Hto, Hok.
    + intros Hc. now rewrite (Hfrom Hc).
  - eexists. split; [reflexivity|]. cbn [data valid]. split; [reflexivity|].
    split; [exact Hto | intros Hc; now rewrite (Hfrom Hc)].
Qed.

Lemma validateMessage_decoded_witness :
  (validateMessage 0x0200 (location_bytes Samples.location_a)
   = Ok (mkResult true None (Some Samples.location_report_data)
                  (Some Samples.location_report))
   <-> bcd_complete (fields Samples.location_report) Samples.location_report_data)
  /\ exists r,
      validateMessage 0x0200 (location_bytes Samples.location_a) = Ok r
      /\ data r = Some Samples.location_report_data
      /\ (valid r = true
          <-> bcd_complete (fields Samples.location_report)
                           Samples.location_report_data).
Proof.
  apply (validateMessage_decoded 0x0200 Samples.location_report
           (location_bytes Samples.location_a) Samples.location_report_data).
  - vm_compute. reflexivity.
  - vm_compute. reflexivity.
Defined.

(** X25. What [serialize] writes, [validateMessage] accepts: for a message
    of the registry and data that hold, for every field and for no other
    key, a value the field can carry, the serialized body is declared valid
    and the validation result carries the same data. *)
Theorem validateMessage_of_serialized (messageId : Z) (st : MessageStructure)
    (d : FieldMap) :
  MESSAGE_STRUCTURES !! messageId = Some st ->
  encodable_data (fields st) d ->
  exists body,
    serialize messageId d = Ok body
    /\ validateMessage messageId body
       = Ok (mkResult true None (Some d) (Some st)).
Proof.
  intros Hst Henc.
  destruct (message_roundtrip _ _ _ Hst Henc) as (body & Hs & Hd).
  exists body. split; [exact Hs|].
  rewrite (validateMessage_on_decoded _ _ _ _ Hst Hd).
  rewrite (validateFields_decoded_pass _ _ _ _ Hst Hd); [reflexivity|].
  intros f Hf Hbcd. destruct Henc as [Hall _].
  rewrite Forall_forall in Hall. destruct (Hall f Hf) as (v & Hv & He).
  unfold encodable in He. rewrite Hbcd in He.
  destruct v as [z|s|b|l|items]; try contradiction.
  exists s. split; [exact Hv | apply He].
Qed.

Lemma validateMessage_of_serialized_witness :
  exists body,
    serialize 0x8001 Samples.acknowledgement = Ok body
    /\ validateMessage 0x8001 body
       = Ok (mkResult true None (Some Samples.acknowledgement)
                      (Some Samples.general_response)).
Proof.
  apply (validateMessage_of_serialized 0x8001 Samples.general_response
           Samples.acknowledgement).
  - vm_compute. reflexivity.
  - split.
    + repeat (apply Forall_cons; split); [| | |constructor].
      * exists (VNumber 7). split; [reflexivity | vm_compute; split; [discriminate | reflexivity]].
      * exists (VNumber 0x0100). split; [reflexivity | vm_compute; split; [discriminate | reflexivity]].
      * exists (VNumber 0). split; [reflexivity | vm_compute; split; [discriminate | reflexivity]].
    + intros k Hk. unfold Samples.acknowledgement in Hk.
      cbn [fields Samples.general_response map name scalar].
      repeat (apply lookup_insert_is_Some in Hk as [<-|[_ Hk]];
              [repeat first [apply list_elem_of_here | apply list_elem_of_further]|]).
      now apply lookup_empty_is_Some in Hk.
Defined.

End Validation.

(** ** Bytes after the last field *)

Section Trailing.
Import BufferParser ParserSpec Schema CodecSpec EncodeSpec ExtensionSpec.
Import MessageSerializer.

Lemma window_extended (b extra : Buffer) (o n : nat) :
  o + n <= List.length b -> window (mk (b ++ extra) o) n = window (mk b o) n.
Proof.
  intros H. unfold window. cbn [buffer offset].
  rewrite drop_app_le by lia. apply take_app_le. rewrite length_drop. lia.
Qed.

Lemma ignores_rest_reader {A} (n : nat) (m : M A) (g : Buffer -> A) :
  (forall p, offset p + n <= List.length (buffer p) ->
             m p = Ok (g (window p n), advance p n)) ->
  (forall p, List.length (buffer p) < offset p + n -> exists e, m p = Throw e) ->
  ignores_rest m.
Proof.
  intros Hok Hover b o v p' extra H.
  destruct (Nat.le_gt_cases (o + n) (List.length b)) as [Hb|Hb].
  - rewrite Hok in H by exact Hb. injection H as <- <-.
    split; [reflexivity|].
    rewrite Hok by (cbn [buffer offset]; rewrite length_app; lia).
    now rewrite window_extended by exact Hb.
  - destruct (Hover (mk b o) Hb) as [e He]. rewrite He in H. discriminate H.
Qed.

Lemma ignores_rest_ret {A} (a : A) : ignores_rest (ret a).
Proof. intros b o v p' extra [= <- <-]. split; reflexivity. Qed.

Lemma ignores_rest_bind {A B} (m : M A) (f : A -> M B) :
  ignores_rest m -> (forall a, ignores_rest (f a)) -> ignores_rest (mbind m f).
Proof.
  intros Hm Hf b o v p' extra H. unfold mbind in *.
  destruct (m (mk b o)) as [[a q]|e] eqn:Hq; [|discriminate H].
  destruct (Hm _ _ _ _ extra Hq) as [Hbuf ->].
  destruct q as [qb qo]. cbn [buffer offset] in *. subst qb.
  apply (Hf a _ _ _ _ extra H).
Qed.

Lemma readUInt8_ignores_rest : ignores_rest readUInt8.
Proof.
  apply (ignores_rest_reader 1 _ be_value); [apply readUInt8_ok|].
  intros p H. eexists. apply readUInt8_overflow, H.
Qed.

Lemma readUInt16BE_ignores_rest : ignores_rest readUInt16BE.
Proof.
  apply (ignores_rest_reader 2 _ be_value); [apply readUInt16BE_ok|].
  intros p H. eexists. apply readUInt16BE_overflow, H.
Qed.

Lemma readUInt32BE_ignores_rest : ignores_rest readUInt32BE.
Proof.
  apply (ignores_rest_reader 4 _ be_value); [apply readUInt32BE_ok|].
  intros p H. eexists. apply readUInt32BE_overflow, H.
Qed.

Lemma readBCD_ignores_rest (n : nat) : ignores_rest (readBCD n).
Proof.
  apply (ignores_rest_reader n _ bcd_text); [intros p; apply readBCD_ok|].
  intros p H. eexists. apply readBCD_overflow, H.
Qed.

Lemma readASCII_ignores_rest (n : nat) : ignores_rest (readASCII n).
Proof.
  apply (ignores_rest_reader n _ (fun w => strip_nul (ascii_decode w)));
    [intros p; apply readASCII_ok|].
  intros p H. eexists. apply readASCII_overflow, H.
Qed.

Lemma readBytes_ignores_rest (n : nat) : ignores_rest (readBytes n).
Proof.
  apply (ignores_rest_reader n _ (fun w => w)); [intros p; apply readBytes_ok|].
  intros p H. eexists. apply readBytes_overflow, H.
Qed.

Lemma deserializeLocation_ignores_rest : ignores_rest deserializeLocation.
Proof.
  unfold deserializeLocation.
  repeat (apply ignores_rest_bind;
          [first [apply readUInt32BE_ignores_rest | apply readUInt16BE_ignores_rest
                 | apply readBCD_ignores_rest]
          |intros ?]).
  apply ignores_rest_ret.
Qed.

Lemma location_loop_ignores_rest (count : nat) (items : list Item) :
  ignores_rest (location_loop count items).
Proof.
  revert items. induction count as [|count IH]; intros items; cbn [location_loop].
  - apply ignores_rest_ret.
  - apply ignores_rest_bind; [apply deserializeLocation_ignores_rest|].
    intros l. apply IH.
Qed.

Lemma deserializeField_ignores_rest (f : FieldSchema) :
  takes_rest f = false -> ignores_rest (deserializeField f).
Proof.
  unfold takes_rest, deserializeField. intros Hr.
  destruct (type f).
  - apply ignores_rest_bind; [apply readUInt8_ignores_rest|].
    intros ?. apply ignores_rest_ret.
  - apply ignores_rest_bind; [apply readUInt16BE_ignores_rest|].
    intros ?. apply ignores_rest_ret.
  - apply ignores_rest_bind; [apply readUInt32BE_ignores_rest|].
    intros ?. apply ignores_rest_ret.
  - rewrite Hr. apply ignores_rest_bind; [apply readASCII_ignores_rest|].
    intros ?. apply ignores_rest_ret.
  - apply ignores_rest_bind; [apply readBCD_ignores_rest|].
    intros ?. apply ignores_rest_ret.
  - rewrite Hr. apply ignores_rest_bind; [apply readBytes_ignores_rest|].
    intros ?. apply ignores_rest_ret.
  - apply ignores_rest_bind; [apply deserializeLocation_ignores_rest|].
    intros ?. apply ignores_rest_ret.
  - apply ignores_rest_bind; [|intros ?; apply ignores_rest_ret].
    unfold deserializeArray. destruct (itemType f); try discriminate Hr.
    + apply ignores_rest_bind.
      * destruct (countField f);
          [apply readUInt16BE_ignores_rest | apply ignores_rest_ret].
      * intros ?. apply location_loop_ignores_rest.
    + apply ignores_rest_ret.
  - intros b o v p' extra H. discriminate H.
Qed.

Lemma deserializeFields_extended (fs : list FieldSchema) (b extra : Buffer) (o : nat)
    (acc d : FieldMap) :
  Forall (fun f => takes_rest f = false) fs ->
  deserializeFields fs (mk b o) acc = Ok d ->
  deserializeFields fs (mk (b ++ extra) o) acc = Ok d.
Proof.
  intros Hfs. revert o acc. induction Hfs as [|f fs Hf _ IH]; intros o acc H.
  - exact H.
  - cbn [deserializeFields] in *.
    destruct (deserializeField f (mk b o)) as [[v q]|e] eqn:Hq; [|discriminate H].
    destruct (deserializeField_ignores_rest f Hf _ _ _ _ extra Hq) as [Hbuf ->].
    destruct q as [qb qo]. cbn [buffer offset] in *. subst qb.
    apply IH, H.
Qed.

(** X20. Bytes after the last field are not looked at: for a message of the
    registry none of whose fields takes the rest of the buffer, a body that
    [deserialize] decodes is decoded to the same data with any bytes
    appended to it. *)
Theorem deserialize_ignores_trailing (messageId : Z) (st : MessageStructure)
    (body extra : Buffer) (d : FieldMap) :
  MESSAGE_STRUCTURES !! messageId = Some st ->
  Forall (fun f => takes_rest f = false) (fields st) ->
  deserialize messageId body = Ok d ->
  deserialize messageId (body ++ extra) = Ok d.
Proof.
  intros Hst Hfs. unfold deserialize, new. rewrite Hst.
  apply deserializeFields_extended, Hfs.
Qed.

Lemma deserialize_ignores_trailing_witness :
  deserialize 0x8001 (map mkbyte [0; 7; 1; 0; 0]%Z ++ map mkbyte [255; 255]%Z)
  = Ok Samples.acknowledgement.
Proof.
  apply (deserialize_ignores_trailing 0x8001 Samples.general_response).
  - vm_compute. reflexivity.
  - repeat constructor.
  - vm_compute. reflexivity.
Defined.

End Trailing.

(** ** What [serialize] reads of its data *)

Section Serialization.
Import Schema MessageSerializer.

Lemma registry_required (messageId : Z) (st : MessageStructure) :
  MESSAGE_STRUCTURES !! messageId = Some st ->
  Forall (fun f => optional f = false) (fields st).
Proof.
  intros H. unfold MESSAGE_STRUCTURES in H.
  apply elem_of_list_to_map_2 in H. unfold structure_table in H.
  repeat (apply elem_of_cons in H as [H|H];
          [injection H as -> ->; repeat constructor|]).
  apply elem_of_nil in H. contradiction.
Qed.

Lemma serializeFields_present (fs : list FieldSchema) (data : FieldMap) (b : Buffer) :
  Forall (fun f => optional f = false) fs ->
  serializeFields fs data = Ok b ->
  forall f, f ∈ fs -> is_Some (data !! name f).
Proof.
  intros Hreq. revert b. induction Hreq as [|f fs Hf _ IH]; intros b H g Hg.
  - now apply elem_of_nil in Hg.
  - cbn [serializeFields] in H. unfold bind in H.
    destruct (data !! name f) as [v|] eqn:Hv.
    + destruct (serializeField f v); [|discriminate H].
      destruct (serializeFields fs data) as [bs|] eqn:Hbs; [|discriminate H].
      apply elem_of_cons in Hg as [->|Hg]; [rewrite Hv; now eexists|].
      eapply IH; [reflexivity | exact Hg].
    + rewrite Hf in H. discriminate H.
Qed.

Lemma serializeFields_first_missing (pre post : list FieldSchema) (f : FieldSchema)
    (data : FieldMap) (b : Buffer) :
  serializeFields pre data = Ok b ->
  optional f = false -> data !! name f = None ->
  serializeFields (pre ++ f :: post) data
  = Throw (Error ("Missing required field: " +:+ name f)).
Proof.
  revert b. induction pre as [|g pre IH]; intros b H Hf Hv.
  - cbn [app serializeFields]. now rewrite Hv, Hf.
  - cbn [app serializeFields] in *. unfold bind in *.
    destruct (match data !! name g with
              | Some value => serializeField g value
              | None => if negb (optional g)
                        then Throw (Error ("Missing required field: " +:+ name g))
                        else Ok []
              end) as [bg|]; [|discriminate H].
    destruct (serializeFields pre data) as [bs|] eqn:Hbs; [|discriminate H].
    now rewrite (IH bs eq_refl Hf Hv).
Qed.

(** X21. [serialize] asks for every field of the structure: for a message
    of the registry it returns a body only when the data hold a value for
    each field, and when the fields before the first absent one are
    serialized it throws "Missing required field: " followed by the name of
    that field. *)
Theorem serialize_requires_fields (messageId : Z) (st : MessageStructure)
    (data : FieldMap) :
  MESSAGE_STRUCTURES !! messageId = Some st ->
  (forall body, serialize messageId data = Ok body ->
                forall f, f ∈ fields st -> is_Some (data !! name f))
  /\ (forall pre f post b,
        fields st = pre ++ f :: post ->
        serializeFields pre data = Ok b ->
        data !! name f = None ->
        serialize messageId data
        = Throw (Error ("Missing required field: " +:+ name f))).
Proof.
  intros Hst. pose proof (registry_required _ _ Hst) as Hreq.
  unfold serialize. rewrite Hst. split.
  - intros body H. eapply serializeFields_present; eassumption.
  - intros pre f post b Hfs Hpre Hv. rewrite Hfs.
    eapply serializeFields_first_missing; [exact Hpre | | exact Hv].
    rewrite Hfs in Hreq. apply Forall_app in Hreq as [_ Hreq].
    now apply Forall_cons in Hreq as [? _].
Qed.

Lemma serialize_requires_fields_witness :
  (forall body, serialize 0x8001 (delete "result" Samples.acknowledgement) = Ok body ->
                forall f, f ∈ fields Samples.general_response ->
                          is_Some (delete "result" Samples.acknowledgement !! name f))
  /\ (forall pre f post b,
        fields Samples.general_response = pre ++ f :: post ->
        serializeFields pre (delete "result" Samples.acknowledgement) = Ok b ->
        delete "result" Samples.acknowledgement !! name f = None ->
        serialize 0x8001 (delete "result" Samples.acknowledgement)
        = Throw (Error ("Missing required field: " +:+ name f))).
Proof.
  apply (serialize_requires_fields 0x8001 Samples.general_response
           (delete "result" Samples.acknowledgement)).
  vm_compute. reflexivity.
Defined.

(** The error of the sample above. *)
Example general_response_without_result :
  serialize 0x8001 (delete "result" Samples.acknowledgement)
  = Throw (Error "Missing required field: result").
Proof. vm_compute. reflexivity. Qed.

Lemma serializeFields_agree (fs : list FieldSchema) (data data' : FieldMap) :
  (forall f, f ∈ fs -> data !! name f = data' !! name f) ->
  serializeFields fs data = serializeFields fs data'.
Proof.
  induction fs as [|f fs IH]; intros H; [reflexivity|].
  cbn [serializeFields]. rewrite (H f) by left.
  rewrite IH; [reflexivity|]. intros g Hg. apply H. now right.
Qed.

(** X22. [serialize] reads the data at the names of the structure's fields
    and nowhere else: two data objects that agree at these names are
    serialized alike, so any other key of the data is dropped silently. *)
Theorem serialize_reads_fields_only (messageId : Z) (data data' : FieldMap) :
  (forall st f, MESSAGE_STRUCTURES !! messageId = Some st -> f ∈ fields st ->
                data !! name f = data' !! name f) ->
  serialize messageId data = serialize messageId data'.
Proof.
  intros H. unfold serialize.
  destruct (MESSAGE_STRUCTURES !! messageId) as [st|] eqn:Hst; [|reflexivity].
  apply serializeFields_agree. intros f Hf. now apply (H st).
Qed.

Lemma serialize_reads_fields_only_witness :
  serialize 0x8001 Samples.acknowledgement
  = serialize 0x8001 (<["comment" := VString "late"]> Samples.acknowledgement).
Proof.
  apply (serialize_reads_fields_only 0x8001).
  intros st f Hst Hf. vm_compute in Hst. injection Hst as <-.
  cbn [fields] in Hf.
  repeat (apply elem_of_cons in Hf as [->|Hf]; [reflexivity|]).
  now apply elem_of_nil in Hf.
Defined.

End Serialization.

(** ** The cursor of the parser *)

Section Cursor.
Import BufferParser ParserSpec.

(** X23. A parser that has read its whole buffer stands at a position
    [seek] refuses: after [readBytes] has consumed the last bytes,
    [remaining] is 0 and [tell] gives the buffer length, [seek] to that
    position throws, and [reset] brings the cursor back to 0. *)
Theorem seek_refuses_end (p : t) (n : nat) :
  offset p + n = length (buffer p) ->
  exists v q,
    readBytes n p = Ok (v, q)
    /\ remaining q = 0%Z
    /\ tell q = Ok (length (buffer p), q)
    /\ (forall position, (exists e, seek position q = Throw e)
                         <-> (position < 0 \/ Z.of_nat (offset q) <= position)%Z)
    /\ reset q = Ok (tt, mk (buffer p) 0).
Proof.
  intros H. rewrite readBytes_ok by lia.
  eexists _, _. split; [reflexivity|].
  unfold remaining, tell, seek, reset, advance. cbn [buffer offset].
  repeat split; try (f_equal; f_equal; lia); try lia.
  - intros [e He].
    destruct (position <? 0)%Z eqn:Hneg; [apply Z.ltb_lt in Hneg; lia|].
    destruct (Z.of_nat (length (buffer p)) <=? position)%Z eqn:Hge;
      [apply Z.leb_le in Hge; lia | discriminate He].
  - intros Hpos.
    destruct (position <? 0)%Z eqn:Hneg; [eexists; reflexivity|].
    apply Z.ltb_ge in Hneg.
    replace (Z.of_nat (length (buffer p)) <=? position)%Z with true;
      [eexists; reflexivity|].
    symmetry. apply Z.leb_le. lia.
Qed.

Lemma seek_refuses_end_witness :
  exists v q,
    readBytes 2 (mk (map mkbyte [1; 2; 3]%Z) 1) = Ok (v, q)
    /\ remaining q = 0%Z
    /\ tell q = Ok (3, q)
    /\ (forall position, (exists e, seek position q = Throw e)
                         <-> (position < 0 \/ Z.of_nat (offset q) <= position)%Z)
    /\ reset q = Ok (tt, mk (map mkbyte [1; 2; 3]%Z) 0).
Proof.
  apply (seek_refuses_end (mk (map mkbyte [1; 2; 3]%Z) 1) 2). reflexivity.
Defined.

(** X24. [skip] is not checked against the buffer: it always succeeds, and
    when it moves the cursor past the end, [remaining] turns negative and
    every read that follows throws the overflow error, also a read of no
    byte at all. *)
Theorem skip_unchecked (p : t) (n : nat) :
  length (buffer p) < offset p + n ->
  exists q,
    skip n p = Ok (tt, q)
    /\ (remaining q < 0)%Z
    /\ readUInt8 q = Throw (overflow "" q)
    /\ readUInt16BE q = Throw (overflow "" q)
    /\ readUInt32BE q = Throw (overflow "" q)
    /\ (forall k, readBCD k q = Throw (overflow "BCD " q))
    /\ (forall k, readASCII k q = Throw (overflow "ASCII " q))
    /\ (forall k, readBytes k q = Throw (overflow "bytes " q)).
Proof.
  intros H. eexists. split; [reflexivity|].
  split; [unfold remaining; cbn [buffer offset]; lia|].
  split; [apply readUInt8_overflow; cbn [buffer offset]; lia|].
  split; [apply readUInt16BE_overflow; cbn [buffer offset]; lia|].
  split; [apply readUInt32BE_overflow; cbn [buffer offset]; lia|].
  split; [intros k; apply readBCD_overflow; cbn [buffer offset]; lia|].
  split; [intros k; apply readASCII_overflow; cbn [buffer offset]; lia|].
  intros k; apply readBytes_overflow; cbn [buffer offset]; lia.
Qed.

Lemma skip_unchecked_witness :
  exists q,
    skip 3 (mk (map mkbyte [1; 2]%Z) 0) = Ok (tt, q)
    /\ (remaining q < 0)%Z
    /\ readUInt8 q = Throw (overflow "" q)
    /\ readUInt16BE q = Throw (overflow "" q)
    /\ readUInt32BE q = Throw (overflow "" q)
    /\ (forall k, readBCD k q = Throw (overflow "BCD " q))
    /\ (forall k, readASCII k q = Throw (overflow "ASCII " q))
    /\ (forall k, readBytes k q = Throw (overflow "bytes " q)).
Proof.
  apply (skip_unchecked (mk (map mkbyte [1; 2]%Z) 0) 3). vm_compute. lia.
Defined.

End Cursor.
